(** * A shallow embedding of the UAVCAN transport core of pyuavcan

    The development follows two source files:

    - [uavcan/transport.py]: the bit-string codec, the value tree with its
      pack/unpack engine, frames, transfers ([to_frames], [from_frames]) and
      the reassembly table ([TransferManager]);
    - [pyuavcan/transport/can/_can.py]: the CAN transport facade with its
      node-id assignment and the constant-time input dispatch table.

    Python integers are modelled by [Z], byte strings by [list Z] (every
    element of a [bytes]/[bytearray] lies in 0..255), textual bit strings
    (["0101..."]) by [list bool], Python exceptions by the error monad
    [result]. *)

From stdpp Require Import base numbers list strings pretty gmap.

Set Warnings "-register-all".

Local Open Scope Z_scope.

(** Linear arithmetic over [Z] with division and remainder by constants. *)
Ltac div_lia := Z.to_euclidean_division_equations; lia.

(** ** Exceptions and the error monad *)

Inductive exn : Type :=
| ValueError
| TypeError
| IndexError
| KeyError
| AttributeError
| AssertionError
| NotImplementedError
| RuntimeError
| TransferError
| InvalidTransportConfigurationError.

#[global] Instance exn_eq_dec : EqDecision exn.
Proof. solve_decision. Defined.

Inductive result (A : Type) : Type :=
| Ok (a : A)
| Raise (e : exn).

Arguments Ok {A} a.
Arguments Raise {A} e.

Notation "x <- e1 ;; e2" :=
  (match e1 with
   | Ok x => e2
   | Raise err => Raise err
   end)
  (at level 60, e1 at next level, right associativity).

(** [mapM]: a comprehension whose body may raise; the first exception wins. *)
Fixpoint mapM {A B} (f : A -> result B) (l : list A) : result (list B) :=
  match l with
  | [] => Ok []
  | a :: l' => b <- f a ;; bs <- mapM f l' ;; Ok (b :: bs)
  end.

(** ** Python slices, ranges and number formatting *)

(** [s[i:j]] for [0 <= i <= j]. *)
Definition slice {A} (s : list A) (i j : nat) : list A := take (j - i) (drop i s).

(** [range(0, stop, step)] for a positive [step]. *)
Definition range_step (stop step : nat) : list nat :=
  (fun k => (k * step)%nat) <$> seq 0 ((stop + step - 1) / step)%nat.

Fixpoint pos_digits (p : positive) : list bool :=
  match p with
  | xH => [true]
  | xO q => pos_digits q ++ [false]
  | xI q => pos_digits q ++ [true]
  end.

(** The binary numeral of a natural number, most significant digit first
    (["0"] for zero), as [format(n, "b")] prints it. *)
Definition bin_digits (n : N) : list bool :=
  match n with
  | N0 => [false]
  | Npos p => pos_digits p
  end.

(** [format(n, "0<width>b")] for [n >= 0]: the numeral, zero-filled on the
    left up to [width] characters (never truncated). *)
Definition format_b (width : nat) (n : Z) : list bool :=
  let d := bin_digits (Z.to_N n) in
  replicate (width - length d) false ++ d.

(** The value a string of binary digits spells. *)
Definition bits_value (s : list bool) : Z :=
  foldl (fun acc (b : bool) => 2 * acc + (if b then 1 else 0)) 0 s.

(** [int(s, 2)]: [ValueError] on the empty string. *)
Definition int2 (s : list bool) : result Z :=
  match s with
  | [] => Raise ValueError
  | _ => Ok (bits_value s)
  end.

(** ** uavcan/transport.py: the bit-stream codec *)

(** [bits_from_bytes]: ["".join(format(c, "08b") for c in s)]. *)
Definition bits_from_bytes (s : list Z) : list bool :=
  concat (format_b 8 <$> s).

(** [bytes_from_bits]:
    [bytearray(int(s[i:i + 8], 2) for i in range(0, len(s), 8))]. *)
Definition bytes_from_bits (s : list bool) : result (list Z) :=
  mapM (fun i => int2 (slice s i (i + 8))) (range_step (length s) 8).

(** [be_from_le_bits]. *)
Definition be_from_le_bits (s : list bool) (bitlen : nat) : result (list bool) :=
  if decide (length s < bitlen)%nat then Raise ValueError
  else
    let s := if decide (bitlen < length s)%nat then slice s 0 bitlen else s in
    Ok (concat (reverse ((fun i => slice s i (i + 8)) <$> range_step (length s) 8))).

(** [le_from_be_bits]: the chunks are cut from the end of the string,
    [s[max(0, i - 8):i] for i in range(len(s), 0, -8)]. *)
Definition le_from_be_bits (s : list bool) (bitlen : nat) : result (list bool) :=
  if decide (length s < bitlen)%nat then Raise ValueError
  else
    let s := if decide (bitlen < length s)%nat then slice s (length s - bitlen) (length s) else s in
    Ok (concat ((fun i => slice s (i - 8) i)
                  <$> ((fun k => (length s - k)%nat) <$> range_step (length s) 8))).

(** [f16_from_f32] and [f32_from_f16] work on bit patterns.  A float is
    represented by its IEEE 754 single-precision pattern: [f32] below is the
    local variable of that name in the source, which [struct.pack('>f', _)]
    and [int(_, 16)] compute from the argument, and the result of
    [f32_from_f16] is the pattern [t1] that the source hands to
    [struct.unpack("<f", struct.pack("<L", t1))]. *)
Definition f16_from_f32 (f32 : Z) : Z :=
  let F16_EXPONENT_BITS := 0x1F in
  let F16_EXPONENT_SHIFT := 10 in
  let F16_EXPONENT_BIAS := 15 in
  let F16_MANTISSA_BITS := 0x3ff in
  let F16_MANTISSA_SHIFT := 23 - F16_EXPONENT_SHIFT in
  let F16_MAX_EXPONENT := Z.shiftl F16_EXPONENT_BITS F16_EXPONENT_SHIFT in
  let sign := Z.land (Z.shiftr f32 16) 0x8000 in
  let exponent := Z.land (Z.shiftr f32 23) 0xff - 127 in
  let mantissa := Z.land f32 0x007fffff in
  if decide (exponent = 128) then
    let f16 := Z.lor sign F16_MAX_EXPONENT in
    if decide (mantissa <> 0) then Z.lor f16 (Z.land mantissa F16_MANTISSA_BITS) else f16
  else if decide (exponent > 15) then Z.lor sign F16_MAX_EXPONENT
  else if decide (exponent > -15) then
    let exponent := exponent + F16_EXPONENT_BIAS in
    let mantissa := Z.shiftr mantissa F16_MANTISSA_SHIFT in
    Z.lor (Z.lor sign (Z.shiftl exponent F16_EXPONENT_SHIFT)) mantissa
  else sign.

Definition f32_from_f16 (float16 : Z) : Z :=
  let t1 := Z.land float16 0x7FFF in
  let t2 := Z.land float16 0x8000 in
  let t3 := Z.land float16 0x7C00 in
  let t1 := Z.shiftl t1 13 in
  let t2 := Z.shiftl t2 16 in
  let t1 := t1 + 0x38000000 in
  let t1 := if decide (t3 = 0) then 0 else t1 in
  Z.lor t1 t2.

(** The zero padding of [Transfer.__init__]:
    [if len(bits) & 7: bits += "0" * (8 - (len(bits) & 7))]. *)
Definition pad_payload_bits (bits : list bool) : list bool :=
  if decide (Z.land (Z.of_nat (length bits)) 7 = 0) then bits
  else bits ++ replicate (Z.to_nat (8 - Z.land (Z.of_nat (length bits)) 7)) false.

(** The conversion as the spec words it: the bit string extended on the
    right with [(-len(s)) mod 8] zero bits, each 8-bit chunk read most
    significant bit first. *)
Definition zero_padded (s : list bool) : list bool :=
  s ++ replicate ((8 - length s mod 8) mod 8)%nat false.

Definition bytes_msb_first (s : list bool) : list Z :=
  (fun i => bits_value (slice s i (i + 8))) <$> range_step (length s) 8.

Definition bytes_of_zero_padded (s : list bool) : list Z :=
  bytes_msb_first (zero_padded s).

(** The chunks that the conversions cut a bit string into: 8 bits at a time
    from the front ([s[i:i + 8] for i in range(0, len(s), 8)]), and 8 bits
    at a time from the end ([s[max(0, i - 8):i] for i in range(len(s), 0, -8)]). *)
Definition chunks_front (s : list bool) : list (list bool) :=
  (fun i => slice s i (i + 8)) <$> range_step (length s) 8.

Definition chunks_back (s : list bool) : list (list bool) :=
  (fun i => slice s (i - 8) i) <$> ((fun k => (length s - k)%nat) <$> range_step (length s) 8).

(** ** Python dictionaries

    A [dict] keeps its keys in insertion order; assigning to an existing key
    keeps the key's position.  The reassembly table iterates over its keys
    while deleting, where the order decides what happens, so dictionaries are
    association lists with unique keys. *)

Section PyDict.
Context {K V : Type} `{EqDecision K}.

Definition dict := list (K * V).

Fixpoint dict_get (k : K) (d : list (K * V)) : option V :=
  match d with
  | [] => None
  | (k', v) :: d' => if decide (k' = k) then Some v else dict_get k d'
  end.

(** [d[k] = v]. *)
Fixpoint dict_set (k : K) (v : V) (d : list (K * V)) : list (K * V) :=
  match d with
  | [] => [(k, v)]
  | (k', v') :: d' =>
      if decide (k' = k) then (k, v) :: d' else (k', v') :: dict_set k v d'
  end.

(** [del d[k]] for a key that is present. *)
Fixpoint dict_del (k : K) (d : list (K * V)) : list (K * V) :=
  match d with
  | [] => []
  | (k', v') :: d' => if decide (k' = k) then d' else (k', v') :: dict_del k d'
  end.

Definition dict_keys (d : list (K * V)) : list K := fst <$> d.

Definition dict_has (k : K) (d : list (K * V)) : bool :=
  bool_decide (is_Some (dict_get k d)).

(** What [d[k] = v] and [del d[k]] do to the key list. *)
Fixpoint keys_set (k : K) (ks : list K) : list K :=
  match ks with
  | [] => [k]
  | k' :: ks' => if decide (k' = k) then k :: ks' else k' :: keys_set k ks'
  end.

Fixpoint keys_del (k : K) (ks : list K) : list K :=
  match ks with
  | [] => []
  | k' :: ks' => if decide (k' = k) then ks' else k' :: keys_del k ks'
  end.

End PyDict.

(** [keys.index(x)]. *)
Fixpoint list_index {A} `{EqDecision A} (x : A) (l : list A) : result nat :=
  match l with
  | [] => Raise ValueError
  | y :: l' => if decide (y = x) then Ok 0%nat else i <- list_index x l' ;; Ok (S i)
  end.

(** ** Type descriptors

    Modelled from the spec: the descriptor classes of [uavcan.dsdl]
    ([VoidType], [PrimitiveType], [ArrayType], [CompoundType]) are not part of
    the sources at hand.  The spec's data model gives a void and a primitive
    a [bitlen]; an array a mode, a value type and a maximal size; a compound
    a kind, a data-type id, a CRC seed, a union flag and its fields, with
    separate request and response field lists and union flags for a service.
    The primitive's cast mode and value range only matter to the value
    setters, which are not modelled. *)

Inductive PrimitiveKind : Type :=
| KIND_BOOLEAN | KIND_UNSIGNED_INT | KIND_SIGNED_INT | KIND_FLOAT.

Inductive ArrayMode : Type := MODE_STATIC | MODE_DYNAMIC.

Inductive CompoundKind : Type := KIND_SERVICE | KIND_MESSAGE.

#[global] Instance CompoundKind_eq_dec : EqDecision CompoundKind.
Proof. solve_decision. Defined.

#[global] Instance CompoundKind_countable : Countable CompoundKind.
Proof.
  refine (inj_countable'
            (fun k => match k with KIND_SERVICE => true | KIND_MESSAGE => false end)
            (fun b : bool => if b then KIND_SERVICE else KIND_MESSAGE) _).
  by intros [].
Defined.

Inductive dtype : Type :=
| VoidType (bitlen : nat)
| PrimitiveType (kind : PrimitiveKind) (bitlen : nat)
| ArrayType (value_type : dtype) (mode : ArrayMode) (max_size : nat)
| CompoundType (kind : CompoundKind) (default_dtid : Z) (base_crc : Z)
    (fields : list (string * dtype)) (union : bool)
    (request_fields : list (string * dtype)) (request_union : bool)
    (response_fields : list (string * dtype)) (response_union : bool).

Definition default_dtid (t : dtype) : result Z :=
  match t with
  | CompoundType _ dtid _ _ _ _ _ _ _ => Ok dtid
  | _ => Raise AttributeError
  end.

Definition base_crc (t : dtype) : result Z :=
  match t with
  | CompoundType _ _ crc _ _ _ _ _ _ => Ok crc
  | _ => Raise AttributeError
  end.

(** [getattr(value_type, "bitlen", 0)]: only voids and primitives carry the
    attribute. *)
Definition value_bitlen (value_type : dtype) : nat :=
  match value_type with
  | VoidType n => n
  | PrimitiveType _ n => n
  | _ => 0%nat
  end.

(** The [_mode] argument of [CompoundValue]: ["request"], ["response"], or
    [None]. *)
Inductive Mode : Type := ModeRequest | ModeResponse.

(** ** The value tree

    Each value keeps the parts of its descriptor that [_pack] and [_unpack]
    read.  An array also keeps [item_ctor], the element constructor chosen in
    [__init__]; it is stored as the (fresh, default-initialised) element it
    builds, or as the exception a call of it raises. *)

Inductive value : Type :=
| VoidValue (bitlen : nat)
| PrimitiveValue (bitlen : nat) (bits : list bool)
| ArrayValue (mode : ArrayMode) (max_size : nat) (tao : bool)
    (item_ctor : result value) (items : list value)
| CompoundValue (is_union : bool) (union_field : option string)
    (fields : list (string * value)).

(** [PrimitiveValue.__init__] stores the value 0 through the setter: ["0"]
    for a boolean, [format(0, "0<bitlen>b")] for an integer (the cast of 0 is
    0: the spec has primitives default to numeric zero) and for a 16- or
    32-bit float, whose bit pattern of 0.0 is 0; other float widths raise
    [NotImplementedError]. *)
Definition PrimitiveValue_init (kind : PrimitiveKind) (bitlen : nat) : result value :=
  match kind with
  | KIND_BOOLEAN => Ok (PrimitiveValue bitlen [false])
  | KIND_UNSIGNED_INT | KIND_SIGNED_INT => Ok (PrimitiveValue bitlen (format_b bitlen 0))
  | KIND_FLOAT =>
      if decide (bitlen = 16 \/ bitlen = 32)%nat
      then Ok (PrimitiveValue bitlen (format_b bitlen 0))
      else Raise NotImplementedError
  end.

(** The name a field gets in [CompoundValue._fields]. *)
Definition field_key (idx : nat) (name : string) (t : dtype) : string :=
  match t with
  | VoidType _ => "_void_" +:+ pretty idx
  | _ => name
  end.

(** [ArrayValue.__init__] and [CompoundValue.__init__].

    An array switches tail-array optimisation off unless its elements are at
    least 8 bits wide.  The element constructor is a partial application of
    the element's class to the value type: for an array of arrays the call
    lacks the required [_tao] argument ([TypeError]); for a compound element
    [_tao] takes its default [True]; no constructor is bound for any other
    value type ([AttributeError] on use).

    A compound builds its fields in order; only the last field inherits the
    [_tao] flag. *)
Fixpoint ArrayValue_init (t : dtype) (_tao : bool) {struct t} : result value :=
  match t with
  | ArrayType value_type mode max_size =>
      let tao := if decide (8 <= value_bitlen value_type)%nat then _tao else false in
      let item_ctor :=
        match value_type with
        | PrimitiveType kind bitlen => PrimitiveValue_init kind bitlen
        | ArrayType _ _ _ => Raise TypeError
        | CompoundType _ _ _ _ _ _ _ _ _ => CompoundValue_init value_type None true
        | VoidType _ => Raise AttributeError
        end in
      match mode with
      | MODE_STATIC =>
          match max_size with
          | O => Ok (ArrayValue mode max_size tao item_ctor [])
          | S _ => item <- item_ctor ;;
                   Ok (ArrayValue mode max_size tao item_ctor (replicate max_size item))
          end
      | MODE_DYNAMIC => Ok (ArrayValue mode max_size tao item_ctor [])
      end
  | _ => Raise AttributeError
  end
with CompoundValue_init (t : dtype) (_mode : option Mode) (_tao : bool) {struct t}
  : result value :=
  let build :=
    fix build (n idx : nat) (source_fields : list (string * dtype))
        (acc : list (string * value)) {struct source_fields}
      : result (list (string * value)) :=
      match source_fields with
      | [] => Ok acc
      | (name, ft) :: rest =>
          let atao := bool_decide (S idx = n) && _tao in
          v <- match ft with
               | VoidType bitlen => Ok (VoidValue bitlen)
               | PrimitiveType kind bitlen => PrimitiveValue_init kind bitlen
               | ArrayType _ _ _ => ArrayValue_init ft atao
               | CompoundType _ _ _ _ _ _ _ _ _ => CompoundValue_init ft None atao
               end ;;
          build n (S idx) rest (dict_set (field_key idx name ft) v acc)
      end in
  match t with
  | CompoundType kind _ _ fields union request_fields request_union
      response_fields response_union =>
      match kind, _mode with
      | KIND_SERVICE, Some ModeRequest =>
          fs <- build (length request_fields) 0%nat request_fields [] ;;
          Ok (CompoundValue request_union None fs)
      | KIND_SERVICE, Some ModeResponse =>
          fs <- build (length response_fields) 0%nat response_fields [] ;;
          Ok (CompoundValue response_union None fs)
      | KIND_SERVICE, None => Raise ValueError
      | KIND_MESSAGE, None =>
          fs <- build (length fields) 0%nat fields [] ;;
          Ok (CompoundValue union None fs)
      | KIND_MESSAGE, Some _ => Raise ValueError
      end
  | _ => Raise AttributeError
  end.

(** *** The accessors of the module

    [get_uavcan_data_type], [is_union], [get_active_union_field],
    [switch_union_field] and [get_fields] work on a [CompoundValue] and raise
    [ValueError] on anything else.  The descriptor of an object
    ([obj._type]) is not kept in the value tree and is passed along with
    it. *)
Definition get_uavcan_data_type (_type : dtype) (obj : value) : result dtype :=
  match obj with
  | CompoundValue _ _ _ => Ok _type
  | _ => Raise ValueError
  end.

Definition is_union (obj : value) : result bool :=
  match obj with
  | CompoundValue _is_union _ _ => Ok _is_union
  | _ => Raise ValueError
  end.

Definition get_active_union_field (obj : value) : result (option string) :=
  u <- is_union obj ;;
  if negb u then Raise ValueError
  else match obj with
       | CompoundValue _ _union_field _ => Ok _union_field
       | _ => Raise AttributeError
       end.

Definition switch_union_field (obj : value) (new_field : option string) : result value :=
  u <- is_union obj ;;
  if negb u then Raise ValueError
  else match obj with
       | CompoundValue _is_union _ _fields => Ok (CompoundValue _is_union new_field _fields)
       | _ => Raise AttributeError
       end.

Definition get_fields (obj : value) : result (list (string * value)) :=
  match obj with
  | CompoundValue _ _ _fields => Ok _fields
  | _ => Raise ValueError
  end.

(** The truth value of an object: an [ArrayValue] has [__len__] and is false
    when empty; the other values are plain objects, which are true. *)
Definition truthy (obj : value) : bool :=
  match obj with
  | ArrayValue _ _ _ _ [] => false
  | _ => true
  end.

(** The element constructor an array binds for a value type. *)
Definition item_ctor_of (value_type : dtype) : result value :=
  match value_type with
  | PrimitiveType kind bitlen => PrimitiveValue_init kind bitlen
  | ArrayType _ _ _ => Raise TypeError
  | CompoundType _ _ _ _ _ _ _ _ _ => CompoundValue_init value_type None true
  | VoidType _ => Raise AttributeError
  end.

(** [r] is anything but the exception [TransferError]. *)
Definition no_TransferError {A} (r : result A) : Prop := r <> Raise TransferError.

(** A value tree is [ctor_safe] when no element constructor stored in an
    array of it is the exception [TransferError]. *)
Definition safe_result_with (safe : value -> Prop) (r : result value) : Prop :=
  match r with
  | Ok v => safe v
  | Raise e => e <> TransferError
  end.

Fixpoint ctor_safe (v : value) : Prop :=
  match v with
  | ArrayValue _ _ _ item_ctor items =>
      match item_ctor with
      | Ok new_item => ctor_safe new_item
      | Raise e => e <> TransferError
      end
      /\ (fix all (l : list value) : Prop :=
            match l with
            | [] => True
            | i :: l' => ctor_safe i /\ all l'
            end) items
  | CompoundValue _ _ fields =>
      (fix all (l : list (string * value)) : Prop :=
         match l with
         | [] => True
         | (_, fv) :: l' => ctor_safe fv /\ all l'
         end) fields
  | _ => True
  end.

Definition safe_result : result value -> Prop := safe_result_with ctor_safe.

(** The exact value of [ceil(log2 n)] ([ValueError] at 0, where [math.log]
    raises), with which the floating-point computation agrees on the sizes
    used in the examples below. *)
Definition exact_log2_ceil (n : nat) : option nat :=
  match n with
  | O => None
  | _ => Some (Nat.log2_up n)
  end.

Section Core.

(** [int(math.ceil(math.log(n, 2)))]: the logarithm is computed in floating
    point, so the function is a parameter of the development; [None] stands
    for the [ValueError] that [math.log] raises at 0. *)
Variable log2_ceil : nat -> option nat.

(** [int(math.ceil(math.log(n, 2))) or 1]: the width of an array's length
    prefix ([n] the maximal size) and of a union's tag ([n] the number of
    fields, [union_tag_len]). *)
Definition log_width (n : nat) : result nat :=
  match log2_ceil n with
  | Some w => Ok (if decide (w = 0)%nat then 1%nat else w)
  | None => Raise ValueError
  end.

Definition union_tag_len {A} (x : list A) : result nat := log_width (length x).

(** *** [_pack] *)

Fixpoint pack (v : value) : result (list bool) :=
  let pack_items :=
    fix pack_items (l : list value) : result (list bool) :=
      match l with
      | [] => Ok []
      | i :: l' => b <- pack i ;; bs <- pack_items l' ;; Ok (b ++ bs)
      end in
  match v with
  | VoidValue bitlen => Ok (replicate bitlen false)
  | PrimitiveValue bitlen bits =>
      match bits with
      | [] => Ok (replicate bitlen false)
      | _ => le_from_be_bits bits bitlen
      end
  | ArrayValue MODE_STATIC max_size _ item_ctor items =>
      packed <- pack_items items ;;
      if decide (length items < max_size)%nat then
        empty_item <- item_ctor ;;
        e <- pack empty_item ;;
        Ok (packed ++ concat (replicate (max_size - length items) e))
      else Ok packed
  | ArrayValue MODE_DYNAMIC max_size tao _ items =>
      if tao then pack_items items
      else
        count_width <- log_width max_size ;;
        packed <- pack_items items ;;
        Ok (format_b count_width (Z.of_nat (length items)) ++ packed)
  | CompoundValue is_union union_field fields =>
      if is_union then
        let keys := dict_keys fields in
        field <- match union_field with
                 | Some (String c f) => Ok (String c f)
                 | _ => match keys with [] => Raise IndexError | k :: _ => Ok k end
                 end ;;
        tag <- list_index field keys ;;
        tag_len <- union_tag_len fields ;;
        packed <- (fix pack_field (l : list (string * value)) : result (list bool) :=
                     match l with
                     | [] => Raise KeyError
                     | (k, fv) :: l' =>
                         if decide (k = field) then pack fv else pack_field l'
                     end) fields ;;
        Ok (format_b tag_len (Z.of_nat tag) ++ packed)
      else
        (fix pack_fields (l : list (string * value)) : result (list bool) :=
           match l with
           | [] => Ok []
           | (_, fv) :: l' => b <- pack fv ;; bs <- pack_fields l' ;; Ok (b ++ bs)
           end) fields
  end.

(** *** [_unpack]

    The object is updated in place and the rest of the stream returned; here
    the updated value is returned with it.  The tail-array loop
    [while len(stream) >= 8] runs as long as the stream shrinks; an element
    that consumes nothing would repeat the same step forever, which is
    reported as [RuntimeError] once the fuel (the length of the stream) is
    used up. *)

Fixpoint unpack (v : value) (stream : list bool) {struct v} : result (value * list bool) :=
  match v with
  | VoidValue bitlen => Ok (v, drop bitlen stream)
  | PrimitiveValue bitlen bits =>
      match bitlen with
      | O => Ok (v, stream)
      | _ => bits' <- be_from_le_bits stream bitlen ;;
             Ok (PrimitiveValue bitlen bits', drop bitlen stream)
      end
  | ArrayValue MODE_STATIC max_size tao item_ctor items =>
      r <- (fix unpack_static (l : list value) (n : nat) (stream : list bool)
              {struct l} : result (list value * list bool) :=
              match n with
              | O => Ok (l, stream)
              | S n' =>
                  match l with
                  | [] => Raise IndexError
                  | i :: l' =>
                      r1 <- unpack i stream ;;
                      r2 <- unpack_static l' n' r1.2 ;;
                      Ok (r1.1 :: r2.1, r2.2)
                  end
              end) items max_size stream ;;
      Ok (ArrayValue MODE_STATIC max_size tao item_ctor r.1, r.2)
  | ArrayValue MODE_DYNAMIC max_size tao item_ctor _ =>
      let unpack_new :=
        fun stream => new_item <- item_ctor ;; unpack new_item stream in
      if tao then
        items <- (fix loop (fuel : nat) (stream : list bool) (acc : list value)
                    : result (list value) :=
                    if decide (8 <= length stream)%nat then
                      match fuel with
                      | O => Raise RuntimeError
                      | S fuel' =>
                          r <- unpack_new stream ;;
                          loop fuel' r.2 (acc ++ [r.1])
                      end
                    else Ok acc) (length stream) stream [] ;;
        Ok (ArrayValue MODE_DYNAMIC max_size tao item_ctor items, [])
      else
        count_width <- log_width max_size ;;
        count <- int2 (slice stream 0 count_width) ;;
        r <- (fix unpack_n (n : nat) (stream : list bool) (acc : list value)
                : result (list value * list bool) :=
                match n with
                | O => Ok (acc, stream)
                | S n' =>
                    r1 <- unpack_new stream ;;
                    unpack_n n' r1.2 (acc ++ [r1.1])
                end) (Z.to_nat count) (drop count_width stream) [] ;;
        Ok (ArrayValue MODE_DYNAMIC max_size tao item_ctor r.1, r.2)
  | CompoundValue is_union union_field fields =>
      if is_union then
        tag_len <- union_tag_len fields ;;
        tag <- int2 (slice stream 0 tag_len) ;;
        key <- match dict_keys fields !! Z.to_nat tag with
               | Some k => Ok k
               | None => Raise IndexError
               end ;;
        r <- (fix unpack_field (l : list (string * value))
                : result (list (string * value) * list bool) :=
                match l with
                | [] => Raise KeyError
                | (k, fv) :: l' =>
                    if decide (k = key) then
                      r1 <- unpack fv (drop tag_len stream) ;;
                      Ok ((k, r1.1) :: l', r1.2)
                    else
                      r2 <- unpack_field l' ;;
                      Ok ((k, fv) :: r2.1, r2.2)
                end) fields ;;
        Ok (CompoundValue is_union (Some key) r.1, r.2)
      else
        r <- (fix unpack_fields (l : list (string * value)) (stream : list bool)
                : result (list (string * value) * list bool) :=
                match l with
                | [] => Ok ([], stream)
                | (k, fv) :: l' =>
                    r1 <- unpack fv stream ;;
                    r2 <- unpack_fields l' r1.2 ;;
                    Ok ((k, r1.1) :: r2.1, r2.2)
                end) fields stream ;;
        Ok (CompoundValue is_union union_field r.1, r.2)
  end.

(** *** The two encodings of a dynamic array

    The encoding with a length prefix, as the spec words it: the number of
    elements in a field of [log_width max_size] bits, then the elements; to
    decode, read the length field, then that many fresh elements, and hand
    back the rest of the stream. *)

Fixpoint pack_items (l : list value) : result (list bool) :=
  match l with
  | [] => Ok []
  | i :: l' => b <- pack i ;; bs <- pack_items l' ;; Ok (b ++ bs)
  end.

Definition pack_length_prefixed (max_size : nat) (items : list value)
  : result (list bool) :=
  count_width <- log_width max_size ;;
  packed <- pack_items items ;;
  Ok (format_b count_width (Z.of_nat (length items)) ++ packed).

(** [new_item = self.__item_ctor(); stream = new_item._unpack(stream)]. *)
Definition unpack_new (item_ctor : result value) (stream : list bool)
  : result (value * list bool) :=
  new_item <- item_ctor ;; unpack new_item stream.

Fixpoint unpack_count (item_ctor : result value) (n : nat) (stream : list bool)
    (acc : list value) : result (list value * list bool) :=
  match n with
  | O => Ok (acc, stream)
  | S n' =>
      r <- unpack_new item_ctor stream ;;
      unpack_count item_ctor n' r.2 (acc ++ [r.1])
  end.

Definition unpack_length_prefixed (max_size : nat) (tao : bool) (item_ctor : result value)
    (stream : list bool) : result (value * list bool) :=
  count_width <- log_width max_size ;;
  count <- int2 (slice stream 0 count_width) ;;
  r <- unpack_count item_ctor (Z.to_nat count) (drop count_width stream) [] ;;
  Ok (ArrayValue MODE_DYNAMIC max_size tao item_ctor r.1, r.2).

(** The tail-array encoding: the elements only; decoding takes elements
    until fewer than 8 bits are left and returns the empty stream. *)
Fixpoint unpack_to_end (item_ctor : result value) (fuel : nat) (stream : list bool)
    (acc : list value) : result (list value) :=
  if decide (8 <= length stream)%nat then
    match fuel with
    | O => Raise RuntimeError
    | S fuel' =>
        r <- unpack_new item_ctor stream ;;
        unpack_to_end item_ctor fuel' r.2 (acc ++ [r.1])
    end
  else Ok acc.

Definition unpack_tail_array (max_size : nat) (item_ctor : result value)
    (stream : list bool) : result (value * list bool) :=
  items <- unpack_to_end item_ctor (length stream) stream [] ;;
  Ok (ArrayValue MODE_DYNAMIC max_size true item_ctor items, []).

(** *** The loops of [_pack] and [_unpack] over items and fields

    The same loops as in [pack] and [unpack], as functions of their own. *)

(** A static array: [for i in range(max_size): stream = items[i]._unpack(stream)]. *)
Fixpoint unpack_static (l : list value) (n : nat) (stream : list bool) {struct l}
  : result (list value * list bool) :=
  match n with
  | O => Ok (l, stream)
  | S n' =>
      match l with
      | [] => Raise IndexError
      | i :: l' =>
          r1 <- unpack i stream ;;
          r2 <- unpack_static l' n' r1.2 ;;
          Ok (r1.1 :: r2.1, r2.2)
      end
  end.

(** A structure: every field in order. *)
Fixpoint pack_fields (l : list (string * value)) : result (list bool) :=
  match l with
  | [] => Ok []
  | (_, fv) :: l' => b <- pack fv ;; bs <- pack_fields l' ;; Ok (b ++ bs)
  end.

Fixpoint unpack_fields (l : list (string * value)) (stream : list bool)
  : result (list (string * value) * list bool) :=
  match l with
  | [] => Ok ([], stream)
  | (k, fv) :: l' =>
      r1 <- unpack fv stream ;;
      r2 <- unpack_fields l' r1.2 ;;
      Ok ((k, r1.1) :: r2.1, r2.2)
  end.

(** A union: [self._fields[field]], packed, or unpacked in place. *)
Fixpoint pack_field (field : string) (l : list (string * value)) : result (list bool) :=
  match l with
  | [] => Raise KeyError
  | (k, fv) :: l' => if decide (k = field) then pack fv else pack_field field l'
  end.

Fixpoint unpack_field (key : string) (stream : list bool) (l : list (string * value))
  : result (list (string * value) * list bool) :=
  match l with
  | [] => Raise KeyError
  | (k, fv) :: l' =>
      if decide (k = key) then
        r1 <- unpack fv stream ;;
        Ok ((k, r1.1) :: l', r1.2)
      else
        r2 <- unpack_field key stream l' ;;
        Ok ((k, fv) :: r2.1, r2.2)
  end.

(** *** Values that survive the wire

    [round_trips tail v0 v]: [v] packs, and unpacking the result, followed by
    any [rest], into [v0] yields [v].  Off the tail position the rest of the
    stream is handed back untouched; in tail position (nothing but the
    padding of the last byte follows) fewer than 8 bits may follow and what
    comes back after them is left open. *)
Definition round_trips (tail : bool) (v0 v : value) : Prop :=
  forall rest, (tail = true -> (length rest < 8)%nat) ->
    exists p rest',
      pack v = Ok p
      /\ unpack v0 (p ++ rest) = Ok (v, rest')
      /\ (tail = false -> rest' = rest).

(** [wire_similar tail v0 v]: [v] is a value of the same type as the
    receiving value [v0], in a state that the wire format can express:
    - a primitive holds exactly [bitlen > 0] bits;
    - a static array is full;
    - a dynamic array with a length prefix holds fewer than
      [2 ^ count_width] items, each similar to a fresh item;
    - a tail array stands in tail position and has primitive items of at
      least 8 bits;
    - of the fields of a structure only the last one is in tail position;
    - a union has an active field with a non-empty name, whose value is
      similar to the receiver's, the other fields being those of the
      receiver; its tag is wide enough for the number of fields. *)
Fixpoint wire_similar (tail : bool) (v0 v : value) {struct v0} : Prop :=
  match v0, v with
  | VoidValue n0, VoidValue n => n0 = n
  | PrimitiveValue n0 _, PrimitiveValue n bits =>
      n0 = n /\ (0 < n)%nat /\ length bits = n
  | ArrayValue mode0 max0 tao0 ctor0 items0, ArrayValue mode max tao ctor items =>
      mode0 = mode /\ max0 = max /\ tao0 = tao /\ ctor0 = ctor
      /\ match mode0 with
         | MODE_STATIC =>
             length items = max
             /\ (fix all2 (l0 l : list value) : Prop :=
                   match l0, l with
                   | [], [] => True
                   | i0 :: l0', i :: l' => wire_similar false i0 i /\ all2 l0' l'
                   | _, _ => False
                   end) items0 items
         | MODE_DYNAMIC =>
             match ctor0 with
             | Ok new_item =>
                 (fix all (l : list value) : Prop :=
                    match l with
                    | [] => True
                    | i :: l' => wire_similar false new_item i /\ all l'
                    end) items
                 /\ (tao0 = true ->
                     match new_item with
                     | PrimitiveValue n _ => (8 <= n)%nat
                     | _ => False
                     end)
             | Raise _ => items = []
             end
             /\ (if tao0 then tail = true
                 else exists count_width,
                        log_width max0 = Ok count_width
                        /\ Z.of_nat (length items) < 2 ^ Z.of_nat count_width)
         end
  | CompoundValue false union_field0 fields0, CompoundValue false union_field fields =>
      union_field0 = union_field
      /\ (fix all2 (l0 l : list (string * value)) : Prop :=
            match l0, l with
            | [], [] => True
            | (k0, f0) :: l0', (k, f) :: l' =>
                k0 = k
                /\ wire_similar (match l0' with [] => tail | _ => false end) f0 f
                /\ all2 l0' l'
            | _, _ => False
            end) fields0 fields
  | CompoundValue true _ fields0, CompoundValue true (Some (String c key)) fields =>
      (exists tag_len,
          union_tag_len fields0 = Ok tag_len
          /\ Z.of_nat (length fields0) <= 2 ^ Z.of_nat tag_len)
      /\ (fix one (l0 l : list (string * value)) : Prop :=
            match l0, l with
            | (k0, f0) :: l0', (k, f) :: l' =>
                k0 = k
                /\ if decide (k0 = String c key)
                   then wire_similar tail f0 f /\ l0' = l'
                   else f0 = f /\ one l0' l'
            | _, _ => False
            end) fields0 fields
  | _, _ => False
  end.

(** ** CRC-16

    Modelled from the spec: [uavcan.dsdl.common.crc16_from_bytes] is not part
    of the sources at hand.  The spec gives polynomial 0x1021, the data
    type's [base_crc] as the initial value, no reflection, no final XOR,
    bytes fed most significant bit first. *)

Definition crc16_shift (crc : Z) : Z :=
  if decide (Z.land crc 0x8000 = 0)
  then Z.land (Z.shiftl crc 1) 0xFFFF
  else Z.land (Z.lxor (Z.shiftl crc 1) 0x1021) 0xFFFF.

Definition crc16_add (crc byte : Z) : Z :=
  Nat.iter 8 crc16_shift (Z.lxor crc (Z.shiftl byte 8)).

Definition crc16_from_bytes (bytes : list Z) (initial : Z) : Z :=
  foldl crc16_add initial bytes.

(** ** Frames *)

(** Clock readings ([time.monotonic()], frame timestamps) are floating-point
    numbers; only their comparison against a timeout is ever used. *)
Variable Time : Type.

(** [t - last_seen > timeout]. *)
Variable timeout_exceeded : Time -> Time -> Time -> bool.

Record Frame : Type := mkFrame {
  f_message_id : Z;
  f_bytes : list Z;
  f_ts_monotonic : option Time;
  f_ts_real : option Time
}.

(** [Frame.transfer_key]: the message id and the 5-bit transfer id of the
    tail byte ([None] for a frame without data). *)
Definition transfer_key (f : Frame) : Z * option Z :=
  (f_message_id f, (fun tail => Z.land tail 0x1F) <$> last (f_bytes f)).

Definition toggle (f : Frame) : bool :=
  match last (f_bytes f) with
  | Some tail => bool_decide (Z.land tail 0x20 <> 0)
  | None => false
  end.

Definition end_of_transfer (f : Frame) : bool :=
  match last (f_bytes f) with
  | Some tail => bool_decide (Z.land tail 0x40 <> 0)
  | None => false
  end.

Definition start_of_transfer (f : Frame) : bool :=
  match last (f_bytes f) with
  | Some tail => bool_decide (Z.land tail 0x80 <> 0)
  | None => false
  end.

(** ** Transfers *)

(** [Transfer.payload] is [None], the serialised bytes ([__init__] with a
    payload) or the decoded value ([from_frames]). *)
Inductive Payload : Type :=
| PayloadNone
| PayloadBytes (b : list Z)
| PayloadValue (v : value).

Record Transfer : Type := mkTransfer {
  transfer_priority : Z;
  transfer_id : Z;
  source_node_id : Z;
  dest_node_id : option Z;
  request_not_response : bool;
  service_not_message : bool;
  discriminator : option Z;
  ts_monotonic : option Time;
  ts_real : option Time;
  payload : Payload;
  data_type_id : option Z;
  data_type_crc : option Z
}.

Definition DEFAULT_TRANSFER_PRIORITY : Z := 31.

(** [Transfer()] with the default arguments. *)
Definition Transfer_init : Transfer :=
  {| transfer_priority := DEFAULT_TRANSFER_PRIORITY;
     transfer_id := 0;
     source_node_id := 0;
     dest_node_id := None;
     request_not_response := false;
     service_not_message := false;
     discriminator := None;
     ts_monotonic := None;
     ts_real := None;
     payload := PayloadNone;
     data_type_id := None;
     data_type_crc := None |}.

(** [Transfer.__init__] with its arguments.  A payload object comes with
    its descriptor; it is serialised, padded with zero bits up to a whole
    byte and converted to bytes.  ([data_type_signature] and [is_complete],
    which nothing here reads, are not kept.)

    A [value] holds binary digits in every primitive: the strings that
    [PrimitiveValue.__init__], [_unpack] and the [value] setter on a
    boolean, a float or a non-negative integer store.  For a negative
    integer the setter stores [format(n, "0<bitlen>b")], a string with a
    minus sign; [_pack] passes it on and [bytes_from_bits] raises
    [ValueError] on it in [__init__].  An object in that state is not a
    [value], and this definition says nothing about it. *)
Definition Transfer_new (transfer_id source_node_id : Z) (dest_node_id : option Z)
    (payload : option (dtype * value)) (transfer_priority : option Z)
    (request_not_response service_not_message : bool) (discriminator : option Z)
  : result Transfer :=
  let make := fun (payload : Payload) (data_type_id data_type_crc : option Z) =>
    {| transfer_priority := default DEFAULT_TRANSFER_PRIORITY transfer_priority;
       transfer_id := transfer_id;
       source_node_id := source_node_id;
       dest_node_id := dest_node_id;
       request_not_response := request_not_response;
       service_not_message := service_not_message;
       discriminator := discriminator;
       ts_monotonic := None;
       ts_real := None;
       payload := payload;
       data_type_id := data_type_id;
       data_type_crc := data_type_crc |} in
  match payload with
  | Some (_type, obj) =>
      if truthy obj then
        payload_bits <- pack obj ;;
        bytes <- bytes_from_bits (pad_payload_bits payload_bits) ;;
        t1 <- get_uavcan_data_type _type obj ;;
        dtid <- default_dtid t1 ;;
        t2 <- get_uavcan_data_type _type obj ;;
        crc <- base_crc t2 ;;
        Ok (make (PayloadBytes bytes) (Some dtid) (Some crc))
      else Ok (make PayloadNone None None)
  | None => Ok (make PayloadNone None None)
  end.

(** An operand that is [None] where a number is needed: [TypeError]. *)
Definition number (o : option Z) : result Z :=
  match o with
  | Some z => Ok z
  | None => Raise TypeError
  end.

Definition py_assert (b : bool) : result unit :=
  if b then Ok tt else Raise AssertionError.

(** The getter of [Transfer.message_id]. *)
Definition message_id (self : Transfer) : result Z :=
  let id_ := Z.lor (Z.lor (Z.shiftl (Z.land (transfer_priority self) 0x1F) 24)
                          (Z.shiftl (Z.b2z (service_not_message self)) 7))
                   (source_node_id self) in
  if service_not_message self then
    dtid <- number (data_type_id self) ;;
    _ <- py_assert (bool_decide (0 <= dtid <= 0xFF)) ;;
    dest <- number (dest_node_id self) ;;
    _ <- py_assert (bool_decide (1 <= dest <= 0x7F)) ;;
    let id_ := Z.lor id_ (Z.shiftl dtid 16) in
    let id_ := Z.lor id_ (Z.shiftl (Z.b2z (request_not_response self)) 15) in
    Ok (Z.lor id_ (Z.shiftl dest 8))
  else if decide (source_node_id self = 0) then
    _ <- py_assert (bool_decide (dest_node_id self = None)) ;;
    _ <- py_assert (bool_decide (discriminator self <> None)) ;;
    disc <- number (discriminator self) ;;
    let id_ := Z.lor id_ (Z.shiftl disc 10) in
    dtid <- number (data_type_id self) ;;
    Ok (Z.lor id_ (Z.shiftl (Z.land dtid 0x3) 8))
  else
    dtid <- number (data_type_id self) ;;
    _ <- py_assert (bool_decide (0 <= dtid <= 0xFFFF)) ;;
    Ok (Z.lor id_ (Z.shiftl dtid 8)).

(** The setter of [Transfer.message_id]. *)
Definition set_message_id (self : Transfer) (value : Z) : Transfer :=
  let priority := Z.land (Z.shiftr value 24) 0x1F in
  let snm := bool_decide (Z.land value 0x80 <> 0) in
  let source := Z.land value 0x7F in
  let self :=
    {| transfer_priority := priority;
       transfer_id := transfer_id self;
       source_node_id := source;
       dest_node_id := dest_node_id self;
       request_not_response := request_not_response self;
       service_not_message := snm;
       discriminator := discriminator self;
       ts_monotonic := ts_monotonic self;
       ts_real := ts_real self;
       payload := payload self;
       data_type_id := data_type_id self;
       data_type_crc := data_type_crc self |} in
  if snm then
    {| transfer_priority := priority;
       transfer_id := transfer_id self;
       source_node_id := source;
       dest_node_id := Some (Z.land (Z.shiftr value 8) 0x7F);
       request_not_response := bool_decide (Z.land value 0x8000 <> 0);
       service_not_message := snm;
       discriminator := discriminator self;
       ts_monotonic := ts_monotonic self;
       ts_real := ts_real self;
       payload := payload self;
       data_type_id := Some (Z.land (Z.shiftr value 16) 0xFF);
       data_type_crc := data_type_crc self |}
  else if decide (source = 0) then
    {| transfer_priority := priority;
       transfer_id := transfer_id self;
       source_node_id := source;
       dest_node_id := dest_node_id self;
       request_not_response := request_not_response self;
       service_not_message := snm;
       discriminator := Some (Z.land (Z.shiftr value 10) 0x3FFF);
       ts_monotonic := ts_monotonic self;
       ts_real := ts_real self;
       payload := payload self;
       data_type_id := Some (Z.land (Z.shiftr value 8) 0x3);
       data_type_crc := data_type_crc self |}
  else
    {| transfer_priority := priority;
       transfer_id := transfer_id self;
       source_node_id := source;
       dest_node_id := dest_node_id self;
       request_not_response := request_not_response self;
       service_not_message := snm;
       discriminator := discriminator self;
       ts_monotonic := ts_monotonic self;
       ts_real := ts_real self;
       payload := payload self;
       data_type_id := Some (Z.land (Z.shiftr value 8) 0xFFFF);
       data_type_crc := data_type_crc self |}.

(** [Transfer.key]. *)
Definition key (self : Transfer) : result (Z * Z) :=
  mid <- message_id self ;;
  Ok (mid, transfer_id self).

(** [Transfer.is_response_to]. *)
Definition is_response_to (self transfer : Transfer) : bool :=
  service_not_message transfer && service_not_message self
  && request_not_response transfer
  && negb (request_not_response self)
  && bool_decide (dest_node_id transfer = Some (source_node_id self))
  && bool_decide (Some (source_node_id transfer) = dest_node_id self)
  && bool_decide (data_type_id transfer = data_type_id self).

(** The tail byte of [to_frames]: start-of-transfer on the first frame,
    end-of-transfer when at most 7 bytes remain, the toggle bit of the
    previous tail flipped, and the 5-bit transfer id. *)
Definition next_tail (n_out : nat) (remaining_payload : list Z) (tail tid : Z) : Z :=
  Z.lor (Z.lor (Z.lor (if decide (n_out = 0%nat) then 0x80 else 0)
                      (if decide (length remaining_payload <= 7)%nat then 0x40 else 0))
               (Z.land (Z.lxor tail 0x20) 0x20))
        (Z.land tid 0x1F).

(** The [while True] loop of [to_frames].  Every round removes 7 bytes from
    [remaining_payload] and stops when none is left, so a fuel equal to the
    length of the payload is never used up. *)
Fixpoint to_frames_loop (fuel : nat) (mid tid : Z) (n_out : nat) (tail : Z)
    (remaining_payload : list Z) : list Frame :=
  let tail := next_tail n_out remaining_payload tail tid in
  let frame := mkFrame mid (slice remaining_payload 0 7 ++ [tail]) None None in
  let remaining_payload := drop 7 remaining_payload in
  match remaining_payload, fuel with
  | [], _ => [frame]
  | _, O => [frame]
  | _, S fuel' => frame :: to_frames_loop fuel' mid tid (S n_out) tail remaining_payload
  end.

(** What [to_frames] cuts into frames: the payload, with the CRC in front
    (low byte first) when it is longer than 7 bytes. *)
Definition crc_prefixed (p : list Z) (seed : Z) : list Z :=
  if decide (7 < length p)%nat then
    let crc := crc16_from_bytes p seed in
    [Z.land crc 0xFF; Z.shiftr crc 8] ++ p
  else p.

Definition to_frames (self : Transfer) : result (list Frame) :=
  match payload self with
  | PayloadBytes p =>
      remaining_payload <-
        (if decide (7 < length p)%nat then
           seed <- number (data_type_crc self) ;; Ok (crc_prefixed p seed)
         else Ok p) ;;
      mid <- message_id self ;;
      Ok (to_frames_loop (length remaining_payload) mid (transfer_id self) 0%nat 0x20
            remaining_payload)
  | _ => Raise TypeError
  end.

(** The frame sequence in closed form: frame [i] of [n_frames] carries the
    bytes [7*i .. 7*i+6] of the (CRC-prefixed) payload and a tail byte with
    start-of-transfer on the first frame, end-of-transfer on the last, the
    toggle bit set on odd frames, and the 5-bit transfer id.  A payload
    without bytes still takes one frame. *)
Definition tail_byte (sot eot tog : bool) (tid : Z) : Z :=
  Z.lor (Z.lor (Z.lor (if sot then 0x80 else 0) (if eot then 0x40 else 0))
               (if tog then 0x20 else 0))
        (Z.land tid 0x1F).

Definition n_frames (len : nat) : nat := Nat.max 1 ((len + 6) / 7).

Definition frame_at (mid tid : Z) (q : list Z) (i : nat) : Frame :=
  mkFrame mid
    (slice q (7 * i) (7 * i + 7)
     ++ [tail_byte (bool_decide (i = 0%nat))
                   (bool_decide (S i = n_frames (length q)))
                   (Nat.odd i) tid])
    None None.

Definition frames_of (mid tid : Z) (q : list Z) : list Frame :=
  frame_at mid tid q <$> seq 0 (n_frames (length q)).

(** The registry [uavcan.DATATYPES], keyed by data-type id and kind. *)
Variable DATATYPES : gmap (Z * CompoundKind) dtype.

(** The validation loop of [from_frames]. *)
Fixpoint check_tails (n : Z) (expected_transfer_id : Z) (idx : Z) (expected_toggle : Z)
    (frames : list Frame) : result unit :=
  match frames with
  | [] => Ok tt
  | f :: rest =>
      match last (f_bytes f) with
      | None => Raise IndexError
      | Some tail =>
          if decide (Z.land tail 0x1F <> expected_transfer_id) then Raise TransferError
          else if decide (idx = 0 /\ Z.land tail 0x80 = 0) then Raise TransferError
          else if decide (idx > 0 /\ Z.land tail 0x80 <> 0) then Raise TransferError
          else if decide (idx = n - 1 /\ Z.land tail 0x40 = 0) then Raise TransferError
          else if decide (idx < n - 1 /\ Z.land tail 0x40 <> 0) then Raise TransferError
          else if decide (Z.land tail 0x20 <> expected_toggle) then Raise TransferError
          else check_tails n expected_transfer_id (idx + 1) (Z.lxor expected_toggle 0x20) rest
      end
  end.

(** [b''.join(bytes(f.bytes[0:-1]) for f in frames)]. *)
Definition join_payload (frames : list Frame) : list Z :=
  concat ((fun f => take (length (f_bytes f) - 1) (f_bytes f)) <$> frames).

(** The steps of [from_frames] up to and including the CRC check: the
    receiving transfer with its header fields set, the payload bytes and the
    type descriptor. *)
Definition from_frames_header (self : Transfer) (frames : list Frame)
  : result (Transfer * list Z * dtype) :=
  frame0 <- match frames with [] => Raise IndexError | f :: _ => Ok f end ;;
  tail0 <- match last (f_bytes frame0) with None => Raise IndexError | Some t => Ok t end ;;
  let expected_transfer_id := Z.land tail0 0x1F in
  _ <- check_tails (Z.of_nat (length frames)) expected_transfer_id 0 0 frames ;;
  let self :=
    {| transfer_priority := transfer_priority self;
       transfer_id := expected_transfer_id;
       source_node_id := source_node_id self;
       dest_node_id := dest_node_id self;
       request_not_response := request_not_response self;
       service_not_message := service_not_message self;
       discriminator := discriminator self;
       ts_monotonic := f_ts_monotonic frame0;
       ts_real := f_ts_real frame0;
       payload := payload self;
       data_type_id := data_type_id self;
       data_type_crc := data_type_crc self |} in
  let self := set_message_id self (f_message_id frame0) in
  let payload_bytes := join_payload frames in
  let kind := if service_not_message self then KIND_SERVICE else KIND_MESSAGE in
  dtid <- number (data_type_id self) ;;
  datatype <- match DATATYPES !! (dtid, kind) with
              | None => Raise TransferError
              | Some dt => Ok dt
              end ;;
  payload_bytes <-
    (if decide (1 < length frames)%nat then
       match payload_bytes with
       | b0 :: b1 :: rest =>
           let transfer_crc := b0 + Z.shiftl b1 8 in
           seed <- base_crc datatype ;;
           if decide (crc16_from_bytes rest seed <> transfer_crc)
           then Raise TransferError
           else Ok rest
       | _ => Raise IndexError
       end
     else Ok payload_bytes) ;;
  Ok (self, payload_bytes, datatype).

(** [datatype(_mode=...)] followed by [_unpack]: calling a descriptor builds
    a [CompoundValue] of it with the default [_tao=True]. *)
Definition decode_payload (datatype : dtype) (mode : option Mode) (payload_bytes : list Z)
  : result value :=
  v <- CompoundValue_init datatype mode true ;;
  r <- unpack v (bits_from_bytes payload_bytes) ;;
  Ok r.1.

Definition from_frames (self : Transfer) (frames : list Frame) : result Transfer :=
  h <- from_frames_header self frames ;;
  let self := h.1.1 in
  let payload_bytes := h.1.2 in
  let datatype := h.2 in
  dtid <- default_dtid datatype ;;
  crc <- base_crc datatype ;;
  let mode :=
    if service_not_message self
    then Some (if request_not_response self then ModeRequest else ModeResponse)
    else None in
  v <- decode_payload datatype mode payload_bytes ;;
  Ok {| transfer_priority := transfer_priority self;
        transfer_id := transfer_id self;
        source_node_id := source_node_id self;
        dest_node_id := dest_node_id self;
        request_not_response := request_not_response self;
        service_not_message := service_not_message self;
        discriminator := discriminator self;
        ts_monotonic := ts_monotonic self;
        ts_real := ts_real self;
        payload := PayloadValue v;
        data_type_id := Some dtid;
        data_type_crc := Some crc |}.

(** *** Well-formed outgoing transfers

    The registry key and the constructor mode that [from_frames] derives
    from a transfer, and the ranges of the fields that the 29-bit identifier
    has room for: priority and transfer id 0..31, source node 0..127; for a
    service a data-type id 0..255 and a destination 1..127; for an anonymous
    message (source node 0) no destination, a 14-bit discriminator and a
    data-type id 0..3 (the identifier carries its two low bits only);
    for any other message a data-type id 0..65535. *)
Definition kind_of (self : Transfer) : CompoundKind :=
  if service_not_message self then KIND_SERVICE else KIND_MESSAGE.

Definition mode_of (self : Transfer) : option Mode :=
  if service_not_message self
  then Some (if request_not_response self then ModeRequest else ModeResponse)
  else None.

Definition well_formed (self : Transfer) : bool :=
  bool_decide (0 <= transfer_priority self <= 31)
  && bool_decide (0 <= transfer_id self <= 31)
  && bool_decide (0 <= source_node_id self <= 127)
  && match data_type_id self with
     | None => false
     | Some dtid =>
         if service_not_message self then
           bool_decide (0 <= dtid <= 0xFF)
           && match dest_node_id self with
              | Some dest => bool_decide (1 <= dest <= 0x7F)
              | None => false
              end
         else if decide (source_node_id self = 0) then
           bool_decide (dest_node_id self = None)
           && bool_decide (0 <= dtid <= 3)
           && match discriminator self with
              | Some disc => bool_decide (0 <= disc <= 0x3FFF)
              | None => false
              end
         else bool_decide (0 <= dtid <= 0xFFFF)
     end.

(** What the identifier of a well-formed transfer carries over to the
    transfer that receives it. *)
Definition same_header (sent self received : Transfer) : Prop :=
  transfer_priority received = transfer_priority sent
  /\ service_not_message received = service_not_message sent
  /\ source_node_id received = source_node_id sent
  /\ data_type_id received = data_type_id sent
  /\ (service_not_message sent = true ->
      dest_node_id received = dest_node_id sent
      /\ request_not_response received = request_not_response sent)
  /\ (service_not_message sent = false -> source_node_id sent = 0 ->
      discriminator received = discriminator sent)
  /\ transfer_id received = transfer_id self
  /\ ts_monotonic received = ts_monotonic self
  /\ ts_real received = ts_real self
  /\ payload received = payload self
  /\ data_type_crc received = data_type_crc self.

(** *** What [from_frames] rejects, in the spec's words

    Frame [idx] of [n] breaks the tail-byte discipline when its 5-bit
    transfer id differs from that of frame 0, when it is frame 0 without
    start-of-transfer or a later frame with it, when it is the last frame
    without end-of-transfer or an earlier frame with it, or when its toggle
    bit is not the parity of [idx].  The flags are those of the [Frame]
    properties. *)
Definition frame_violates (n : nat) (tid0 : option Z) (idx : nat) (f : Frame) : bool :=
  negb (bool_decide ((transfer_key f).2 = tid0))
  || (bool_decide (idx = 0%nat) && negb (start_of_transfer f))
  || (bool_decide (0 < idx)%nat && start_of_transfer f)
  || (bool_decide (S idx = n) && negb (end_of_transfer f))
  || (bool_decide (S idx < n)%nat && end_of_transfer f)
  || negb (bool_decide (toggle f = Nat.odd idx)).

Definition frame0_tid (frames : list Frame) : option Z :=
  f ← head frames; (transfer_key f).2.

Definition tail_discipline_violated (frames : list Frame) : Prop :=
  exists idx f, frames !! idx = Some f
                /\ frame_violates (length frames) (frame0_tid frames) idx f = true.

(** The registry key that the identifier of frame 0 decodes to. *)
Definition registry_key (frames : list Frame) : option (Z * CompoundKind) :=
  f ← head frames;
  let t := set_message_id Transfer_init (f_message_id f) in
  dtid ← data_type_id t;
  Some (dtid, kind_of t).

Definition unregistered (frames : list Frame) : Prop :=
  exists key, registry_key frames = Some key /\ DATATYPES !! key = None.

(** Multi-frame only: the CRC-16 of the payload behind the 2-byte header,
    seeded by the registered type, differs from the header. *)
Definition crc_mismatch (frames : list Frame) : Prop :=
  (1 < length frames)%nat
  /\ exists key dt seed b0 b1 rest,
       registry_key frames = Some key
       /\ DATATYPES !! key = Some dt
       /\ base_crc dt = Ok seed
       /\ join_payload frames = b0 :: b1 :: rest
       /\ crc16_from_bytes rest seed <> b0 + Z.shiftl b1 8.

(** The violations among the frames from index [idx] on. *)
Fixpoint violations (n : nat) (tid0 : option Z) (idx : nat) (frames : list Frame) : bool :=
  match frames with
  | [] => false
  | f :: rest => frame_violates n tid0 idx f || violations n tid0 (S idx) rest
  end.

(** ** The reassembly table *)

Record TransferManager : Type := mkTransferManager {
  active_transfers : list ((Z * option Z) * list Frame);
  active_transfer_timestamps : list ((Z * option Z) * Time)
}.

Definition TransferManager_init : TransferManager :=
  {| active_transfers := []; active_transfer_timestamps := [] |}.

(** [receive_frame]; [now] is the reading of [time.monotonic()].  The bucket
    map is a [defaultdict(list)]: appending to a missing key creates the
    bucket first. *)
Definition receive_frame (now : Time) (frame : Frame) (self : TransferManager)
  : option (list Frame) * TransferManager :=
  let key := transfer_key frame in
  if dict_has key (active_transfers self) || start_of_transfer frame then
    let bucket := default [] (dict_get key (active_transfers self)) ++ [frame] in
    let transfers := dict_set key bucket (active_transfers self) in
    let timestamps := dict_set key now (active_transfer_timestamps self) in
    if end_of_transfer frame then
      (Some bucket,
       {| active_transfers := dict_del key transfers;
          active_transfer_timestamps := dict_del key timestamps |})
    else
      (None,
       {| active_transfers := transfers; active_transfer_timestamps := timestamps |})
  else (None, self).

(** The loop of [remove_inactive_transfers] over the keys of the bucket map.
    Under Python 2 [keys()] is a list made before the loop ([live_view] is
    [false]).  Under Python 3 it is a view of the dictionary: the step after
    the first deletion raises [RuntimeError] (dictionary changed size during
    iteration), with that one bucket already removed. *)
Fixpoint sweep (live_view : bool) (t timeout : Time) (transfer_keys : list (Z * option Z))
    (self : TransferManager) : result unit * TransferManager :=
  match transfer_keys with
  | [] => (Ok tt, self)
  | key :: rest =>
      match dict_get key (active_transfer_timestamps self) with
      | None => (Raise KeyError, self)
      | Some seen =>
          if timeout_exceeded t seen timeout then
            let self' :=
              {| active_transfers := dict_del key (active_transfers self);
                 active_transfer_timestamps :=
                   dict_del key (active_transfer_timestamps self) |} in
            if live_view then (Raise RuntimeError, self')
            else sweep live_view t timeout rest self'
          else sweep live_view t timeout rest self
      end
  end.

Definition remove_inactive_transfers (live_view : bool) (t timeout : Time)
    (self : TransferManager) : result unit * TransferManager :=
  sweep live_view t timeout (dict_keys (active_transfers self)) self.

(** The states a manager can be in: the initial one, and what any call of
    the two methods leaves behind (whether or not the call raised). *)
Inductive reachable : TransferManager -> Prop :=
| reachable_init : reachable TransferManager_init
| reachable_receive now frame self :
    reachable self -> reachable (receive_frame now frame self).2
| reachable_sweep live_view t timeout self :
    reachable self -> reachable (remove_inactive_transfers live_view t timeout self).2.

(** The two maps of the manager hold the same keys, in the same order. *)
Definition keys_agree (self : TransferManager) : Prop :=
  dict_keys (active_transfers self) = dict_keys (active_transfer_timestamps self).

(** Frames arriving one after the other, each at its own clock reading: the
    results of the calls of [receive_frame], and the manager they leave. *)
Fixpoint receive_frames (arrivals : list (Time * Frame)) (self : TransferManager)
  : list (option (list Frame)) * TransferManager :=
  match arrivals with
  | [] => ([], self)
  | (now, frame) :: rest =>
      let r := receive_frame now frame self in
      let rs := receive_frames rest r.2 in
      (r.1 :: rs.1, rs.2)
  end.

(** The transfer of [key] was last seen more than [timeout] before [t]. *)
Definition timed_out (t timeout : Time) (self : TransferManager) (key : Z * option Z)
  : bool :=
  match dict_get key (active_transfer_timestamps self) with
  | Some seen => timeout_exceeded t seen timeout
  | None => false
  end.

(** ** pyuavcan/transport/can/_can.py *)

(** The masks [MessageCANID.SUBJECT_ID_MASK], [ServiceCANID.SERVICE_ID_MASK]
    and [CANID.NODE_ID_MASK] are constants of the module [_can_id], which is
    not part of the sources at hand (the spec gives 0x7F for the node-id
    mask). *)
Variables SUBJECT_ID_MASK SERVICE_ID_MASK NODE_ID_MASK : Z.

Definition _NUM_SUBJECTS : Z := SUBJECT_ID_MASK + 1.
Definition _NUM_SERVICES : Z := SERVICE_ID_MASK + 1.
Definition _NUM_NODE_IDS : Z := NODE_ID_MASK + 1.

Definition _INPUT_DISPATCH_TABLE_SIZE : Z :=
  (_NUM_SUBJECTS + _NUM_SERVICES * 2) * (_NUM_NODE_IDS + 1).

Inductive Role : Type := CLIENT | SERVER.

Inductive DataSpecifier : Type :=
| MessageDataSpecifier (subject_id : Z)
| ServiceDataSpecifier (service_id : Z) (role : Role).

Definition _compute_input_dispatch_table_index (data_specifier : DataSpecifier)
    (source_node_id : option Z) : result Z :=
  _ <- py_assert (match source_node_id with
                  | None => true
                  | Some n => bool_decide (n < _NUM_NODE_IDS)
                  end) ;;
  let dim1 :=
    match data_specifier with
    | MessageDataSpecifier subject_id => subject_id
    | ServiceDataSpecifier service_id CLIENT => service_id + _NUM_SUBJECTS
    | ServiceDataSpecifier service_id SERVER => service_id + _NUM_SUBJECTS + _NUM_SERVICES
    end in
  let dim2_cardinality := _NUM_NODE_IDS + 1 in
  let dim2 := match source_node_id with Some n => n | None => _NUM_NODE_IDS end in
  let point := dim1 * dim2_cardinality + dim2 in
  _ <- py_assert (bool_decide (0 <= point < _INPUT_DISPATCH_TABLE_SIZE)) ;;
  Ok point.

(** The inputs the transport passes to the index function. *)
Definition legal_data_specifier (ds : DataSpecifier) : Prop :=
  match ds with
  | MessageDataSpecifier subject_id => 0 <= subject_id <= SUBJECT_ID_MASK
  | ServiceDataSpecifier service_id _ => 0 <= service_id <= SERVICE_ID_MASK
  end.

Definition legal_source (source_node_id : option Z) : Prop :=
  match source_node_id with
  | None => True
  | Some n => 0 <= n < _NUM_NODE_IDS
  end.

(** The enumeration of the module's unit test: every node id and [None],
    every subject, every service in both roles. *)
Definition all_data_specifiers : list DataSpecifier :=
  (MessageDataSpecifier <$> seqZ 0 _NUM_SUBJECTS)
  ++ ((fun s => ServiceDataSpecifier s CLIENT) <$> seqZ 0 _NUM_SERVICES)
  ++ ((fun s => ServiceDataSpecifier s SERVER) <$> seqZ 0 _NUM_SERVICES).

Definition all_sources : list (option Z) :=
  (Some <$> seqZ 0 _NUM_NODE_IDS) ++ [None].

Definition all_inputs : list (DataSpecifier * option Z) :=
  ds ← all_data_specifiers; src ← all_sources; [(ds, src)].

(** The index of an input, [-1] standing for a failed assertion. *)
Definition index_or_minus_one (x : DataSpecifier * option Z) : Z :=
  match _compute_input_dispatch_table_index x.1 x.2 with
  | Ok p => p
  | Raise _ => -1
  end.

(** *** CAN identifiers

    Modelled from the spec: the classes of [_can_id] are not part of the
    sources at hand.  Parsing yields a message, an anonymous message or a
    service identifier; a message maps to the data specifier of its subject,
    a service to the specifier of its service id, which an input takes in the
    role of the server for a request and of the client for a response. *)
Inductive CANID : Type :=
| MessageCANID (priority subject_id source_node_id : Z)
| AnonymousMessageCANID (priority discriminator data_type_id_low : Z)
| ServiceCANID (priority service_id : Z) (request_not_response : bool)
    (destination_node_id source_node_id : Z).

Definition to_input_data_specifier (can_id : CANID) : DataSpecifier :=
  match can_id with
  | MessageCANID _ subject_id _ => MessageDataSpecifier subject_id
  | AnonymousMessageCANID _ _ data_type_id_low => MessageDataSpecifier data_type_id_low
  | ServiceCANID _ service_id request_not_response _ _ =>
      ServiceDataSpecifier service_id (if request_not_response then SERVER else CLIENT)
  end.

(** The source node of a message or service identifier. *)
Definition can_id_source (can_id : CANID) : option Z :=
  match can_id with
  | MessageCANID _ _ source_node_id => Some source_node_id
  | ServiceCANID _ _ _ _ source_node_id => Some source_node_id
  | AnonymousMessageCANID _ _ _ => None
  end.

(** A parsed message or service identifier: its fields lie within their
    masks. *)
Definition parsed_message_or_service (can_id : CANID) : Prop :=
  match can_id with
  | MessageCANID _ subject_id source_node_id =>
      0 <= subject_id <= SUBJECT_ID_MASK /\ 0 <= source_node_id <= NODE_ID_MASK
  | ServiceCANID _ service_id _ _ source_node_id =>
      0 <= service_id <= SERVICE_ID_MASK /\ 0 <= source_node_id <= NODE_ID_MASK
  | AnonymousMessageCANID _ _ _ => False
  end.

(** The two coordinates of the index function. *)
Definition dim1_of (ds : DataSpecifier) : Z :=
  match ds with
  | MessageDataSpecifier subject_id => subject_id
  | ServiceDataSpecifier service_id CLIENT => service_id + _NUM_SUBJECTS
  | ServiceDataSpecifier service_id SERVER => service_id + _NUM_SUBJECTS + _NUM_SERVICES
  end.

Definition dim2_of (source_node_id : option Z) : Z :=
  match source_node_id with Some n => n | None => _NUM_NODE_IDS end.

(** *** The transport *)

(** The media driver and the sessions are external collaborators: a media
    is an opaque state whose operations may fail, a session and a received
    frame are opaque objects. *)
Variable Media : Type.
Variable enable_automatic_retransmission : Media -> result unit * Media.
Variable InputSession : Type.
Variable UAVCANFrame : Type.

(** [frame.loopback]: whether the media reports the frame as the echo of a
    frame that this node sent. *)
Variable loopback : UAVCANFrame -> bool.

Record CANTransport : Type := mkCANTransport {
  _media : Media;
  _local_node_id : option Z;
  _input_dispatch_table : list (option InputSession)
}.

Definition CANTransport_init (media : Media) : CANTransport :=
  {| _media := media;
     _local_node_id := None;
     _input_dispatch_table :=
       replicate (Z.to_nat (_INPUT_DISPATCH_TABLE_SIZE + 1)) None |}.

Definition local_node_id (self : CANTransport) : option Z := _local_node_id self.

(** [set_local_node_id]: the outcome of the call and the transport it leaves
    behind.  [_reconfigure_acceptance_filters] does nothing. *)
Definition set_local_node_id (node_id : Z) (self : CANTransport)
  : result unit * CANTransport :=
  match _local_node_id self with
  | None =>
      if decide (0 <= node_id <= NODE_ID_MASK) then
        let r := enable_automatic_retransmission (_media self) in
        (r.1,
         {| _media := r.2;
            _local_node_id := Some node_id;
            _input_dispatch_table := _input_dispatch_table self |})
      else (Raise ValueError, self)
  | Some _ => (Raise InvalidTransportConfigurationError, self)
  end.

(** [self._input_dispatch_table[index]] for [index >= 0]. *)
Definition table_get (table : list (option InputSession)) (index : Z)
  : result (option InputSession) :=
  match table !! Z.to_nat index with
  | Some slot => Ok slot
  | None => Raise IndexError
  end.

(** [_get_input]: [new_session] is the session the factory builds when the
    slot is empty.  Returns the session of the slot and the transport. *)
Definition _get_input (data_specifier : DataSpecifier) (source_node_id : option Z)
    (new_session : InputSession) (self : CANTransport)
  : result (InputSession * CANTransport) :=
  index <- _compute_input_dispatch_table_index data_specifier source_node_id ;;
  slot <- table_get (_input_dispatch_table self) index ;;
  match slot with
  | Some session => Ok (session, self)
  | None =>
      Ok (new_session,
          {| _media := _media self;
             _local_node_id := _local_node_id self;
             _input_dispatch_table :=
               <[Z.to_nat index := Some new_session]> (_input_dispatch_table self) |})
  end.

(** The loop of [_handle_received_frame] over the node ids to look up: the
    calls [session.push_frame(can_id, frame)] it makes, as a list of the
    sessions called. *)
Fixpoint push_loop (can_id : CANID) (frame : UAVCANFrame) (self : CANTransport)
    (data_spec : DataSpecifier) (nids : list (option Z))
  : result (list (InputSession * CANID * UAVCANFrame)) :=
  match nids with
  | [] => Ok []
  | nid :: rest =>
      index <- _compute_input_dispatch_table_index data_spec nid ;;
      slot <- table_get (_input_dispatch_table self) index ;;
      calls <- push_loop can_id frame self data_spec rest ;;
      Ok (match slot with
          | Some session => (session, can_id, frame) :: calls
          | None => calls
          end)
  end.

(** [_handle_received_frame].  It starts with [assert not frame.loopback].
    The loop runs over the set [{exact_source_node_id, None}], whose order
    Python leaves open: the exact source is visited first here, and the
    statements about the result do not depend on the order. *)
Definition _handle_received_frame (can_id : CANID) (frame : UAVCANFrame)
    (self : CANTransport) : result (list (InputSession * CANID * UAVCANFrame)) :=
  _ <- py_assert (negb (loopback frame)) ;;
  let data_spec := to_input_data_specifier can_id in
  exact_source_node_id <-
    match can_id with
    | ServiceCANID _ _ _ _ source_node_id => Ok (Some source_node_id)
    | MessageCANID _ _ source_node_id => Ok (Some source_node_id)
    | AnonymousMessageCANID _ _ _ => Raise AssertionError
    end ;;
  push_loop can_id frame self data_spec [exact_source_node_id; None].

(** The finalizer that [_get_input] hands to the factory of a session:
    [self._input_dispatch_table[index] = None], for the [index] computed by
    that call. *)
Definition _get_input_finalizer (index : Z) (self : CANTransport) : result CANTransport :=
  match _input_dispatch_table self !! Z.to_nat index with
  | Some _ =>
      Ok {| _media := _media self;
            _local_node_id := _local_node_id self;
            _input_dispatch_table :=
              <[Z.to_nat index := None]> (_input_dispatch_table self) |}
  | None => Raise IndexError
  end.

(** The transports that the methods above can produce. *)
Inductive transport_reachable : CANTransport -> Prop :=
| transport_reachable_init media : transport_reachable (CANTransport_init media)
| transport_reachable_node_id node_id self :
    transport_reachable self ->
    transport_reachable (set_local_node_id node_id self).2
| transport_reachable_get_input data_specifier source_node_id new_session self session self' :
    transport_reachable self ->
    _get_input data_specifier source_node_id new_session self = Ok (session, self') ->
    transport_reachable self'
| transport_reachable_finalizer data_specifier source_node_id index self self' :
    transport_reachable self ->
    _compute_input_dispatch_table_index data_specifier source_node_id = Ok index ->
    _get_input_finalizer index self = Ok self' ->
    transport_reachable self'.

(** *** The output registry

    [_get_output], its finalizer and [_handle_loopback_frame] work on
    [self._output_registry] alone, a dictionary from a data specifier and a
    destination node ([None] for broadcast) to the output session; the
    registry is passed in and handed back. *)
Variable OutputSession : Type.

#[local] Instance Role_eq_dec : EqDecision Role.
Proof. solve_decision. Defined.

#[local] Instance DataSpecifier_eq_dec : EqDecision DataSpecifier.
Proof. solve_decision. Defined.

(** [_get_output]: [new_session] is what the factory builds when the key is
    missing. *)
Definition _get_output (data_specifier : DataSpecifier) (destination_node_id : option Z)
    (new_session : OutputSession)
    (_output_registry : list ((DataSpecifier * option Z) * OutputSession))
  : OutputSession * list ((DataSpecifier * option Z) * OutputSession) :=
  let key := (data_specifier, destination_node_id) in
  match dict_get key _output_registry with
  | Some session => (session, _output_registry)
  | None => (new_session, dict_set key new_session _output_registry)
  end.

(** The finalizer of an output session: [del self._output_registry[key]],
    a missing key being ignored. *)
Definition _get_output_finalizer (data_specifier : DataSpecifier)
    (destination_node_id : option Z)
    (_output_registry : list ((DataSpecifier * option Z) * OutputSession))
  : list ((DataSpecifier * option Z) * OutputSession) :=
  let key := (data_specifier, destination_node_id) in
  match dict_get key _output_registry with
  | Some _ => dict_del key _output_registry
  | None => _output_registry
  end.

(** Modelled from the spec: [to_output_data_specifier] belongs to [_can_id].
    The sender of a request is the client, the sender of a response the
    server (the spec has the output specifier derived symmetrically to the
    input one). *)
Definition to_output_data_specifier (can_id : CANID) : DataSpecifier :=
  match can_id with
  | MessageCANID _ subject_id _ => MessageDataSpecifier subject_id
  | AnonymousMessageCANID _ _ data_type_id_low => MessageDataSpecifier data_type_id_low
  | ServiceCANID _ service_id request_not_response _ _ =>
      ServiceDataSpecifier service_id (if request_not_response then CLIENT else SERVER)
  end.

(** [_handle_loopback_frame]: the calls [session.handle_loopback_frame(frame)]
    it makes; a missing session is logged and otherwise ignored. *)
Definition _handle_loopback_frame (can_id : CANID) (frame : UAVCANFrame)
    (_output_registry : list ((DataSpecifier * option Z) * OutputSession))
  : result (list (OutputSession * UAVCANFrame)) :=
  _ <- py_assert (loopback frame) ;;
  let data_spec := to_output_data_specifier can_id in
  let dest_nid :=
    match can_id with
    | ServiceCANID _ _ _ destination_node_id _ => Some destination_node_id
    | _ => None
    end in
  match dict_get (data_spec, dest_nid) _output_registry with
  | Some session => Ok [(session, frame)]
  | None => Ok []
  end.

(** * Properties *)

(** ** The bit-stream codec *)

Lemma mapM_total {A B} (f : A -> result B) (g : A -> B) (l : list A) :
  (forall x, x ∈ l -> f x = Ok (g x)) -> mapM f l = Ok (g <$> l).
Proof.
  induction l as [|a l IH]; intros Hf; simpl; [done|].
  rewrite (Hf a) by left.
  rewrite IH; [done|].
  intros x Hx. apply Hf. by right.
Qed.

Lemma range_step_lt (stop i : nat) : i ∈ range_step stop 8 -> (i < stop)%nat.
Proof.
  unfold range_step. intros [k [-> Hk]]%list_elem_of_fmap.
  apply elem_of_seq in Hk as [_ Hk].
  pose proof (Nat.Div0.mul_div_le (stop + 8 - 1) 8). lia.
Qed.

Lemma slice_nonempty {A} (s : list A) (i : nat) :
  (i < length s)%nat -> slice s i (i + 8) <> [].
Proof.
  intros Hi Hnil. apply (f_equal length) in Hnil.
  unfold slice in Hnil. rewrite length_take, length_drop in Hnil. simpl in Hnil. lia.
Qed.

Lemma bytes_from_bits_total (s : list bool) :
  bytes_from_bits s = Ok (bytes_msb_first s).
Proof.
  unfold bytes_from_bits, bytes_msb_first. apply mapM_total.
  intros i Hi%range_step_lt. unfold int2.
  destruct (slice s i (i + 8)) eqn:E; [|done].
  by apply slice_nonempty in E.
Qed.

Lemma pad_payload_bits_zero_padded (s : list bool) :
  pad_payload_bits s = zero_padded s.
Proof.
  unfold pad_payload_bits, zero_padded.
  change 7 with (Z.ones 3). rewrite Z.land_ones by lia.
  change (2 ^ 3) with (Z.of_nat 8). rewrite <- Nat2Z.inj_mod.
  pose proof (Nat.mod_upper_bound (length s) 8 ltac:(lia)) as Hlt.
  destruct (decide (Z.of_nat (length s `mod` 8) = 0)) as [Hz|Hnz].
  - replace (length s `mod` 8)%nat with 0%nat by lia. simpl. by rewrite app_nil_r.
  - f_equal. f_equal.
    rewrite (Nat.mod_small (8 - length s `mod` 8) 8) by lia. lia.
Qed.

(** C5, as the code has it: [bytes_from_bits] never raises and adds no
    padding; it reads the string in consecutive 8-bit chunks, each as a
    binary numeral written most significant bit first, so that a last chunk
    of fewer than 8 bits gives the number its bits spell.  The padding of
    the tail with zero bits up to a byte boundary is the caller's
    ([Transfer.__init__]), and on a string padded that way the result is the
    byte sequence of the zero-padded string. *)
Theorem bytes_from_bits_no_padding (s : list bool) :
  bytes_from_bits s = Ok (bytes_msb_first s)
  /\ pad_payload_bits s = zero_padded s
  /\ bytes_from_bits (pad_payload_bits s) = Ok (bytes_of_zero_padded s).
Proof.
  split; [apply bytes_from_bits_total|].
  split; [apply pad_payload_bits_zero_padded|].
  rewrite pad_payload_bits_zero_padded. apply bytes_from_bits_total.
Qed.

(** ** Arrays and tail-array optimisation *)

Lemma pack_items_eq (items : list value) :
  (fix pack_items (l : list value) : result (list bool) :=
     match l with
     | [] => Ok []
     | i :: l' => b <- pack i ;; bs <- pack_items l' ;; Ok (b ++ bs)
     end) items = pack_items items.
Proof. induction items as [|i l IH]; simpl; [done|]. by rewrite IH. Qed.

Lemma unpack_count_eq (item_ctor : result value) (n : nat) :
  forall stream acc,
    (fix unpack_n (n : nat) (stream : list bool) (acc : list value)
       : result (list value * list bool) :=
       match n with
       | O => Ok (acc, stream)
       | S n' =>
           r1 <- (new_item <- item_ctor ;; unpack new_item stream) ;;
           unpack_n n' r1.2 (acc ++ [r1.1])
       end) n stream acc = unpack_count item_ctor n stream acc.
Proof.
  induction n as [|n IH]; intros stream acc; simpl; [done|].
  unfold unpack_new. destruct item_ctor as [new_item|e]; [|done].
  destruct (unpack new_item stream) as [r|e]; [|done]. apply IH.
Qed.

Lemma unpack_to_end_eq (item_ctor : result value) (fuel : nat) :
  forall stream acc,
    (fix loop (fuel : nat) (stream : list bool) (acc : list value)
       : result (list value) :=
       if decide (8 <= length stream)%nat then
         match fuel with
         | O => Raise RuntimeError
         | S fuel' =>
             r <- (new_item <- item_ctor ;; unpack new_item stream) ;;
             loop fuel' r.2 (acc ++ [r.1])
         end
       else Ok acc) fuel stream acc = unpack_to_end item_ctor fuel stream acc.
Proof.
  induction fuel as [|fuel IH]; intros stream acc; simpl; [done|].
  destruct (decide (8 <= length stream)%nat); [|done].
  unfold unpack_new. destruct item_ctor as [new_item|e]; [|done].
  destruct (unpack new_item stream) as [r|e]; [|done]. apply IH.
Qed.

Lemma pack_dynamic (max_size : nat) (tao : bool) item_ctor items :
  pack (ArrayValue MODE_DYNAMIC max_size tao item_ctor items)
  = if tao then pack_items items else pack_length_prefixed max_size items.
Proof.
  simpl. rewrite pack_items_eq. destruct tao; [done|].
  unfold pack_length_prefixed. done.
Qed.

Lemma unpack_dynamic (max_size : nat) (tao : bool) item_ctor items stream :
  unpack (ArrayValue MODE_DYNAMIC max_size tao item_ctor items) stream
  = if tao then unpack_tail_array max_size item_ctor stream
    else unpack_length_prefixed max_size false item_ctor stream.
Proof.
  simpl. destruct tao.
  - rewrite unpack_to_end_eq. done.
  - unfold unpack_length_prefixed.
    destruct (log_width max_size) as [cw|e]; [|done].
    destruct (int2 (slice stream 0 cw)) as [count|e]; [|done].
    by rewrite unpack_count_eq.
Qed.

Lemma ArrayValue_init_dynamic (value_type : dtype) (max_size : nat) (_tao : bool) :
  ArrayValue_init (ArrayType value_type MODE_DYNAMIC max_size) _tao
  = Ok (ArrayValue MODE_DYNAMIC max_size
          (if decide (8 <= value_bitlen value_type)%nat then _tao else false)
          (item_ctor_of value_type) []).
Proof. destruct value_type; reflexivity. Qed.

(** C8: for an array whose element type is less than 8 bits wide (a 1-bit
    element included), the constructor ignores the TAO flag it is given: the
    array it builds is the one built with the flag off.  A dynamic array of
    such elements, whatever its items, packs as the length prefix followed
    by the elements, and unpacks by reading the prefix and that many
    elements, handing back the rest of the stream. *)
Theorem small_elements_disable_tao (value_type : dtype) (max_size : nat) (_tao : bool)
    (items : list value) (stream : list bool) :
  (value_bitlen value_type < 8)%nat ->
  (forall mode,
     ArrayValue_init (ArrayType value_type mode max_size) _tao
     = ArrayValue_init (ArrayType value_type mode max_size) false)
  /\ exists item_ctor,
       ArrayValue_init (ArrayType value_type MODE_DYNAMIC max_size) _tao
       = Ok (ArrayValue MODE_DYNAMIC max_size false item_ctor [])
       /\ pack (ArrayValue MODE_DYNAMIC max_size false item_ctor items)
          = pack_length_prefixed max_size items
       /\ unpack (ArrayValue MODE_DYNAMIC max_size false item_ctor items) stream
          = unpack_length_prefixed max_size false item_ctor stream.
Proof.
  intros Hsmall. split.
  - intros mode. destruct value_type; simpl in *;
      rewrite ?decide_False by lia; reflexivity.
  - exists (item_ctor_of value_type). split_and!.
    + rewrite ArrayValue_init_dynamic. by rewrite decide_False by lia.
    + apply pack_dynamic.
    + apply unpack_dynamic.
Qed.

(** For comparison: with elements of 8 bits or more the flag is kept, and a
    dynamic array built with the flag on packs without a length prefix and
    unpacks to the end of the stream. *)
Lemma wide_elements_keep_tao (value_type : dtype) (max_size : nat)
    (items : list value) (stream : list bool) :
  (8 <= value_bitlen value_type)%nat ->
  exists item_ctor,
    ArrayValue_init (ArrayType value_type MODE_DYNAMIC max_size) true
    = Ok (ArrayValue MODE_DYNAMIC max_size true item_ctor [])
    /\ pack (ArrayValue MODE_DYNAMIC max_size true item_ctor items) = pack_items items
    /\ unpack (ArrayValue MODE_DYNAMIC max_size true item_ctor items) stream
       = unpack_tail_array max_size item_ctor stream.
Proof.
  intros Hwide. exists (item_ctor_of value_type). split_and!.
  - rewrite ArrayValue_init_dynamic. by rewrite decide_True by lia.
  - apply pack_dynamic.
  - apply unpack_dynamic.
Qed.

(** ** Frames of an outgoing transfer *)

Lemma land_tail_byte_1F sot eot tog tid :
  Z.land (tail_byte sot eot tog tid) 0x1F = Z.land tid 0x1F.
Proof.
  unfold tail_byte. rewrite !Z.land_lor_distr_l, <- Z.land_assoc.
  destruct sot, eot, tog; reflexivity.
Qed.

Lemma land_tail_byte_20 sot eot tog tid :
  Z.land (tail_byte sot eot tog tid) 0x20 = if tog then 0x20 else 0.
Proof.
  unfold tail_byte. rewrite !Z.land_lor_distr_l, <- Z.land_assoc.
  change (Z.land 31 32) with 0. rewrite Z.land_0_r.
  destruct sot, eot, tog; reflexivity.
Qed.

Lemma land_tail_byte_40 sot eot tog tid :
  Z.land (tail_byte sot eot tog tid) 0x40 = if eot then 0x40 else 0.
Proof.
  unfold tail_byte. rewrite !Z.land_lor_distr_l, <- Z.land_assoc.
  change (Z.land 31 64) with 0. rewrite Z.land_0_r.
  destruct sot, eot, tog; reflexivity.
Qed.

Lemma land_tail_byte_80 sot eot tog tid :
  Z.land (tail_byte sot eot tog tid) 0x80 = if sot then 0x80 else 0.
Proof.
  unfold tail_byte. rewrite !Z.land_lor_distr_l, <- Z.land_assoc.
  change (Z.land 31 128) with 0. rewrite Z.land_0_r.
  destruct sot, eot, tog; reflexivity.
Qed.

Lemma land_lxor_distr (a b c : Z) :
  Z.land (Z.lxor a b) c = Z.lxor (Z.land a c) (Z.land b c).
Proof.
  apply Z.bits_inj'. intros n _.
  rewrite Z.land_spec, !Z.lxor_spec, !Z.land_spec.
  by destruct (Z.testbit a n), (Z.testbit b n), (Z.testbit c n).
Qed.

Lemma next_tail_eq (n_out : nat) (remaining_payload : list Z) (tail tid : Z) :
  Z.land tail 0x20 = (if Nat.even n_out then 0x20 else 0) ->
  next_tail n_out remaining_payload tail tid
  = tail_byte (bool_decide (n_out = 0%nat))
              (bool_decide (length remaining_payload <= 7)%nat)
              (Nat.odd n_out) tid.
Proof.
  intros Htog. unfold next_tail, tail_byte.
  rewrite land_lxor_distr, Htog. rewrite <- Nat.negb_even.
  repeat case_decide; repeat case_bool_decide; try lia;
    destruct (Nat.even n_out); reflexivity.
Qed.

Lemma n_frames_short (len : nat) : (len <= 7)%nat -> n_frames len = 1%nat.
Proof.
  unfold n_frames. intros.
  pose proof (Nat.div_mod_eq (len + 6) 7).
  pose proof (Nat.mod_upper_bound (len + 6) 7 ltac:(lia)). lia.
Qed.

Lemma n_frames_long (len : nat) :
  (7 < len)%nat -> n_frames len = S (n_frames (len - 7)).
Proof.
  unfold n_frames. intros.
  pose proof (Nat.div_mod_eq (len + 6) 7).
  pose proof (Nat.mod_upper_bound (len + 6) 7 ltac:(lia)).
  pose proof (Nat.div_mod_eq (len - 7 + 6) 7).
  pose proof (Nat.mod_upper_bound (len - 7 + 6) 7 ltac:(lia)). lia.
Qed.

Lemma to_frames_loop_closed_form (mid tid : Z) (fuel : nat) :
  forall (remaining_payload : list Z) (n_out : nat) (tail : Z),
    (length remaining_payload <= fuel)%nat ->
    Z.land tail 0x20 = (if Nat.even n_out then 0x20 else 0) ->
    to_frames_loop fuel mid tid n_out tail remaining_payload
    = (fun j =>
         mkFrame mid
           (slice remaining_payload (7 * j) (7 * j + 7)
            ++ [tail_byte (bool_decide (n_out + j = 0)%nat)
                          (bool_decide (S j = n_frames (length remaining_payload)))
                          (Nat.odd (n_out + j)) tid])
           None None)
      <$> seq 0 (n_frames (length remaining_payload)).
Proof.
  induction fuel as [|fuel IH]; intros rem n_out tail Hfuel Htog.
  - destruct rem; [|simpl in Hfuel; lia].
    simpl. rewrite next_tail_eq by done. rewrite Nat.add_0_r. done.
  - destruct (decide (length rem <= 7)%nat) as [Hshort|Hlong].
    + assert (drop 7 rem = []) as Hdrop by (apply drop_ge; lia).
      simpl. rewrite Hdrop. rewrite n_frames_short by done. simpl.
      rewrite next_tail_eq by done. rewrite Nat.add_0_r.
      rewrite (bool_decide_eq_true_2 (length rem <= 7)%nat) by done. done.
    + assert (length (drop 7 rem) = (length rem - 7)%nat) as Hlen by apply length_drop.
      destruct (drop 7 rem) as [|b rest] eqn:Hdrop; [simpl in Hlen; lia|].
      cbn [to_frames_loop]. rewrite Hdrop. rewrite <- Hdrop.
      rewrite next_tail_eq by done.
      rewrite IH; [|rewrite length_drop; lia|].
      2:{ rewrite land_tail_byte_20. rewrite Nat.even_succ. done. }
      rewrite (n_frames_long (length rem)) by lia. rewrite length_drop.
      cbn [seq fmap list_fmap]. rewrite <- fmap_S_seq, <- list_fmap_compose.
      f_equal.
      * rewrite Nat.add_0_r.
        rewrite (bool_decide_eq_false_2 (length rem <= 7)%nat) by done.
        rewrite (bool_decide_eq_false_2 (1 = S _)%nat); [done|].
        pose proof (n_frames_short 0). unfold n_frames in *. lia.
      * apply list_fmap_ext. intros _ j _. unfold compose. cbn beta.
        replace (S n_out + j)%nat with (n_out + S j)%nat by lia.
        rewrite (bool_decide_ext (S j = n_frames (length rem - 7))
                   (S (S j) = S (n_frames (length rem - 7)))) by lia.
        f_equal. f_equal. unfold slice. rewrite drop_drop.
        f_equal; [lia|]. f_equal. lia.
Qed.

Lemma to_frames_loop_frames_of (mid tid : Z) (q : list Z) :
  to_frames_loop (length q) mid tid 0 0x20 q = frames_of mid tid q.
Proof.
  rewrite to_frames_loop_closed_form by done. done.
Qed.

Lemma to_frames_eq (self : Transfer) (p : list Z) (seed mid : Z) :
  payload self = PayloadBytes p ->
  ((7 < length p)%nat -> data_type_crc self = Some seed) ->
  message_id self = Ok mid ->
  to_frames self = Ok (frames_of mid (transfer_id self) (crc_prefixed p seed)).
Proof.
  intros Hp Hcrc Hmid. unfold to_frames. rewrite Hp, Hmid.
  unfold crc_prefixed. destruct (decide (7 < length p)%nat) as [Hlong|Hshort].
  - rewrite (Hcrc Hlong). cbn [number]. by rewrite to_frames_loop_frames_of.
  - by rewrite to_frames_loop_frames_of.
Qed.

Lemma frame_at_flags (mid tid : Z) (q : list Z) (i : nat) :
  start_of_transfer (frame_at mid tid q i) = bool_decide (i = 0%nat)
  /\ end_of_transfer (frame_at mid tid q i) = bool_decide (S i = n_frames (length q))
  /\ toggle (frame_at mid tid q i) = Nat.odd i
  /\ transfer_key (frame_at mid tid q i) = (mid, Some (Z.land tid 0x1F)).
Proof.
  unfold start_of_transfer, end_of_transfer, toggle, transfer_key, frame_at. simpl.
  rewrite last_snoc. simpl.
  rewrite land_tail_byte_80, land_tail_byte_40, land_tail_byte_20, land_tail_byte_1F.
  split_and!; [| | |done].
  - by destruct (bool_decide (i = 0%nat)).
  - by destruct (bool_decide (S i = n_frames (length q))).
  - by destruct (Nat.odd i).
Qed.

(** C4: [to_frames] cuts the payload (with the CRC in front when the
    original payload is longer than 7 bytes) into consecutive 7-byte chunks
    and emits one frame per chunk, in order (a payload without bytes gives
    one frame with the empty chunk).  Frame [i] holds chunk [i] followed by
    one tail byte; start-of-transfer is set on frame 0 only, end-of-transfer
    on the last frame only, the toggle bit is [i] modulo 2, and the low 5
    bits are the transfer id modulo 32. *)
Theorem to_frames_chunks_and_tail_bytes (self : Transfer) (p : list Z) (seed mid : Z) :
  payload self = PayloadBytes p ->
  ((7 < length p)%nat -> data_type_crc self = Some seed) ->
  message_id self = Ok mid ->
  let q := crc_prefixed p seed in
  exists frames,
    to_frames self = Ok frames
    /\ length frames = n_frames (length q)
    /\ forall i, (i < n_frames (length q))%nat ->
         exists f tail,
           frames !! i = Some f
           /\ f_message_id f = mid
           /\ f_bytes f = slice q (7 * i) (7 * i + 7) ++ [tail]
           /\ Z.land tail 0x1F = transfer_id self `mod` 32
           /\ start_of_transfer f = bool_decide (i = 0%nat)
           /\ end_of_transfer f = bool_decide (S i = n_frames (length q))
           /\ toggle f = Nat.odd i.
Proof.
  intros Hp Hcrc Hmid q.
  exists (frames_of mid (transfer_id self) q).
  split; [by apply to_frames_eq|].
  split; [unfold frames_of; by rewrite length_fmap, length_seq|].
  intros i Hi.
  exists (frame_at mid (transfer_id self) q i). eexists.
  destruct (frame_at_flags mid (transfer_id self) q i) as (Hs & He & Ht & _).
  split_and!; [|done|reflexivity| |done..].
  - unfold frames_of. rewrite list_lookup_fmap, lookup_seq_lt by done. done.
  - rewrite land_tail_byte_1F. change 31 with (Z.ones 5). by rewrite Z.land_ones.
Qed.

(** ** Bit fields of the CAN identifier *)

Lemma land_mul_pow2_low (hi lo k : Z) :
  0 <= k -> 0 <= lo < 2 ^ k -> Z.land (hi * 2 ^ k) lo = 0.
Proof.
  intros Hk Hlo. apply Z.bits_inj'. intros n Hn.
  rewrite Z.land_spec, Z.bits_0.
  destruct (decide (n < k)).
  - by rewrite Z.mul_pow2_bits_low by lia.
  - rewrite <- (Z.mod_small lo (2 ^ k)) by lia.
    rewrite Z.mod_pow2_bits_high by lia. apply andb_false_r.
Qed.

Lemma lor_add (hi lo m k : Z) :
  m = 2 ^ k -> 0 <= k -> 0 <= lo < m -> Z.lor (hi * m) lo = hi * m + lo.
Proof.
  intros -> Hk Hlo.
  rewrite <- Z.lxor_lor by (by apply land_mul_pow2_low).
  symmetry. apply Z.add_nocarry_lxor. by apply land_mul_pow2_low.
Qed.

Lemma land_pow2 (x k : Z) :
  0 <= k -> Z.land x (2 ^ k) = (x / 2 ^ k) `mod` 2 * 2 ^ k.
Proof.
  intros Hk. apply Z.bits_inj'. intros n Hn.
  rewrite Z.land_spec, Z.pow2_bits_eqb by lia.
  destruct (decide (n < k)).
  - rewrite Z.mul_pow2_bits_low by lia.
    rewrite (proj2 (Z.eqb_neq k n)) by lia. apply andb_false_r.
  - rewrite Z.mul_pow2_bits by lia. change 2 with (2 ^ 1) at 2.
    destruct (decide (n = k)) as [->|Hne].
    + rewrite Z.eqb_refl, andb_true_r, Z.sub_diag.
      rewrite Z.mod_pow2_bits_low by lia.
      rewrite Z.div_pow2_bits by lia. done.
    + rewrite (proj2 (Z.eqb_neq k n)) by lia. rewrite andb_false_r.
      by rewrite Z.mod_pow2_bits_high by lia.
Qed.

Lemma land_bit_ne_0 (x m k : Z) :
  m = 2 ^ k -> 0 <= k -> (Z.land x m <> 0 <-> (x / m) `mod` 2 = 1).
Proof.
  intros -> Hk. rewrite land_pow2 by done.
  pose proof (Z.pow_pos_nonneg 2 k ltac:(lia) Hk).
  pose proof (Z.mod_pos_bound (x / 2 ^ k) 2 ltac:(lia)). nia.
Qed.

Lemma land_bit_cases (x m k : Z) :
  m = 2 ^ k -> 0 <= k -> Z.land x m = 0 \/ Z.land x m = m.
Proof.
  intros -> Hk. rewrite land_pow2 by done.
  pose proof (Z.mod_pos_bound (x / 2 ^ k) 2 ltac:(lia)).
  destruct (decide ((x / 2 ^ k) `mod` 2 = 0)) as [->|?]; [by left|].
  right. replace ((x / 2 ^ k) `mod` 2) with 1 by lia. lia.
Qed.

Lemma field_extract (x s m w : Z) :
  m = Z.ones w -> 0 <= s -> 0 <= w ->
  Z.land (Z.shiftr x s) m = (x / 2 ^ s) `mod` 2 ^ w.
Proof. intros -> Hs Hw. by rewrite Z.land_ones, Z.shiftr_div_pow2. Qed.

Lemma field_low (x m w : Z) :
  m = Z.ones w -> 0 <= w -> Z.land x m = x `mod` 2 ^ w.
Proof. intros -> Hw. by rewrite Z.land_ones. Qed.

Lemma lor_reorder_service (a b c d e f : Z) :
  Z.lor (Z.lor (Z.lor (Z.lor (Z.lor a b) c) d) e) f
  = Z.lor a (Z.lor d (Z.lor e (Z.lor f (Z.lor b c)))).
Proof.
  apply Z.bits_inj'. intros n _. rewrite !Z.lor_spec.
  by destruct (Z.testbit a n), (Z.testbit b n), (Z.testbit c n),
       (Z.testbit d n), (Z.testbit e n), (Z.testbit f n).
Qed.

Lemma lor_reorder_message (a b c d : Z) :
  Z.lor (Z.lor (Z.lor a b) c) d = Z.lor a (Z.lor d (Z.lor b c)).
Proof.
  apply Z.bits_inj'. intros n _. rewrite !Z.lor_spec.
  by destruct (Z.testbit a n), (Z.testbit b n), (Z.testbit c n), (Z.testbit d n).
Qed.

Lemma lor_reorder_anonymous (a b c d e : Z) :
  Z.lor (Z.lor (Z.lor (Z.lor a b) c) d) e = Z.lor a (Z.lor d (Z.lor e (Z.lor b c))).
Proof.
  apply Z.bits_inj'. intros n _. rewrite !Z.lor_spec.
  by destruct (Z.testbit a n), (Z.testbit b n), (Z.testbit c n),
       (Z.testbit d n), (Z.testbit e n).
Qed.

(** The identifier of a service transfer as a sum of its fields. *)
Lemma service_id_sum (pri src dtid r dest : Z) :
  0 <= pri <= 31 -> 0 <= src <= 127 -> 0 <= dtid <= 255 -> 0 <= r <= 1 ->
  1 <= dest <= 127 ->
  Z.lor (Z.lor (Z.lor (Z.lor (Z.lor (Z.shiftl (Z.land pri 0x1F) 24) (Z.shiftl 1 7)) src)
                      (Z.shiftl dtid 16))
               (Z.shiftl r 15))
        (Z.shiftl dest 8)
  = pri * 16777216 + dtid * 65536 + r * 32768 + dest * 256 + 128 + src.
Proof.
  intros Hpri Hsrc Hdtid Hr Hdest.
  rewrite (field_low pri 31 5) by done. rewrite Z.mod_small by (simpl; lia).
  rewrite !Z.shiftl_mul_pow2 by lia.
  change (2 ^ 24) with 16777216. change (2 ^ 16) with 65536.
  change (2 ^ 15) with 32768. change (2 ^ 8) with 256. change (1 * 2 ^ 7) with (1 * 128).
  rewrite lor_reorder_service.
  rewrite (lor_add 1 src 128 7) by (done || lia).
  rewrite (lor_add dest _ 256 8) by (done || lia).
  rewrite (lor_add r _ 32768 15) by (done || lia).
  rewrite (lor_add dtid _ 65536 16) by (done || lia).
  rewrite (lor_add pri _ 16777216 24) by (done || lia).
  lia.
Qed.

(** The identifier of a message transfer from a node. *)
Lemma message_id_sum (pri src dtid : Z) :
  0 <= pri <= 31 -> 0 <= src <= 127 -> 0 <= dtid <= 65535 ->
  Z.lor (Z.lor (Z.lor (Z.shiftl (Z.land pri 0x1F) 24) (Z.shiftl 0 7)) src)
        (Z.shiftl dtid 8)
  = pri * 16777216 + dtid * 256 + src.
Proof.
  intros Hpri Hsrc Hdtid.
  rewrite (field_low pri 31 5) by done. rewrite Z.mod_small by (simpl; lia).
  rewrite !Z.shiftl_mul_pow2 by lia.
  change (2 ^ 24) with 16777216. change (2 ^ 8) with 256. change (0 * 2 ^ 7) with (0 * 128).
  rewrite lor_reorder_message.
  rewrite (lor_add 0 src 128 7) by (done || lia).
  rewrite (lor_add dtid _ 256 8) by (done || lia).
  rewrite (lor_add pri _ 16777216 24) by (done || lia).
  lia.
Qed.

(** The identifier of an anonymous message transfer. *)
Lemma anonymous_id_sum (pri disc dtid : Z) :
  0 <= pri <= 31 -> 0 <= disc <= 16383 -> 0 <= dtid <= 3 ->
  Z.lor (Z.lor (Z.lor (Z.lor (Z.shiftl (Z.land pri 0x1F) 24) (Z.shiftl 0 7)) 0)
               (Z.shiftl disc 10))
        (Z.shiftl (Z.land dtid 0x3) 8)
  = pri * 16777216 + disc * 1024 + dtid * 256.
Proof.
  intros Hpri Hdisc Hdtid.
  rewrite (field_low pri 31 5) by done. rewrite Z.mod_small by (simpl; lia).
  rewrite (field_low dtid 3 2) by done. rewrite Z.mod_small by (simpl; lia).
  rewrite !Z.shiftl_mul_pow2 by lia.
  change (2 ^ 24) with 16777216. change (2 ^ 10) with 1024. change (2 ^ 8) with 256.
  change (0 * 2 ^ 7) with (0 * 128).
  rewrite lor_reorder_anonymous.
  rewrite (lor_add 0 0 128 7) by (done || lia).
  rewrite (lor_add dtid _ 256 8) by (done || lia).
  rewrite (lor_add disc _ 1024 10) by (done || lia).
  rewrite (lor_add pri _ 16777216 24) by (done || lia).
  lia.
Qed.

Ltac norm_pow2 :=
  repeat match goal with
         | |- context [2 ^ ?k] =>
             let v := eval compute in (2 ^ k) in change (2 ^ k) with v
         end.

Lemma decode_service (pri src dtid r dest : Z) :
  0 <= pri <= 31 -> 0 <= src <= 127 -> 0 <= dtid <= 255 -> 0 <= r <= 1 ->
  1 <= dest <= 127 ->
  let mid := pri * 16777216 + dtid * 65536 + r * 32768 + dest * 256 + 128 + src in
  Z.land (Z.shiftr mid 24) 0x1F = pri
  /\ Z.land mid 0x80 <> 0
  /\ Z.land mid 0x7F = src
  /\ Z.land (Z.shiftr mid 16) 0xFF = dtid
  /\ (Z.land mid 0x8000 <> 0 <-> r = 1)
  /\ Z.land (Z.shiftr mid 8) 0x7F = dest.
Proof.
  intros Hpri Hsrc Hdtid Hr Hdest mid.
  rewrite (field_extract mid 24 31 5), (field_extract mid 16 255 8),
    (field_extract mid 8 127 7), (field_low mid 127 7) by done.
  rewrite (land_bit_ne_0 mid 128 7), (land_bit_ne_0 mid 32768 15) by done.
  norm_pow2. unfold mid. split_and!; div_lia.
Qed.

Lemma decode_message (pri src dtid : Z) :
  0 <= pri <= 31 -> 1 <= src <= 127 -> 0 <= dtid <= 65535 ->
  let mid := pri * 16777216 + dtid * 256 + src in
  Z.land (Z.shiftr mid 24) 0x1F = pri
  /\ ~ Z.land mid 0x80 <> 0
  /\ Z.land mid 0x7F = src
  /\ Z.land (Z.shiftr mid 8) 0xFFFF = dtid.
Proof.
  intros Hpri Hsrc Hdtid mid.
  rewrite (field_extract mid 24 31 5), (field_extract mid 8 65535 16),
    (field_low mid 127 7) by done.
  rewrite (land_bit_ne_0 mid 128 7) by done.
  norm_pow2. unfold mid. split_and!; div_lia.
Qed.

Lemma decode_anonymous (pri disc dtid : Z) :
  0 <= pri <= 31 -> 0 <= disc <= 16383 -> 0 <= dtid <= 3 ->
  let mid := pri * 16777216 + disc * 1024 + dtid * 256 in
  Z.land (Z.shiftr mid 24) 0x1F = pri
  /\ ~ Z.land mid 0x80 <> 0
  /\ Z.land mid 0x7F = 0
  /\ Z.land (Z.shiftr mid 10) 0x3FFF = disc
  /\ Z.land (Z.shiftr mid 8) 0x3 = dtid.
Proof.
  intros Hpri Hdisc Hdtid mid.
  rewrite (field_extract mid 24 31 5), (field_extract mid 10 16383 14),
    (field_extract mid 8 3 2), (field_low mid 127 7) by done.
  rewrite (land_bit_ne_0 mid 128 7) by done.
  norm_pow2. unfold mid. split_and!; div_lia.
Qed.

Lemma message_id_roundtrip (sent : Transfer) :
  well_formed sent = true ->
  exists mid, message_id sent = Ok mid
              /\ forall self, same_header sent self (set_message_id self mid).
Proof.
  unfold well_formed. rewrite !andb_true_iff, !bool_decide_eq_true.
  intros [[[Hpri Htid] Hsrc] Hkind].
  destruct (data_type_id sent) as [dtid|] eqn:Hdtid; [|done].
  destruct (service_not_message sent) eqn:Hsnm.
  - (* service *)
    apply andb_true_iff in Hkind as [Hd%bool_decide_eq_true Hdest].
    destruct (dest_node_id sent) as [dest|] eqn:Edest; [|done].
    apply bool_decide_eq_true in Hdest.
    assert (0 <= Z.b2z (request_not_response sent) <= 1) as Hr
      by (destruct (request_not_response sent); simpl; lia).
    eexists. split.
    + unfold message_id. rewrite Hsnm, Hdtid, Edest. cbn [number].
      rewrite !bool_decide_eq_true_2 by done. cbn [py_assert].
      cbn [Z.b2z]. rewrite service_id_sum by done. reflexivity.
    + intros self.
      destruct (decode_service _ _ _ _ _ Hpri Hsrc Hd Hr Hdest)
        as (E1 & E2 & E3 & E4 & E5 & E6).
      unfold same_header, set_message_id. rewrite ?Hsnm, ?Hdtid, ?Edest.
      rewrite (bool_decide_eq_true_2 _ E2). cbn.
      rewrite E1, E3, E4, E6. split_and!; try done.
      intros _. split; [done|].
        destruct (request_not_response sent); simpl in *.
      * apply bool_decide_eq_true_2. by apply E5.
      * apply bool_decide_eq_false_2. intros ?%E5. done.
  - destruct (decide (source_node_id sent = 0)) as [Hanon|Hnode].
    + (* anonymous message *)
      apply andb_true_iff in Hkind as [[Hnodest%bool_decide_eq_true
                                          Hd%bool_decide_eq_true]%andb_true_iff Hdisc].
      destruct (discriminator sent) as [disc|] eqn:Edisc; [|done].
      apply bool_decide_eq_true in Hdisc.
      eexists. split.
      * unfold message_id. rewrite Hsnm, Hdtid, Edisc, Hnodest.
        rewrite decide_True by done. cbn [number].
        rewrite !bool_decide_eq_true_2 by done. cbn [py_assert].
        rewrite Hanon. cbn [Z.b2z]. rewrite anonymous_id_sum by done. reflexivity.
      * intros self.
        destruct (decode_anonymous _ _ _ Hpri Hdisc Hd) as (E1 & E2 & E3 & E4 & E5).
        unfold same_header, set_message_id. rewrite ?Hsnm, ?Hdtid, ?Edisc, ?Hanon.
        rewrite (bool_decide_eq_false_2 _ E2). cbn.
        rewrite E3. rewrite decide_True by done. cbn.
        rewrite ?E1, ?E3, ?E4, ?E5. split_and!; done.
    + (* message from a node *)
      apply bool_decide_eq_true in Hkind.
      eexists. split.
      * unfold message_id. rewrite Hsnm, Hdtid.
        rewrite decide_False by done. cbn [number].
        rewrite !bool_decide_eq_true_2 by done. cbn [py_assert].
        cbn [Z.b2z]. rewrite message_id_sum by done. reflexivity.
      * intros self.
        assert (1 <= source_node_id sent <= 127) as Hsrc1 by lia.
        destruct (decode_message _ _ _ Hpri Hsrc1 Hkind) as (E1 & E2 & E3 & E4).
        unfold same_header, set_message_id. rewrite ?Hsnm, ?Hdtid.
        rewrite (bool_decide_eq_false_2 _ E2). cbn.
        rewrite E3. rewrite decide_False by done. cbn.
        rewrite ?E1, ?E3, ?E4. split_and!; done.
Qed.

(** ** Validation of received frames *)

Lemma last_nonempty {A} (l : list A) : l <> [] -> exists x, last l = Some x.
Proof.
  intros Hne. destruct (last l) as [x|] eqn:E; [eauto|].
  by apply last_None in E.
Qed.

Lemma violations_spec (n : nat) (tid0 : option Z) (frames : list Frame) (idx : nat) :
  violations n tid0 idx frames = true
  <-> exists j f, frames !! j = Some f /\ frame_violates n tid0 (idx + j) f = true.
Proof.
  revert idx. induction frames as [|f rest IH]; intros idx; simpl.
  - split; [done|]. by intros (j & f & ? & _).
  - rewrite orb_true_iff, IH. split.
    + intros [Hf|(j & f' & Hj & Hv)].
      * exists 0%nat, f. by rewrite Nat.add_0_r.
      * exists (S j), f'. split; [done|]. by rewrite Nat.add_succ_r.
    + intros ([|j] & f' & Hj & Hv); simpl in Hj.
      * left. injection Hj as ->. by rewrite Nat.add_0_r in Hv.
      * right. exists j, f'. split; [done|]. by rewrite Nat.add_succ_r in Hv.
Qed.

Lemma bool_decide_iff_true (b : bool) (P : Prop) `{Decision P} :
  (b = true <-> P) -> bool_decide P = b.
Proof.
  intros Hb. destruct b.
  - apply bool_decide_eq_true_2. by apply Hb.
  - apply bool_decide_eq_false_2. intros HP. by apply Hb in HP.
Qed.

Lemma check_chain (b1 b2 b3 b4 b5 b6 rest_violates : bool) (next : result unit) :
  next = (if rest_violates then Raise TransferError else Ok tt) ->
  (if b1 then Raise TransferError
   else if b2 then Raise TransferError
   else if b3 then Raise TransferError
   else if b4 then Raise TransferError
   else if b5 then Raise TransferError
   else if b6 then Raise TransferError
   else next)
  = if b1 || b2 || b3 || b4 || b5 || b6 || rest_violates
    then Raise TransferError else Ok tt.
Proof. intros ->. by destruct b1, b2, b3, b4, b5, b6. Qed.

Lemma flag_clear (tail m k : Z) (idx_cond : Prop) `{Decision idx_cond} :
  m = 2 ^ k -> 0 <= k ->
  bool_decide (idx_cond /\ Z.land tail m = 0)
  = bool_decide idx_cond && negb (bool_decide (Z.land tail m <> 0)).
Proof.
  intros Hm Hk. apply bool_decide_iff_true.
  rewrite andb_true_iff, negb_true_iff, bool_decide_eq_true, bool_decide_eq_false.
  split; intros [? ?]; (split; [done|]); [by destruct (decide (Z.land tail m = 0))|auto].
Qed.

Lemma flag_set (tail m : Z) (idx_cond : Prop) `{Decision idx_cond} :
  bool_decide (idx_cond /\ Z.land tail m <> 0)
  = bool_decide idx_cond && bool_decide (Z.land tail m <> 0).
Proof.
  apply bool_decide_iff_true.
  by rewrite andb_true_iff, !bool_decide_eq_true.
Qed.

Lemma toggle_mismatch (tail : Z) (idx : nat) :
  bool_decide (Z.land tail 0x20 <> (if Nat.odd idx then 0x20 else 0))
  = negb (bool_decide (bool_decide (Z.land tail 0x20 <> 0) = Nat.odd idx)).
Proof.
  apply bool_decide_iff_true. rewrite negb_true_iff, bool_decide_eq_false.
  destruct (land_bit_cases tail 0x20 5 eq_refl ltac:(lia)) as [E|E]; rewrite E;
    destruct (Nat.odd idx); cbn; split; intros ?; (done || lia).
Qed.

Lemma check_tails_violations (n : nat) (etid : Z) (frames : list Frame) :
  Forall (fun f => f_bytes f <> []) frames ->
  forall idx,
    check_tails (Z.of_nat n) etid (Z.of_nat idx) (if Nat.odd idx then 0x20 else 0) frames
    = if violations n (Some etid) idx frames then Raise TransferError else Ok tt.
Proof.
  induction 1 as [|f rest Hf _ IH]; intros idx; [done|].
  destruct (last_nonempty _ Hf) as [tail Htail].
  assert (check_tails (Z.of_nat n) etid (Z.of_nat idx + 1)
            (Z.lxor (if Nat.odd idx then 0x20 else 0) 0x20) rest
          = if violations n (Some etid) (S idx) rest then Raise TransferError else Ok tt)
    as Hstep.
  { rewrite <- IH. f_equal; [lia|].
    rewrite Nat.odd_succ, <- Nat.negb_odd. by destruct (Nat.odd idx). }
  cbn [check_tails violations]. rewrite Htail.
  rewrite !decide_bool_decide.
  rewrite (check_chain _ _ _ _ _ _ _ _ Hstep).
  unfold frame_violates, transfer_key, start_of_transfer, end_of_transfer, toggle.
  rewrite Htail. cbn [fmap option_fmap option_map snd].
  rewrite (flag_clear tail 0x80 7), (flag_clear tail 0x40 6) by (done || lia).
  rewrite !flag_set. rewrite toggle_mismatch.
  rewrite (bool_decide_ext (Z.of_nat idx = 0) (idx = 0%nat)) by lia.
  rewrite (bool_decide_ext (Z.of_nat idx > 0) (0 < idx)%nat) by lia.
  rewrite (bool_decide_ext (Z.of_nat idx = Z.of_nat n - 1) (S idx = n)) by lia.
  rewrite (bool_decide_ext (Z.of_nat idx < Z.of_nat n - 1) (S idx < n)%nat) by lia.
  replace (bool_decide (Z.land tail 31 <> etid))
    with (negb (bool_decide (Some (Z.land tail 31) = Some etid))); [done|].
  symmetry. apply bool_decide_iff_true. rewrite negb_true_iff, bool_decide_eq_false.
  split; intros Hne Heq; apply Hne; congruence.
Qed.

(** ** The value tree never raises [TransferError] *)

Lemma no_TransferError_bind {A B} (e : result A) (k : A -> result B) :
  no_TransferError e -> (forall x, e = Ok x -> no_TransferError (k x)) ->
  no_TransferError (x <- e ;; k x).
Proof.
  intros He Hk. destruct e as [x|err]; [by apply Hk|].
  intros [= ->]. by apply He.
Qed.

Lemma value_nested_ind (P : value -> Prop) :
  (forall n, P (VoidValue n)) ->
  (forall n bits, P (PrimitiveValue n bits)) ->
  (forall mode max_size tao item_ctor items,
     (forall new_item, item_ctor = Ok new_item -> P new_item) ->
     Forall P items -> P (ArrayValue mode max_size tao item_ctor items)) ->
  (forall is_union union_field fields,
     Forall (fun kv => P kv.2) fields -> P (CompoundValue is_union union_field fields)) ->
  forall v, P v.
Proof.
  intros Hvoid Hprim Harray Hcompound. fix IH 1.
  intros [n|n bits|mode max_size tao item_ctor items|is_union union_field fields].
  - apply Hvoid.
  - apply Hprim.
  - apply Harray.
    + destruct item_ctor as [new_item|e]; intros x [= <-]. apply IH.
    + revert items. fix IHl 1. intros [|i items]; constructor; [apply IH|apply IHl].
  - apply Hcompound.
    revert fields. fix IHl 1. intros [|[k fv] fields]; constructor; [apply IH|apply IHl].
Qed.

Lemma be_from_le_bits_no_TransferError (s : list bool) (bitlen : nat) :
  no_TransferError (be_from_le_bits s bitlen).
Proof. unfold be_from_le_bits. by case_decide. Qed.

Lemma log_width_no_TransferError (n : nat) : no_TransferError (log_width n).
Proof. unfold log_width. by destruct (log2_ceil n). Qed.

Lemma int2_no_TransferError (s : list bool) : no_TransferError (int2 s).
Proof. by destruct s. Qed.

Lemma ctor_safe_array mode max_size tao item_ctor items :
  ctor_safe (ArrayValue mode max_size tao item_ctor items)
  <-> safe_result item_ctor /\ Forall ctor_safe items.
Proof.
  cbn [ctor_safe]. unfold safe_result, safe_result_with.
  apply and_iff_compat_l.
  induction items as [|i l IH]; [by split; [constructor|]|].
  rewrite Forall_cons, IH. done.
Qed.

Lemma ctor_safe_compound is_union union_field fields :
  ctor_safe (CompoundValue is_union union_field fields)
  <-> Forall (fun kv => ctor_safe kv.2) fields.
Proof.
  cbn [ctor_safe].
  induction fields as [|[k fv] l IH]; [by split; [constructor|]|].
  rewrite Forall_cons, IH. done.
Qed.

Lemma safe_result_no_TransferError (r : result value) :
  safe_result r -> no_TransferError r.
Proof. destruct r as [v|e]; [done|]. intros He [= ->]. by apply He. Qed.

Lemma unpack_no_TransferError (v : value) :
  ctor_safe v -> forall stream, no_TransferError (unpack v stream).
Proof.
  induction v as [n|n bits|mode max_size tao item_ctor items IHctor IHitems
                 |is_union union_field fields IHfields] using value_nested_ind;
    intros Hsafe stream.
  - done.
  - simpl. destruct n; [done|].
    apply no_TransferError_bind; [apply be_from_le_bits_no_TransferError|done].
  - apply ctor_safe_array in Hsafe as [Hctor Hitems].
    assert (forall s, no_TransferError (unpack_new item_ctor s)) as Hnew.
    { intros s. unfold unpack_new. destruct item_ctor as [new_item|e] eqn:E.
      - by apply IHctor.
      - intros [= ->]. by apply Hctor. }
    destruct mode.
    + cbn [unpack].
      match goal with
      | |- no_TransferError (match ?f items max_size stream with _ => _ end) =>
          assert (forall n s, no_TransferError (f items n s)) as Hloop
      end.
      { clear Hctor. induction IHitems as [|i l Hi _ IHl]; intros [|n] s; try done.
        apply Forall_cons in Hitems as [Hsi Hsl].
        apply no_TransferError_bind; [by apply Hi|]. intros r1 _.
        apply no_TransferError_bind; [by apply IHl|done]. }
      apply no_TransferError_bind; [apply Hloop|done].
    + rewrite unpack_dynamic. destruct tao.
      * unfold unpack_tail_array.
        apply no_TransferError_bind; [|done].
        generalize (@nil value). generalize stream at 2.
        induction (length stream) as [|fuel IHfuel]; intros s acc; simpl;
          case_decide; try done.
        apply no_TransferError_bind; [apply Hnew|]. intros r _. apply IHfuel.
      * unfold unpack_length_prefixed.
        apply no_TransferError_bind;
          [apply log_width_no_TransferError|]. intros cw _.
        apply no_TransferError_bind; [apply int2_no_TransferError|]. intros count _.
        apply no_TransferError_bind; [|done].
        generalize (@nil value). generalize (drop cw stream).
        induction (Z.to_nat count) as [|k IHk]; intros s acc; simpl; [done|].
        apply no_TransferError_bind; [apply Hnew|]. intros r _. apply IHk.
  - apply ctor_safe_compound in Hsafe.
    cbn [unpack]. destruct is_union.
    + apply no_TransferError_bind;
        [apply log_width_no_TransferError|]. intros tag_len _.
      apply no_TransferError_bind; [apply int2_no_TransferError|]. intros tag _.
      apply no_TransferError_bind; [by destruct (_ !! _)|]. intros key _.
      apply no_TransferError_bind; [|done].
      induction IHfields as [|[k fv] l Hfv _ IHl]; [done|].
      apply Forall_cons in Hsafe as [Hsi Hsl].
      case_decide.
      * apply no_TransferError_bind; [by apply Hfv|done].
      * apply no_TransferError_bind; [by apply IHl|done].
    + apply no_TransferError_bind; [|done].
      revert stream. induction IHfields as [|[k fv] l Hfv _ IHl]; intros s; [done|].
      apply Forall_cons in Hsafe as [Hsi Hsl].
      apply no_TransferError_bind; [by apply Hfv|]. intros r1 _.
      apply no_TransferError_bind; [by apply IHl|done].
Qed.

(** Freshly constructed values are [ctor_safe], and construction itself
    never raises [TransferError]. *)
Lemma dtype_nested_ind (P : dtype -> Prop) :
  (forall n, P (VoidType n)) ->
  (forall kind n, P (PrimitiveType kind n)) ->
  (forall value_type mode max_size, P value_type -> P (ArrayType value_type mode max_size)) ->
  (forall kind dtid crc fields union request_fields request_union
          response_fields response_union,
     Forall (fun kv => P kv.2) fields ->
     Forall (fun kv => P kv.2) request_fields ->
     Forall (fun kv => P kv.2) response_fields ->
     P (CompoundType kind dtid crc fields union request_fields request_union
          response_fields response_union)) ->
  forall t, P t.
Proof.
  intros Hvoid Hprim Harray Hcompound. fix IH 1.
  assert (forall l : list (string * dtype), Forall (fun kv => P kv.2) l) as Hall.
  { fix IHl 1. intros [|[k ft] l]; constructor; [apply IH|apply IHl]. }
  intros [n|kind n|value_type mode max_size
         |kind dtid crc fields union request_fields request_union
            response_fields response_union].
  - apply Hvoid.
  - apply Hprim.
  - apply Harray, IH.
  - apply Hcompound; apply Hall.
Qed.

Lemma PrimitiveValue_init_safe (kind : PrimitiveKind) (bitlen : nat) :
  safe_result (PrimitiveValue_init kind bitlen).
Proof. destruct kind; simpl; try done. by case_decide. Qed.

Lemma dict_set_safe (k : string) (v : value) (d : list (string * value)) :
  ctor_safe v -> Forall (fun kv => ctor_safe kv.2) d ->
  Forall (fun kv => ctor_safe kv.2) (dict_set k v d).
Proof.
  intros Hv. induction 1 as [|[k' v'] d Hkv Hd IH]; simpl.
  - by repeat constructor.
  - case_decide; constructor; done.
Qed.

Lemma init_safe (t : dtype) :
  (forall _tao, safe_result (ArrayValue_init t _tao))
  /\ (forall _mode _tao, safe_result (CompoundValue_init t _mode _tao)).
Proof.
  induction t as [n|kind n|value_type mode max_size IH
                 |kind dtid crc fields union request_fields request_union
                    response_fields response_union IHf IHq IHp]
    using dtype_nested_ind.
  - done.
  - done.
  - split; [|done]. intros _tao. cbn [ArrayValue_init].
    set (item_ctor := match value_type with
                      | VoidType _ => _ | PrimitiveType kind bitlen => _
                      | ArrayType _ _ _ => _
                      | CompoundType _ _ _ _ _ _ _ _ _ => _ end).
    assert (safe_result item_ctor) as Hctor.
    { subst item_ctor. destruct value_type; try done.
      - apply PrimitiveValue_init_safe.
      - apply IH. }
    clearbody item_ctor.
    destruct mode; [destruct max_size|].
    + by apply ctor_safe_array.
    + destruct item_ctor as [item|e]; [|done].
      apply ctor_safe_array. split; [done|]. by apply Forall_replicate.
    + by apply ctor_safe_array.
  - split; [done|]. intros _mode _tao. cbn [CompoundValue_init].
    match goal with
    | |- context [?f (length fields) 0%nat fields []] =>
        assert (forall source_fields, Forall (fun kv =>
                   (forall _tao, safe_result (ArrayValue_init kv.2 _tao))
                   /\ (forall _mode _tao, safe_result (CompoundValue_init kv.2 _mode _tao)))
                   source_fields ->
                 forall n idx acc, Forall (fun kv => ctor_safe kv.2) acc ->
                   match f n idx source_fields acc with
                   | Ok fs => Forall (fun kv => ctor_safe kv.2) fs
                   | Raise e => e <> TransferError
                   end) as Hbuild
    end.
    { clear. induction 1 as [|[name ft] rest [Ha Hc] _ IHrest]; intros n idx acc Hacc;
        [done|].
      set (atao := bool_decide (S idx = n) && _tao).
      assert (safe_result
                match ft with
                | VoidType bitlen => Ok (VoidValue bitlen)
                | PrimitiveType kind bitlen => PrimitiveValue_init kind bitlen
                | ArrayType _ _ _ => ArrayValue_init ft atao
                | CompoundType _ _ _ _ _ _ _ _ _ => CompoundValue_init ft None atao
                end) as Hv.
      { destruct ft; [done|apply PrimitiveValue_init_safe|apply Ha|apply Hc]. }
      revert Hv. cbn [ArrayValue_init CompoundValue_init]. fold atao.
      match goal with |- safe_result ?r -> _ => destruct r as [v|e] end; [|done].
      intros Hv. apply IHrest. by apply dict_set_safe. }
    destruct kind, _mode as [[]|]; try done.
    + specialize (Hbuild request_fields IHq (length request_fields) 0%nat [] ltac:(constructor)).
      destruct (_ (length request_fields) _ _ _); [|done]. by apply ctor_safe_compound.
    + specialize (Hbuild response_fields IHp (length response_fields) 0%nat [] ltac:(constructor)).
      destruct (_ (length response_fields) _ _ _); [|done]. by apply ctor_safe_compound.
    + specialize (Hbuild fields IHf (length fields) 0%nat [] ltac:(constructor)).
      destruct (_ (length fields) _ _ _); [|done]. by apply ctor_safe_compound.
Qed.

Lemma decode_payload_no_TransferError (datatype : dtype) (mode : option Mode)
    (payload_bytes : list Z) :
  no_TransferError (decode_payload datatype mode payload_bytes).
Proof.
  unfold decode_payload.
  apply no_TransferError_bind;
    [apply safe_result_no_TransferError, init_safe|]. intros v Hv.
  apply no_TransferError_bind; [|done].
  apply unpack_no_TransferError.
  pose proof (proj2 (init_safe datatype) mode true) as Hs. by rewrite Hv in Hs.
Qed.

(** ** What [from_frames] rejects *)

(** The data-type id and the kind that the identifier setter stores depend on
    the identifier only. *)
Lemma set_message_id_key (self : Transfer) (mid : Z) :
  exists dtid,
    data_type_id (set_message_id self mid) = Some dtid
    /\ data_type_id (set_message_id Transfer_init mid) = Some dtid
    /\ service_not_message (set_message_id self mid)
       = service_not_message (set_message_id Transfer_init mid).
Proof.
  unfold set_message_id. destruct (bool_decide (Z.land mid 128 <> 0)); [by eexists|].
  case_decide; by eexists.
Qed.

Lemma base_crc_no_TransferError (t : dtype) : no_TransferError (base_crc t).
Proof. by destruct t. Qed.

Lemma default_dtid_no_TransferError (t : dtype) : no_TransferError (default_dtid t).
Proof. by destruct t. Qed.

Lemma from_frames_header_TransferError (self : Transfer) (frames : list Frame) :
  frames <> [] -> Forall (fun f => f_bytes f <> []) frames ->
  from_frames_header self frames = Raise TransferError
  <-> tail_discipline_violated frames \/ unregistered frames \/ crc_mismatch frames.
Proof.
  intros Hne Hall. destruct frames as [|f0 rest]; [done|]. clear Hne.
  destruct (last_nonempty _ (Forall_inv Hall)) as [tail0 Htail0].
  remember (f0 :: rest) as frames eqn:Hframes.
  assert (head frames = Some f0) as Hhead by by subst.
  assert (tail_discipline_violated frames
          <-> violations (length frames) (Some (Z.land tail0 0x1F)) 0 frames = true) as Htd.
  { unfold tail_discipline_violated, frame0_tid, transfer_key.
    rewrite Hhead. simpl. rewrite Htail0. simpl. by rewrite violations_spec. }
  assert (check_tails (Z.of_nat (length frames)) (Z.land tail0 0x1F) 0 0 frames
          = if violations (length frames) (Some (Z.land tail0 0x1F)) 0 frames
            then Raise TransferError else Ok tt) as Hct
    by exact (check_tails_violations _ _ _ Hall 0%nat).
  unfold from_frames_header.
  replace (match frames with [] => Raise IndexError | f :: _ => Ok f end) with (Ok f0)
    by by subst.
  cbv beta iota zeta. rewrite Htail0. cbv beta iota. rewrite Hct. clear Hct.
  destruct (violations _ _ _ _); [by split; [left; apply Htd|]|].
  assert (~ tail_discipline_violated frames) as Hnotd by (rewrite Htd; done).
  clear Htd. cbv beta iota.
  match goal with
  | |- context [data_type_id (set_message_id ?s ?m)] =>
      destruct (set_message_id_key s m) as (dtid & -> & Hd0 & ->)
  end.
  cbn [number]. cbv beta iota.
  assert (registry_key frames
          = Some (dtid, if service_not_message (set_message_id Transfer_init (f_message_id f0))
                        then KIND_SERVICE else KIND_MESSAGE)) as Hkey.
  { unfold registry_key. rewrite Hhead. simpl. by rewrite Hd0. }
  destruct (DATATYPES !! _) as [dt|] eqn:Hdt; cbv beta iota.
  2:{ split; [|done]. intros _. right; left. by eexists. }
  assert (~ unregistered frames) as Hreg.
  { intros (key & Hk & Hnone). rewrite Hkey in Hk. injection Hk as <-. congruence. }
  assert (forall key dt', registry_key frames = Some key -> DATATYPES !! key = Some dt'
                          -> dt' = dt) as Hdt'.
  { intros key dt' Hk Hsome. rewrite Hkey in Hk. injection Hk as <-. congruence. }
  case_decide as Hmulti.
  2:{ split; [done|]. intros [?|[?|[? _]]]; done. }
  destruct (join_payload frames) as [|b0 [|b1 bytes]] eqn:Hjoin; cbv beta iota.
  1,2: split; [done|]; intros [?|[?|(_ & ? & ? & ? & ? & ? & ? & _ & _ & _ & ? & _)]];
    [done|done|congruence].
  pose proof (base_crc_no_TransferError dt) as Hcrc.
  destruct (base_crc dt) as [seed|e] eqn:Hseed; cbv beta iota.
  2:{ split; [intros [= ->]; done|].
      intros [?|[?|(_ & key & dt' & seed & ? & ? & ? & Hk & Hsome & Hs & _)]]; try done.
      rewrite (Hdt' _ _ Hk Hsome) in Hs. congruence. }
  case_decide as Hmis; cbv beta iota.
  - split; [|done]. intros _. right; right. split; [done|].
    by exists (dtid, if service_not_message (set_message_id Transfer_init (f_message_id f0))
                     then KIND_SERVICE else KIND_MESSAGE), dt, seed, b0, b1, bytes.
  - split; [done|].
    intros [?|[?|(_ & key & dt' & seed' & b0' & b1' & bytes' & Hk & Hsome & Hs & Hj & Hne)]];
      try done.
    rewrite (Hdt' _ _ Hk Hsome) in Hs. rewrite Hjoin in Hj. injection Hj as <- <- <-.
    exfalso. apply Hne. replace seed' with seed by congruence. done.
Qed.

Lemma from_frames_TransferError_data (self : Transfer) (frames : list Frame) :
  frames <> [] -> Forall (fun f => f_bytes f <> []) frames ->
  from_frames self frames = Raise TransferError
  <-> tail_discipline_violated frames \/ unregistered frames \/ crc_mismatch frames.
Proof.
  intros Hne Hall. rewrite <- (from_frames_header_TransferError self frames Hne Hall).
  unfold from_frames. destruct (from_frames_header self frames) as [h|e];
    [|by split; intros [= ->]].
  split; [|done]. intros Hraise. exfalso. revert Hraise.
  apply no_TransferError_bind; [apply default_dtid_no_TransferError|]. intros dtid _.
  apply no_TransferError_bind; [apply base_crc_no_TransferError|]. intros crc _.
  apply no_TransferError_bind; [apply decode_payload_no_TransferError|done].
Qed.

(** *** Frames without data *)

Lemma check_chain_next (b1 b2 b3 b4 b5 b6 rest_violates : bool)
    (next after : result unit) :
  next = (if rest_violates then Raise TransferError else after) ->
  (if b1 then Raise TransferError
   else if b2 then Raise TransferError
   else if b3 then Raise TransferError
   else if b4 then Raise TransferError
   else if b5 then Raise TransferError
   else if b6 then Raise TransferError
   else next)
  = if b1 || b2 || b3 || b4 || b5 || b6 || rest_violates
    then Raise TransferError else after.
Proof. intros ->. by destruct b1, b2, b3, b4, b5, b6. Qed.

(** The validation loop on frames that all carry data, followed by more
    frames: the first violation stops it, otherwise it goes on with the
    frames that follow. *)
Lemma check_tails_app (n : nat) (etid : Z) (pre rest : list Frame) :
  Forall (fun f => f_bytes f <> []) pre ->
  forall idx,
    check_tails (Z.of_nat n) etid (Z.of_nat idx) (if Nat.odd idx then 0x20 else 0)
      (pre ++ rest)
    = if violations n (Some etid) idx pre then Raise TransferError
      else check_tails (Z.of_nat n) etid (Z.of_nat (idx + length pre))
             (if Nat.odd (idx + length pre) then 0x20 else 0) rest.
Proof.
  induction 1 as [|f pre Hf _ IH]; intros idx.
  { simpl. by rewrite Nat.add_0_r. }
  destruct (last_nonempty _ Hf) as [tail Htail].
  assert (check_tails (Z.of_nat n) etid (Z.of_nat idx + 1)
            (Z.lxor (if Nat.odd idx then 0x20 else 0) 0x20) (pre ++ rest)
          = if violations n (Some etid) (S idx) pre then Raise TransferError
            else check_tails (Z.of_nat n) etid (Z.of_nat (idx + length (f :: pre)))
                   (if Nat.odd (idx + length (f :: pre)) then 0x20 else 0) rest)
    as Hstep.
  { cbn [length]. rewrite Nat.add_succ_r, <- Nat.add_succ_l. rewrite <- IH.
    f_equal; [lia|].
    rewrite Nat.odd_succ, <- Nat.negb_odd. by destruct (Nat.odd idx). }
  rewrite <- app_comm_cons. cbn [check_tails violations]. rewrite Htail.
  rewrite !decide_bool_decide.
  rewrite (check_chain_next _ _ _ _ _ _ _ _ _ Hstep).
  unfold frame_violates, transfer_key, start_of_transfer, end_of_transfer, toggle.
  rewrite Htail. cbn [fmap option_fmap option_map snd].
  rewrite (flag_clear tail 0x80 7), (flag_clear tail 0x40 6) by (done || lia).
  rewrite !flag_set. rewrite toggle_mismatch.
  rewrite (bool_decide_ext (Z.of_nat idx = 0) (idx = 0%nat)) by lia.
  rewrite (bool_decide_ext (Z.of_nat idx > 0) (0 < idx)%nat) by lia.
  rewrite (bool_decide_ext (Z.of_nat idx = Z.of_nat n - 1) (S idx = n)) by lia.
  rewrite (bool_decide_ext (Z.of_nat idx < Z.of_nat n - 1) (S idx < n)%nat) by lia.
  replace (bool_decide (Z.land tail 31 <> etid))
    with (negb (bool_decide (Some (Z.land tail 31) = Some etid))); [done|].
  symmetry. apply bool_decide_iff_true. rewrite negb_true_iff, bool_decide_eq_false.
  split; intros Hne Heq; apply Hne; congruence.
Qed.

(** A frame list is made of frames with data throughout, or has a first
    frame without data. *)
Lemma first_frame_without_data (frames : list Frame) :
  Forall (fun f => f_bytes f <> []) frames
  \/ exists pre e post,
       frames = pre ++ e :: post
       /\ Forall (fun f => f_bytes f <> []) pre
       /\ f_bytes e = [].
Proof.
  induction frames as [|f frames IH]; [by left|].
  destruct (f_bytes f) as [|b bs] eqn:Hf.
  - right. by exists [], f, frames.
  - destruct IH as [Hall|(pre & e & post & -> & Hpre & He)].
    + left. constructor; [by rewrite Hf|done].
    + right. exists (f :: pre), e, post. split; [done|].
      split; [|done]. constructor; [by rewrite Hf|done].
Qed.

(** The header stage on a list whose first frame without data is [e]: the
    loop stops at the first violation before [e], or at [e]. *)
Lemma from_frames_header_without_data (self : Transfer) (pre post : list Frame)
    (e : Frame) :
  Forall (fun f => f_bytes f <> []) pre ->
  f_bytes e = [] ->
  from_frames_header self (pre ++ e :: post)
  = if violations (length (pre ++ e :: post)) (frame0_tid (pre ++ e :: post)) 0 pre
    then Raise TransferError else Raise IndexError.
Proof.
  intros Hpre He. unfold from_frames_header.
  destruct pre as [|f0 pre]; simpl app.
  { cbv beta iota. by rewrite He. }
  destruct (last_nonempty _ (Forall_inv Hpre)) as [tail0 Htail0].
  cbv beta iota zeta. rewrite Htail0. cbv beta iota.
  assert (frame0_tid (f0 :: pre ++ e :: post) = Some (Z.land tail0 0x1F)) as ->.
  { unfold frame0_tid, transfer_key. simpl. by rewrite Htail0. }
  rewrite (app_comm_cons pre (e :: post) f0).
  pose proof (check_tails_app (length ((f0 :: pre) ++ e :: post)) (Z.land tail0 0x1F)
                (f0 :: pre) (e :: post) Hpre 0%nat) as Hct.
  change (Z.of_nat 0) with 0 in Hct.
  change (if Nat.odd 0 then 32 else 0) with 0 in Hct.
  rewrite Hct. destruct (violations _ _ _ _); [done|].
  cbn [check_tails]. by rewrite He.
Qed.

Lemma from_frames_header_error (self : Transfer) (frames : list Frame) (e : exn) :
  from_frames_header self frames = Raise e -> from_frames self frames = Raise e.
Proof. unfold from_frames. by intros ->. Qed.

(** A multi-frame list that passes the loop and names a registered type,
    but carries fewer than the two bytes of the CRC. *)
Lemma from_frames_header_short (self : Transfer) (frames : list Frame) :
  Forall (fun f => f_bytes f <> []) frames ->
  (1 < length frames)%nat ->
  ~ tail_discipline_violated frames ->
  ~ unregistered frames ->
  (length (join_payload frames) < 2)%nat ->
  from_frames_header self frames = Raise IndexError.
Proof.
  intros Hall Hlen Hnotd Hreg Hshort.
  destruct frames as [|f0 rest]; [simpl in Hlen; lia|].
  destruct (last_nonempty _ (Forall_inv Hall)) as [tail0 Htail0].
  remember (f0 :: rest) as frames eqn:Hframes.
  assert (head frames = Some f0) as Hhead by by subst.
  assert (violations (length frames) (Some (Z.land tail0 0x1F)) 0 frames = false) as Hv.
  { apply not_true_is_false. intros Hv. apply Hnotd.
    unfold tail_discipline_violated, frame0_tid, transfer_key.
    rewrite Hhead. simpl. rewrite Htail0. simpl.
    apply violations_spec in Hv as (j & f & Hj & Hf). by exists j, f. }
  pose proof (check_tails_violations _ _ _ Hall 0%nat
              : check_tails (Z.of_nat (length frames)) (Z.land tail0 0x1F) 0 0 frames = _)
    as Hct.
  rewrite Hv in Hct.
  unfold from_frames_header.
  replace (match frames with [] => Raise IndexError | f :: _ => Ok f end) with (Ok f0)
    by by subst.
  cbv beta iota zeta. rewrite Htail0. cbv beta iota. rewrite Hct. cbv beta iota.
  match goal with
  | |- context [data_type_id (set_message_id ?s ?m)] =>
      destruct (set_message_id_key s m) as (dtid & -> & Hd0 & ->)
  end.
  cbn [number]. cbv beta iota.
  destruct (DATATYPES !! _) as [dt|] eqn:Hdt; cbv beta iota.
  2:{ exfalso. apply Hreg. eexists. split; [|exact Hdt].
      unfold registry_key. rewrite Hhead. simpl. by rewrite Hd0. }
  rewrite decide_True by done.
  destruct (join_payload frames) as [|b0 [|b1 bytes]]; [done|done|].
  simpl in Hshort. lia.
Qed.

(** C2, as the code has it, for every frame list.  [from_frames] raises
    [TransferError] if and only if a frame with data breaks the tail-byte
    discipline (transfer id, start and end of transfer, toggle) and no frame
    up to it is without data, or every frame of the non-empty list has data
    and the data type that the identifier of frame 0 names is not registered
    or (multi-frame only) the CRC-16 of the payload differs from its 2-byte
    header.  It raises [IndexError] on the empty list, on a frame without
    data that is reached before any frame breaks the discipline, and on a
    multi-frame list that passes the tail checks and names a registered type
    but carries fewer than 2 payload bytes.  When every frame of a non-empty
    list has data, the first alternative is the claim's: the list breaks the
    tail-byte discipline. *)
Theorem from_frames_TransferError_iff (self : Transfer) (frames : list Frame) :
  (from_frames self frames = Raise TransferError
   <-> (exists idx f,
          frames !! idx = Some f
          /\ Forall (fun g => f_bytes g <> []) (take (S idx) frames)
          /\ frame_violates (length frames) (frame0_tid frames) idx f = true)
       \/ (frames <> []
           /\ Forall (fun g => f_bytes g <> []) frames
           /\ (unregistered frames \/ crc_mismatch frames)))
  /\ (frames = [] -> from_frames self frames = Raise IndexError)
  /\ (forall idx f,
        frames !! idx = Some f ->
        f_bytes f = [] ->
        (forall j g, (j < idx)%nat -> frames !! j = Some g ->
           f_bytes g <> []
           /\ frame_violates (length frames) (frame0_tid frames) j g = false) ->
        from_frames self frames = Raise IndexError)
  /\ (Forall (fun g => f_bytes g <> []) frames ->
      (1 < length frames)%nat ->
      ~ tail_discipline_violated frames ->
      ~ unregistered frames ->
      (length (join_payload frames) < 2)%nat ->
      from_frames self frames = Raise IndexError)
  /\ (frames <> [] ->
      Forall (fun g => f_bytes g <> []) frames ->
      (from_frames self frames = Raise TransferError
       <-> tail_discipline_violated frames \/ unregistered frames \/ crc_mismatch frames)).
Proof.
  split_and!.
  - destruct (first_frame_without_data frames) as [Hall|(pre & e & post & -> & Hpre & He)].
    + destruct frames as [|f0 rest].
      { split; [done|]. intros [(idx & f & Hf & _)|(Hne & _)]; done. }
      rewrite (from_frames_TransferError_data self (f0 :: rest) ltac:(done) Hall).
      split.
      * intros [(idx & f & Hf & Hv)|Hrest].
        -- left. exists idx, f. split; [done|]. split; [by apply Forall_take|done].
        -- right. by split_and!.
      * intros [(idx & f & Hf & _ & Hv)|(_ & _ & Hrest)].
        -- left. by exists idx, f.
        -- by right.
    + pose proof (from_frames_header_without_data self pre post e Hpre He) as Hh.
      set (frames := pre ++ e :: post) in *.
      assert (violations (length frames) (frame0_tid frames) 0 pre = true
              <-> exists idx f,
                    frames !! idx = Some f
                    /\ Forall (fun g => f_bytes g <> []) (take (S idx) frames)
                    /\ frame_violates (length frames) (frame0_tid frames) idx f = true)
        as Hiff.
      { rewrite violations_spec. split.
        - intros (j & f & Hj & Hv). exists j, f.
          pose proof (lookup_lt_Some _ _ _ Hj) as Hlt.
          split; [unfold frames; by rewrite lookup_app_l|].
          split; [|done]. unfold frames. rewrite take_app_le by lia.
          by apply Forall_take.
        - intros (idx & f & Hf & Hdata & Hv).
          destruct (decide (idx < length pre)%nat) as [Hlt|Hge].
          + exists idx, f. split; [|done].
            unfold frames in Hf. by rewrite lookup_app_l in Hf.
          + exfalso. rewrite Forall_forall in Hdata. apply (Hdata e); [|done].
            apply list_elem_of_lookup. exists (length pre).
            rewrite lookup_take_lt by lia. unfold frames.
            by rewrite list_lookup_middle. }
      rewrite <- Hiff. clear Hiff.
      destruct (violations _ _ _ _).
      * rewrite (from_frames_header_error _ _ _ Hh). split; [by left|done].
      * rewrite (from_frames_header_error _ _ _ Hh). split; [done|].
        intros [?|(_ & Hall & _)]; [done|].
        rewrite Forall_forall in Hall. exfalso. apply (Hall e); [|done].
        unfold frames. set_solver.
  - by intros ->.
  - intros idx f Hf He Hbefore.
    rewrite <- (take_drop_middle _ _ _ Hf) in *.
    set (pre := take idx frames) in *. set (post := drop (S idx) frames) in *.
    assert (length pre = idx) as Hpre_len.
    { unfold pre. rewrite length_take. apply lookup_lt_Some in Hf. lia. }
    assert (Forall (fun g => f_bytes g <> []) pre) as Hpre.
    { apply Forall_forall. intros g [j Hj]%list_elem_of_lookup.
      pose proof (lookup_lt_Some _ _ _ Hj) as Hlt.
      apply (Hbefore j g); [lia|]. by rewrite lookup_app_l. }
    apply from_frames_header_error.
    rewrite (from_frames_header_without_data self pre post f Hpre He).
    rewrite (not_true_is_false (violations _ _ 0 pre)); [done|].
    rewrite violations_spec. intros (j & g & Hj & Hv).
    pose proof (lookup_lt_Some _ _ _ Hj) as Hlt.
    destruct (Hbefore j g) as [_ Hno]; [lia|by rewrite lookup_app_l|].
    simpl in Hv. congruence.
  - intros Hall Hlen Hnotd Hreg Hshort.
    by apply from_frames_header_error, from_frames_header_short.
  - apply from_frames_TransferError_data.
Qed.

(** ** Reassembling what [to_frames] emits *)

Lemma length_frames_of (mid tid : Z) (q : list Z) :
  length (frames_of mid tid q) = n_frames (length q).
Proof. unfold frames_of. by rewrite length_fmap, length_seq. Qed.

Lemma frames_of_lookup (mid tid : Z) (q : list Z) (i : nat) (f : Frame) :
  frames_of mid tid q !! i = Some f
  <-> (i < n_frames (length q))%nat /\ f = frame_at mid tid q i.
Proof.
  unfold frames_of. rewrite list_lookup_fmap. split.
  - intros Hi. destruct (seq 0 (n_frames (length q)) !! i) as [j|] eqn:Hj; [|done].
    apply lookup_seq in Hj as [-> ?]. injection Hi as <-. done.
  - intros [Hi ->]. by rewrite lookup_seq_lt.
Qed.

Lemma head_frames_of (mid tid : Z) (q : list Z) :
  exists rest, frames_of mid tid q = frame_at mid tid q 0 :: rest.
Proof.
  unfold frames_of, n_frames.
  destruct (Nat.max 1 ((length q + 6) / 7)) as [|n] eqn:Hn; [lia|]. by eexists.
Qed.

Lemma n_frames_covers (len : nat) : (len <= 7 * n_frames len)%nat.
Proof.
  unfold n_frames.
  pose proof (Nat.div_mod_eq (len + 6) 7).
  pose proof (Nat.mod_upper_bound (len + 6) 7 ltac:(lia)). lia.
Qed.

Lemma concat_chunks (q : list Z) (n : nat) :
  concat ((fun i => slice q (7 * i) (7 * i + 7)) <$> seq 0 n) = take (7 * n) q.
Proof.
  induction n as [|n IH]; [done|].
  rewrite seq_S, fmap_app, concat_app, IH. simpl. rewrite app_nil_r.
  unfold slice. replace (7 * n + 7 - 7 * n)%nat with 7%nat by lia.
  rewrite take_take_drop. f_equal. lia.
Qed.

Lemma join_payload_frames_of (mid tid : Z) (q : list Z) :
  join_payload (frames_of mid tid q) = q.
Proof.
  unfold join_payload, frames_of. rewrite <- list_fmap_compose.
  erewrite list_fmap_ext; [rewrite concat_chunks|].
  - apply take_ge, n_frames_covers.
  - intros _ i _. simpl. rewrite length_app. simpl.
    rewrite Nat.add_sub. by rewrite take_app_length.
Qed.

Lemma frames_of_nonempty (mid tid : Z) (q : list Z) :
  Forall (fun f => f_bytes f <> []) (frames_of mid tid q).
Proof.
  apply Forall_forall. intros f Hf. apply list_elem_of_lookup in Hf as [i Hi].
  apply frames_of_lookup in Hi as [_ ->]. simpl. by intros ?%app_eq_nil%proj2.
Qed.

Lemma frames_of_no_violation (mid tid : Z) (q : list Z) :
  violations (n_frames (length q)) (Some (Z.land tid 0x1F)) 0 (frames_of mid tid q) = false.
Proof.
  apply not_true_is_false. rewrite violations_spec.
  intros (j & f & Hj & Hv). apply frames_of_lookup in Hj as [Hlt ->].
  revert Hv. unfold frame_violates.
  destruct (frame_at_flags mid tid q j) as (-> & -> & -> & ->). simpl.
  repeat case_bool_decide; simpl; (done || lia).
Qed.

Lemma multi_frame_iff (p : list Z) (seed : Z) :
  (1 < n_frames (length (crc_prefixed p seed)))%nat <-> (7 < length p)%nat.
Proof.
  unfold crc_prefixed. case_decide as Hlen.
  - split; [done|]. intros _. rewrite n_frames_long by (simpl; lia).
    unfold n_frames. lia.
  - rewrite n_frames_short by lia. lia.
Qed.

Lemma crc_header_recombines (crc : Z) :
  Z.land crc 0xFF + Z.shiftl (Z.shiftr crc 8) 8 = crc.
Proof.
  change 0xFF with (Z.ones 8). rewrite Z.land_ones, Z.shiftl_mul_pow2, Z.shiftr_div_pow2 by lia.
  change (2 ^ 8) with 256. div_lia.
Qed.

Lemma well_formed_transfer_id (sent : Transfer) :
  well_formed sent = true -> Z.land (transfer_id sent) 0x1F = transfer_id sent.
Proof.
  unfold well_formed. rewrite !andb_true_iff, !bool_decide_eq_true.
  intros [[[_ Htid] _] _]. change 0x1F with (Z.ones 5).
  rewrite Z.land_ones by lia. apply Z.mod_small. lia.
Qed.

(** The header stage of [from_frames] on the frames of a well-formed
    transfer: the tail bytes pass, the registered type is found, the CRC
    header (when there is one) matches, and the payload bytes come back. *)
Lemma from_frames_header_frames_of (sent self : Transfer) (p : list Z) (dtid seed mid : Z)
    (dt : dtype) :
  well_formed sent = true ->
  data_type_id sent = Some dtid ->
  DATATYPES !! (dtid, kind_of sent) = Some dt ->
  base_crc dt = Ok seed ->
  (forall s, same_header sent s (set_message_id s mid)) ->
  exists h,
    from_frames_header self (frames_of mid (transfer_id sent) (crc_prefixed p seed))
    = Ok (h, p, dt)
    /\ transfer_id h = transfer_id sent
    /\ transfer_priority h = transfer_priority sent
    /\ source_node_id h = source_node_id sent
    /\ service_not_message h = service_not_message sent
    /\ (service_not_message sent = true ->
        dest_node_id h = dest_node_id sent
        /\ request_not_response h = request_not_response sent).
Proof.
  intros Hwf Hdtid Hreg Hseed Hsame.
  pose proof (well_formed_transfer_id sent Hwf) as Htid.
  set (tid := transfer_id sent) in *. set (q := crc_prefixed p seed).
  set (frames := frames_of mid tid q).
  set (tail0 := tail_byte (bool_decide (0 = 0)%nat) (bool_decide (1 = n_frames (length q))%nat)
                  (Nat.odd 0) tid).
  assert (last (f_bytes (frame_at mid tid q 0)) = Some tail0) as Htail0
    by (unfold frame_at; simpl; by rewrite last_snoc).
  assert (check_tails (Z.of_nat (length frames)) (Z.land tail0 0x1F) 0 0 frames = Ok tt) as Hct.
  { unfold tail0. rewrite land_tail_byte_1F. unfold frames. rewrite length_frames_of.
    pose proof (check_tails_violations (n_frames (length q)) (Z.land tid 0x1F) _
                  (frames_of_nonempty mid tid q) 0%nat) as H.
    rewrite frames_of_no_violation in H. exact H. }
  unfold from_frames_header. fold q. fold frames.
  replace (match frames with [] => Raise IndexError | f :: _ => Ok f end)
    with (Ok (frame_at mid tid q 0))
    by (unfold frames; by destruct (head_frames_of mid tid q) as [? ->]).
  cbv beta iota zeta. rewrite Htail0. cbv beta iota. rewrite Hct. cbv beta iota.
  change (f_message_id (frame_at mid tid q 0)) with mid.
  match goal with
  | |- context [set_message_id ?s mid] =>
      set (s0 := s);
      destruct (Hsame s0) as (Hpri & Hsnm & Hsrc & Hdt & Hsvc & _ & Hid & _)
  end.
  rewrite Hdt, Hdtid. cbn [number]. rewrite Hsnm. fold (kind_of sent). rewrite Hreg.
  cbv beta iota. unfold frames. rewrite join_payload_frames_of, length_frames_of.
  assert (transfer_id (set_message_id s0 mid) = tid) as Hid'.
  { rewrite Hid. unfold s0, tail0. simpl. by rewrite land_tail_byte_1F. }
  case_decide as Hmulti.
  - apply multi_frame_iff in Hmulti. unfold q, crc_prefixed.
    rewrite decide_True by done. cbn [app]. rewrite Hseed. cbv beta iota.
    rewrite crc_header_recombines. rewrite decide_False by (intros H; by apply H).
    eexists. split; [reflexivity|]. by split_and!.
  - assert (~ (7 < length p)%nat) as Hshort
      by (intros H; apply Hmulti; by apply multi_frame_iff).
    unfold q, crc_prefixed. rewrite decide_False by done.
    eexists. split; [reflexivity|]. by split_and!.
Qed.

(** For a well-formed transfer of a registered type, [to_frames] returns a
    frame list from which [from_frames] rebuilds the header of the transfer:
    the same transfer id, priority, source node, kind, data-type id and, for
    a service, destination node and direction; the payload is the value that
    the registered type decodes from the very payload bytes that were sent.
    It holds for a payload of at most 7 bytes (one frame, no CRC) and for a
    longer one (several frames, CRC seeded by the type's [base_crc]). *)
Lemma from_frames_to_frames_decoded (sent self : Transfer) (p : list Z)
    (dtid seed : Z) (dt : dtype) (v : value) :
  well_formed sent = true ->
  payload sent = PayloadBytes p ->
  data_type_id sent = Some dtid ->
  DATATYPES !! (dtid, kind_of sent) = Some dt ->
  default_dtid dt = Ok dtid ->
  base_crc dt = Ok seed ->
  ((7 < length p)%nat -> data_type_crc sent = Some seed) ->
  decode_payload dt (mode_of sent) p = Ok v ->
  exists frames received,
    to_frames sent = Ok frames
    /\ length frames = (if decide (7 < length p)%nat then n_frames (length p + 2) else 1%nat)
    /\ from_frames self frames = Ok received
    /\ transfer_id received = transfer_id sent
    /\ transfer_priority received = transfer_priority sent
    /\ source_node_id received = source_node_id sent
    /\ service_not_message received = service_not_message sent
    /\ (service_not_message sent = true ->
        dest_node_id received = dest_node_id sent
        /\ request_not_response received = request_not_response sent)
    /\ data_type_id received = data_type_id sent
    /\ data_type_crc received = Some seed
    /\ payload received = PayloadValue v.
Proof.
  intros Hwf Hp Hdtid Hreg Hdd Hseed Hcrc Hdec.
  destruct (message_id_roundtrip sent Hwf) as (mid & Hmid & Hsame).
  destruct (from_frames_header_frames_of sent self p dtid seed mid dt Hwf Hdtid Hreg Hseed Hsame)
    as (h & Hh & Hid & Hpri & Hsrc & Hsnm & Hsvc).
  exists (frames_of mid (transfer_id sent) (crc_prefixed p seed)).
  assert ((if service_not_message h
           then Some (if request_not_response h then ModeRequest else ModeResponse)
           else None) = mode_of sent) as Hmode.
  { unfold mode_of. rewrite Hsnm. destruct (service_not_message sent); [|done].
    by rewrite (proj2 (Hsvc eq_refl)). }
  unfold from_frames. rewrite Hh. cbv beta iota zeta. cbn [fst snd].
  rewrite Hdd, Hseed. cbv beta iota. rewrite Hmode, Hdec. cbv beta iota.
  eexists. split; [by apply to_frames_eq|].
  split.
  { rewrite length_frames_of. unfold crc_prefixed. case_decide as Hlen.
    - simpl. f_equal. f_equal. lia.
    - apply n_frames_short. lia. }
  split; [reflexivity|]. simpl. by rewrite Hdtid.
Qed.

(** ** The reassembly table *)

Section DictFacts.
Context {K V : Type} `{EqDecision K}.

Lemma dict_keys_set (k : K) (v : V) (d : list (K * V)) :
  dict_keys (dict_set k v d) = keys_set k (dict_keys d).
Proof.
  induction d as [|[k' v'] d IH]; simpl; [done|].
  destruct (decide (k' = k)); simpl; [done|]. f_equal. apply IH.
Qed.

Lemma dict_keys_del (k : K) (d : list (K * V)) :
  dict_keys (dict_del k d) = keys_del k (dict_keys d).
Proof.
  induction d as [|[k' v'] d IH]; simpl; [done|].
  destruct (decide (k' = k)); simpl; [done|]. f_equal. apply IH.
Qed.

Lemma dict_get_is_Some (k : K) (d : list (K * V)) :
  is_Some (dict_get k d) <-> k ∈ dict_keys d.
Proof.
  induction d as [|[k' v'] d IH]; simpl.
  - split; [by intros [? ?]|by intros ?%elem_of_nil].
  - destruct (decide (k' = k)) as [->|Hne].
    + split; [intros _; left|eauto].
    + rewrite IH. split; [by right|].
      intros [?|?]%elem_of_cons; [congruence|done].
Qed.

End DictFacts.

Lemma receive_frame_keys_agree now frame self :
  keys_agree self -> keys_agree (receive_frame now frame self).2.
Proof.
  unfold keys_agree, receive_frame. intros Hk.
  destruct (dict_has _ _ || start_of_transfer frame); [|done].
  destruct (end_of_transfer frame); simpl;
    rewrite ?dict_keys_del, !dict_keys_set, Hk; done.
Qed.

Lemma sweep_keys_agree live_view t timeout transfer_keys self :
  keys_agree self -> keys_agree (sweep live_view t timeout transfer_keys self).2.
Proof.
  revert self. induction transfer_keys as [|key rest IH]; intros self Hk; simpl; [done|].
  destruct (dict_get key (active_transfer_timestamps self)); [|done].
  destruct (timeout_exceeded t t0 timeout); [|by apply IH].
  assert (keys_agree
            {| active_transfers := dict_del key (active_transfers self);
               active_transfer_timestamps :=
                 dict_del key (active_transfer_timestamps self) |}) as Hk'.
  { unfold keys_agree in *. simpl. by rewrite !dict_keys_del, Hk. }
  destruct live_view; [done|by apply IH].
Qed.

(** C7: a frame without start-of-transfer whose transfer key has no bucket
    is dropped: [receive_frame] returns nothing and the manager (bucket map
    and timestamp map) is left as it was. *)
Theorem receive_frame_drops_orphan now frame self :
  start_of_transfer frame = false ->
  dict_get (transfer_key frame) (active_transfers self) = None ->
  receive_frame now frame self = (None, self).
Proof.
  intros Hsot Hget. unfold receive_frame, dict_has.
  rewrite Hget, Hsot.
  rewrite bool_decide_eq_false_2; [done|].
  by intros [? ?].
Qed.

(** C10: in every state of a manager reachable from the initial one by
    calls of [receive_frame] and [remove_inactive_transfers] (under either
    reading of [keys()], and whether or not the call raised), the bucket map
    and the timestamp map have the same keys: the key lists are equal, hence
    a key has a bucket exactly when it has a timestamp. *)
Theorem manager_maps_share_keys self :
  reachable self ->
  dict_keys (active_transfers self) = dict_keys (active_transfer_timestamps self)
  /\ (forall key, is_Some (dict_get key (active_transfers self))
                  <-> is_Some (dict_get key (active_transfer_timestamps self))).
Proof.
  intros Hr.
  assert (keys_agree self) as Hk.
  { induction Hr as [|now frame self _ IH|live_view t timeout self _ IH].
    - done.
    - by apply receive_frame_keys_agree.
    - by apply sweep_keys_agree. }
  split; [exact Hk|].
  intros key. rewrite !dict_get_is_Some. unfold keys_agree in Hk. by rewrite Hk.
Qed.

(** ** The CAN transport: node-id assignment *)

(** C9, as the code has it: with a node id already set the call fails with
    [InvalidTransportConfigurationError] and changes nothing; with none set
    and an argument outside [0..NODE_ID_MASK] it fails with [ValueError] and
    changes nothing; with none set and an argument in range the id is stored
    and readable through [local_node_id] (the outcome of the call is that of
    enabling retransmission on the media), and any later call fails with
    [InvalidTransportConfigurationError], leaving the id in place. *)
Theorem set_local_node_id_once (node_id : Z) (self : CANTransport) :
  (forall n, _local_node_id self = Some n ->
     set_local_node_id node_id self = (Raise InvalidTransportConfigurationError, self))
  /\ (_local_node_id self = None -> ~ (0 <= node_id <= NODE_ID_MASK) ->
      set_local_node_id node_id self = (Raise ValueError, self))
  /\ (_local_node_id self = None -> 0 <= node_id <= NODE_ID_MASK ->
      let self' := (set_local_node_id node_id self).2 in
      (set_local_node_id node_id self).1 = (enable_automatic_retransmission (_media self)).1
      /\ local_node_id self' = Some node_id
      /\ forall again,
           set_local_node_id again self' = (Raise InvalidTransportConfigurationError, self')).
Proof.
  unfold set_local_node_id, local_node_id. split_and!.
  - intros n ->. done.
  - intros -> Hout. by rewrite decide_False.
  - intros -> Hin. rewrite decide_True by done. simpl. done.
Qed.

(** * Further properties *)

(** ** Binary numerals *)

Lemma bits_value_foldl (s : list bool) (a : Z) :
  foldl (fun acc (b : bool) => 2 * acc + (if b then 1 else 0)) a s
  = a * 2 ^ Z.of_nat (length s) + bits_value s.
Proof.
  unfold bits_value. revert a. induction s as [|b s IH]; intros a.
  - simpl. lia.
  - cbn [foldl length]. rewrite IH, (IH (2 * 0 + _)).
    rewrite Nat2Z.inj_succ, Z.pow_succ_r by lia. lia.
Qed.

Lemma bits_value_cons (b : bool) (s : list bool) :
  bits_value (b :: s) = (if b then 1 else 0) * 2 ^ Z.of_nat (length s) + bits_value s.
Proof. unfold bits_value at 1. cbn [foldl]. rewrite bits_value_foldl. lia. Qed.

Lemma bits_value_app (s1 s2 : list bool) :
  bits_value (s1 ++ s2) = bits_value s1 * 2 ^ Z.of_nat (length s2) + bits_value s2.
Proof.
  unfold bits_value at 1. rewrite foldl_app. fold (bits_value s1).
  apply bits_value_foldl.
Qed.

Lemma bits_value_range (s : list bool) : 0 <= bits_value s < 2 ^ Z.of_nat (length s).
Proof.
  induction s as [|b s IH]; [done|].
  rewrite bits_value_cons. cbn [length]. rewrite Nat2Z.inj_succ, Z.pow_succ_r by lia.
  destruct b; lia.
Qed.

Lemma bits_value_zeros (n : nat) : bits_value (replicate n false) = 0.
Proof.
  induction n as [|n IH]; [done|]. cbn [replicate]. rewrite bits_value_cons, IH. lia.
Qed.

Lemma bits_value_pos_digits (p : positive) : bits_value (pos_digits p) = Z.pos p.
Proof.
  induction p as [q IH|q IH|]; cbn [pos_digits]; [| |done];
    rewrite bits_value_app, IH; cbn; lia.
Qed.

Lemma bits_value_format_b (width : nat) (n : Z) :
  0 <= n -> bits_value (format_b width n) = n.
Proof.
  intros Hn. unfold format_b. rewrite bits_value_app, bits_value_zeros.
  destruct n as [|p|p]; [done| |lia]. simpl. apply bits_value_pos_digits.
Qed.

Lemma length_pos_digits (p : positive) (n : nat) :
  Z.pos p < 2 ^ Z.of_nat n -> (length (pos_digits p) <= n)%nat.
Proof.
  revert n. induction p as [q IH|q IH|]; intros n Hlt; cbn [pos_digits].
  - destruct n as [|n]; [simpl in Hlt; lia|].
    rewrite Nat2Z.inj_succ, Z.pow_succ_r in Hlt by lia.
    rewrite length_app. simpl. specialize (IH n). lia.
  - destruct n as [|n]; [simpl in Hlt; lia|].
    rewrite Nat2Z.inj_succ, Z.pow_succ_r in Hlt by lia.
    rewrite length_app. simpl. specialize (IH n). lia.
  - destruct n as [|n]; [simpl in Hlt; lia|]. simpl. lia.
Qed.

Lemma length_format_b (width : nat) (n : Z) :
  (0 < width)%nat -> 0 <= n < 2 ^ Z.of_nat width -> length (format_b width n) = width.
Proof.
  intros Hw Hn. unfold format_b. rewrite length_app, length_replicate.
  destruct n as [|p|p]; [simpl; lia| |lia].
  pose proof (length_pos_digits p width ltac:(lia)). simpl. lia.
Qed.

Lemma bits_value_inj (s1 s2 : list bool) :
  length s1 = length s2 -> bits_value s1 = bits_value s2 -> s1 = s2.
Proof.
  revert s2. induction s1 as [|b1 s1 IH]; intros [|b2 s2] Hlen Hv; try done.
  injection Hlen as Hlen. rewrite !bits_value_cons, Hlen in Hv.
  pose proof (bits_value_range s1). pose proof (bits_value_range s2).
  rewrite Hlen in *.
  destruct b1, b2; try (f_equal; apply IH; [done|lia]); lia.
Qed.

Lemma format_b_bits_value (s : list bool) :
  s <> [] -> format_b (length s) (bits_value s) = s.
Proof.
  intros Hs. pose proof (bits_value_range s) as Hr.
  assert (0 < length s)%nat as Hlen by (destruct s; [done|simpl; lia]).
  apply bits_value_inj.
  - by apply length_format_b.
  - apply bits_value_format_b. lia.
Qed.

(** ** Chunks of eight bits *)

Lemma range_step_0 : range_step 0 8 = [].
Proof. done. Qed.

Lemma range_step_short (n : nat) : (0 < n <= 8)%nat -> range_step n 8 = [0%nat].
Proof.
  intros Hn. unfold range_step.
  replace ((n + 8 - 1) / 8)%nat with 1%nat; [done|].
  apply Nat.div_unique with (r := (n - 1)%nat); lia.
Qed.

Lemma range_step_add (n : nat) :
  range_step (8 + n) 8 = 0%nat :: ((fun i => (8 + i)%nat) <$> range_step n 8).
Proof.
  unfold range_step.
  replace ((8 + n + 8 - 1) / 8)%nat with (S ((n + 8 - 1) / 8)).
  - cbn [seq fmap list_fmap]. f_equal. rewrite <- fmap_S_seq, <- !list_fmap_compose.
    apply list_fmap_ext. intros _ k _. simpl. lia.
  - replace (8 + n + 8 - 1)%nat with (1 * 8 + (n + 8 - 1))%nat by lia.
    rewrite Nat.div_add_l by lia. lia.
Qed.

Lemma chunk_ind (P : list bool -> Prop) :
  P [] ->
  (forall s, (0 < length s < 8)%nat -> P s) ->
  (forall c s, length c = 8%nat -> P s -> P (c ++ s)) ->
  forall s, P s.
Proof.
  intros Hnil Hshort Hstep s.
  remember (length s) as n eqn:Hn. revert s Hn.
  induction n as [n IH] using lt_wf_ind. intros s ->.
  destruct (decide (length s = 0)%nat) as [Hz|Hnz].
  - by destruct s.
  - destruct (decide (length s < 8)%nat) as [Hlt|Hge]; [apply Hshort; lia|].
    rewrite <- (take_drop 8 s). apply Hstep.
    + rewrite length_take. lia.
    + apply (IH (length (drop 8 s))); [rewrite length_drop; lia|done].
Qed.

Lemma chunk_back_ind (P : list bool -> Prop) :
  P [] ->
  (forall s, (0 < length s < 8)%nat -> P s) ->
  (forall c s, length c = 8%nat -> P s -> P (s ++ c)) ->
  forall s, P s.
Proof.
  intros Hnil Hshort Hstep s.
  remember (length s) as n eqn:Hn. revert s Hn.
  induction n as [n IH] using lt_wf_ind. intros s ->.
  destruct (decide (length s = 0)%nat) as [Hz|Hnz].
  - by destruct s.
  - destruct (decide (length s < 8)%nat) as [Hlt|Hge]; [apply Hshort; lia|].
    rewrite <- (take_drop (length s - 8) s). apply Hstep.
    + rewrite length_drop. lia.
    + apply (IH (length (take (length s - 8) s))); [rewrite length_take; lia|done].
Qed.

Lemma take_drop_eq {A} (s : list A) (a b a' b' : nat) :
  a = a' -> b = b' -> take a (drop b s) = take a' (drop b' s).
Proof. by intros -> ->. Qed.

Lemma chunks_front_nil : chunks_front [] = [].
Proof. done. Qed.

Lemma chunks_front_short (s : list bool) :
  (0 < length s <= 8)%nat -> chunks_front s = [s].
Proof.
  intros Hs. unfold chunks_front. rewrite range_step_short by done.
  cbn. unfold slice. rewrite drop_0. by rewrite take_ge by lia.
Qed.

Lemma chunks_front_app (c s : list bool) :
  length c = 8%nat -> chunks_front (c ++ s) = c :: chunks_front s.
Proof.
  intros Hc. unfold chunks_front. rewrite length_app, Hc, range_step_add.
  cbn [fmap list_fmap]. f_equal.
  - unfold slice. rewrite drop_0. simpl. by rewrite take_app_length' by done.
  - rewrite <- list_fmap_compose. apply list_fmap_ext. intros _ i _. simpl.
    unfold slice. rewrite drop_app_ge by lia. rewrite Hc.
    apply take_drop_eq; lia.
Qed.

Lemma chunks_back_nil : chunks_back [] = [].
Proof. done. Qed.

Lemma chunks_back_short (s : list bool) :
  (0 < length s <= 8)%nat -> chunks_back s = [s].
Proof.
  intros Hs. unfold chunks_back. rewrite range_step_short by done.
  cbn. unfold slice. rewrite Nat.sub_0_r.
  replace (length s - 8)%nat with 0%nat by lia. rewrite drop_0.
  by rewrite take_ge by lia.
Qed.

Lemma chunks_back_app (c s : list bool) :
  length c = 8%nat -> chunks_back (s ++ c) = c :: chunks_back s.
Proof.
  intros Hc. unfold chunks_back. rewrite length_app, Hc.
  replace (length s + 8)%nat with (8 + length s)%nat by lia.
  rewrite range_step_add. cbn [fmap list_fmap]. f_equal.
  - unfold slice. rewrite Nat.sub_0_r.
    replace (8 + length s - 8)%nat with (length s) by lia.
    rewrite drop_app_length. by rewrite take_ge by lia.
  - rewrite <- !list_fmap_compose. apply list_fmap_ext.
    intros j i Hi. simpl.
    apply list_elem_of_lookup_2, range_step_lt in Hi.
    unfold slice.
    replace (8 + length s - (8 + i))%nat with (length s - i)%nat by lia.
    rewrite drop_app_le by lia.
    rewrite take_app_le by (rewrite length_drop; lia).
    apply take_drop_eq; lia.
Qed.

Lemma concat_chunks_front (s : list bool) : concat (chunks_front s) = s.
Proof.
  induction s as [|s Hs|c s Hc IH] using chunk_ind.
  - done.
  - rewrite chunks_front_short by lia. simpl. apply app_nil_r.
  - rewrite chunks_front_app by done. simpl. by rewrite IH.
Qed.

Lemma concat_reverse_chunks_back (s : list bool) : concat (reverse (chunks_back s)) = s.
Proof.
  induction s as [|s Hs|c s Hc IH] using chunk_back_ind.
  - done.
  - rewrite chunks_back_short by lia. simpl. apply app_nil_r.
  - rewrite chunks_back_app by done.
    rewrite reverse_cons, concat_app, IH. simpl. by rewrite app_nil_r.
Qed.

Lemma chunks_back_reverse_front (s : list bool) :
  chunks_back (concat (reverse (chunks_front s))) = chunks_front s.
Proof.
  induction s as [|s Hs|c s Hc IH] using chunk_ind.
  - done.
  - rewrite chunks_front_short by lia. simpl. rewrite app_nil_r.
    apply chunks_back_short. lia.
  - rewrite chunks_front_app by done.
    rewrite reverse_cons, concat_app. simpl. rewrite app_nil_r.
    rewrite chunks_back_app by done. by rewrite IH.
Qed.

Lemma chunks_front_concat_back (s : list bool) :
  chunks_front (concat (chunks_back s)) = chunks_back s.
Proof.
  induction s as [|s Hs|c s Hc IH] using chunk_back_ind.
  - done.
  - rewrite chunks_back_short by lia. simpl. rewrite app_nil_r.
    apply chunks_front_short. lia.
  - rewrite chunks_back_app by done. simpl.
    rewrite chunks_front_app by done. by rewrite IH.
Qed.

Lemma length_concat_reverse {A} (l : list (list A)) :
  length (concat (reverse l)) = length (concat l).
Proof.
  induction l as [|x l IH]; [done|].
  rewrite reverse_cons, concat_app, length_app, IH. simpl.
  rewrite !length_app. simpl. lia.
Qed.

(** ** Bytes and bit strings *)

Lemma bytes_msb_first_chunks (s : list bool) :
  bytes_msb_first s = bits_value <$> chunks_front s.
Proof. unfold bytes_msb_first, chunks_front. by rewrite <- list_fmap_compose. Qed.

Lemma length_format_b_8 (c : Z) : 0 <= c <= 255 -> length (format_b 8 c) = 8%nat.
Proof. intros Hc. apply length_format_b; [lia|]. change (2 ^ Z.of_nat 8) with 256. lia. Qed.

Lemma length_bits_from_bytes (b : list Z) :
  Forall (fun c => 0 <= c <= 255) b -> length (bits_from_bytes b) = (8 * length b)%nat.
Proof.
  unfold bits_from_bytes. induction 1 as [|c b Hc _ IH]; [done|].
  cbn [fmap list_fmap concat length]. rewrite length_app, IH, length_format_b_8 by done. lia.
Qed.

Lemma chunks_front_range (s : list bool) :
  Forall (fun c => (0 < length c <= 8)%nat) (chunks_front s).
Proof.
  induction s as [|s Hs|c s Hc IH] using chunk_ind.
  - constructor.
  - rewrite chunks_front_short by lia. constructor; [lia|constructor].
  - rewrite chunks_front_app by done. constructor; [lia|done].
Qed.

(** X1: [bytes_from_bits(bits_from_bytes(b)) == b]: a byte string comes back from
    its bit string, which has 8 bits per byte. *)
Theorem bytes_from_bits_of_bits_from_bytes (b : list Z) :
  Forall (fun c => 0 <= c <= 255) b ->
  length (bits_from_bytes b) = (8 * length b)%nat
  /\ bytes_from_bits (bits_from_bytes b) = Ok b.
Proof.
  intros Hb. split; [by apply length_bits_from_bytes|].
  rewrite bytes_from_bits_total, bytes_msb_first_chunks. f_equal.
  unfold bits_from_bytes. induction Hb as [|c b Hc _ IH]; [done|].
  cbn [fmap list_fmap concat].
  rewrite chunks_front_app by by apply length_format_b_8.
  cbn [fmap list_fmap]. rewrite IH. f_equal. apply bits_value_format_b. lia.
Qed.

(** X2: [bits_from_bytes(bytes_from_bits(s)) == s] exactly when [s] is made of
    whole bytes: a last chunk of fewer than 8 bits comes back zero-filled on
    the left. *)
Theorem bits_from_bytes_of_bytes_from_bits (s : list bool) :
  exists b, bytes_from_bits s = Ok b
            /\ Forall (fun c => 0 <= c <= 255) b
            /\ (bits_from_bytes b = s <-> (length s mod 8 = 0)%nat).
Proof.
  exists (bytes_msb_first s). split; [apply bytes_from_bits_total|].
  assert (Forall (fun c => 0 <= c <= 255) (bytes_msb_first s)) as Hrange.
  { rewrite bytes_msb_first_chunks. apply Forall_fmap.
    eapply Forall_impl; [apply chunks_front_range|]. intros c Hc. simpl in *.
    pose proof (bits_value_range c) as Hv.
    assert (2 ^ Z.of_nat (length c) <= 2 ^ 8) as Hp by (apply Z.pow_le_mono_r; lia).
    change (2 ^ 8) with 256 in Hp. lia. }
  split; [done|]. split.
  - intros Heq. apply (f_equal length) in Heq.
    rewrite length_bits_from_bytes in Heq by done. rewrite <- Heq.
    by rewrite Nat.mul_comm, Nat.Div0.mod_mul.
  - clear Hrange. rewrite bytes_msb_first_chunks. unfold bits_from_bytes.
    induction s as [|s Hs|c s Hc IH] using chunk_ind.
    + done.
    + intros Hmod. rewrite Nat.mod_small in Hmod by lia. lia.
    + intros Hmod. rewrite chunks_front_app by done. cbn [fmap list_fmap concat].
      rewrite IH.
      * f_equal. rewrite <- Hc. apply format_b_bits_value. by destruct c.
      * rewrite length_app, Hc in Hmod.
        replace (8 + length s)%nat with (length s + 1 * 8)%nat in Hmod by lia.
        by rewrite Nat.Div0.mod_add in Hmod.
Qed.

(** ** Byte order *)

Lemma be_from_le_bits_eq (s : list bool) (bitlen : nat) :
  (bitlen <= length s)%nat ->
  be_from_le_bits s bitlen = Ok (concat (reverse (chunks_front (take bitlen s)))).
Proof.
  intros Hlen. unfold be_from_le_bits. rewrite decide_False by lia.
  case_decide as Hlt.
  - unfold slice. by rewrite drop_0, Nat.sub_0_r.
  - by rewrite take_ge by lia.
Qed.

Lemma le_from_be_bits_eq (s : list bool) (bitlen : nat) :
  (bitlen <= length s)%nat ->
  le_from_be_bits s bitlen = Ok (concat (chunks_back (drop (length s - bitlen) s))).
Proof.
  intros Hlen. unfold le_from_be_bits. rewrite decide_False by lia.
  case_decide as Hlt.
  - unfold slice. rewrite take_ge; [done|]. rewrite length_drop. lia.
  - by replace (length s - bitlen)%nat with 0%nat by lia.
Qed.

Lemma length_be_chunks (s : list bool) :
  length (concat (reverse (chunks_front s))) = length s.
Proof. by rewrite length_concat_reverse, concat_chunks_front. Qed.

Lemma length_le_chunks (s : list bool) : length (concat (chunks_back s)) = length s.
Proof.
  rewrite <- length_concat_reverse, concat_reverse_chunks_back. done.
Qed.

(** X3: Both byte-order conversions raise [ValueError] exactly when the string
    is shorter than [bitlen]; otherwise they return [bitlen] bits, the
    little-to-big one working on the first [bitlen] bits of the string and
    the big-to-little one on the last [bitlen] bits. *)
Theorem byte_order_conversions_length (s : list bool) (bitlen : nat) :
  ((length s < bitlen)%nat ->
     be_from_le_bits s bitlen = Raise ValueError
     /\ le_from_be_bits s bitlen = Raise ValueError)
  /\ ((bitlen <= length s)%nat ->
      exists be le,
        be_from_le_bits s bitlen = Ok be
        /\ le_from_be_bits s bitlen = Ok le
        /\ length be = bitlen /\ length le = bitlen
        /\ be_from_le_bits (take bitlen s) bitlen = Ok be
        /\ le_from_be_bits (drop (length s - bitlen) s) bitlen = Ok le).
Proof.
  split.
  - intros Hlt. unfold be_from_le_bits, le_from_be_bits. by rewrite !decide_True by done.
  - intros Hle. eexists _, _.
    split; [by apply be_from_le_bits_eq|]. split; [by apply le_from_be_bits_eq|].
    split; [rewrite length_be_chunks, length_take; lia|].
    split; [rewrite length_le_chunks, length_drop; lia|].
    split.
    + rewrite be_from_le_bits_eq by (rewrite length_take; lia).
      by rewrite take_take, Nat.min_id.
    + rewrite le_from_be_bits_eq by (rewrite length_drop; lia).
      rewrite length_drop.
      replace (length s - (length s - bitlen) - bitlen)%nat with 0%nat by lia. done.
Qed.

(** X4: The two byte-order conversions undo each other on a string of [bitlen]
    bits, whole bytes or not. *)
Theorem byte_order_conversions_inverse (s : list bool) (bitlen : nat) :
  length s = bitlen ->
  (exists be, be_from_le_bits s bitlen = Ok be /\ le_from_be_bits be bitlen = Ok s)
  /\ (exists le, le_from_be_bits s bitlen = Ok le /\ be_from_le_bits le bitlen = Ok s).
Proof.
  intros <-. split.
  - eexists. split; [apply be_from_le_bits_eq; lia|].
    rewrite take_ge by lia.
    rewrite le_from_be_bits_eq by (rewrite length_be_chunks; lia).
    rewrite length_be_chunks, Nat.sub_diag, drop_0.
    by rewrite chunks_back_reverse_front, concat_chunks_front.
  - eexists. split; [apply le_from_be_bits_eq; lia|].
    rewrite Nat.sub_diag, drop_0.
    rewrite be_from_le_bits_eq by (rewrite length_le_chunks; lia).
    rewrite take_ge by (rewrite length_le_chunks; lia).
    by rewrite chunks_front_concat_back, concat_reverse_chunks_back.
Qed.

(** ** Serialising values and reading them back *)

Lemma pack_static (max_size : nat) (tao : bool) item_ctor items :
  pack (ArrayValue MODE_STATIC max_size tao item_ctor items)
  = (packed <- pack_items items ;;
     if decide (length items < max_size)%nat then
       empty_item <- item_ctor ;;
       e <- pack empty_item ;;
       Ok (packed ++ concat (replicate (max_size - length items) e))
     else Ok packed).
Proof. simpl. by rewrite pack_items_eq. Qed.

Lemma unpack_static_eq (l : list value) :
  forall n stream,
    (fix unpack_static (l : list value) (n : nat) (stream : list bool)
       {struct l} : result (list value * list bool) :=
       match n with
       | O => Ok (l, stream)
       | S n' =>
           match l with
           | [] => Raise IndexError
           | i :: l' =>
               r1 <- unpack i stream ;;
               r2 <- unpack_static l' n' r1.2 ;;
               Ok (r1.1 :: r2.1, r2.2)
           end
       end) l n stream = unpack_static l n stream.
Proof.
  induction l as [|i l IH]; intros [|n] stream; simpl; done.
Qed.

Lemma unpack_static_array (max_size : nat) (tao : bool) item_ctor items stream :
  unpack (ArrayValue MODE_STATIC max_size tao item_ctor items) stream
  = (r <- unpack_static items max_size stream ;;
     Ok (ArrayValue MODE_STATIC max_size tao item_ctor r.1, r.2)).
Proof. simpl. by rewrite unpack_static_eq. Qed.

Lemma pack_fields_eq (l : list (string * value)) :
  (fix pack_fields (l : list (string * value)) : result (list bool) :=
     match l with
     | [] => Ok []
     | (_, fv) :: l' => b <- pack fv ;; bs <- pack_fields l' ;; Ok (b ++ bs)
     end) l = pack_fields l.
Proof. induction l as [|[k fv] l IH]; simpl; [done|]. by rewrite IH. Qed.

Lemma unpack_fields_eq (l : list (string * value)) :
  forall stream,
    (fix unpack_fields (l : list (string * value)) (stream : list bool)
       : result (list (string * value) * list bool) :=
       match l with
       | [] => Ok ([], stream)
       | (k, fv) :: l' =>
           r1 <- unpack fv stream ;;
           r2 <- unpack_fields l' r1.2 ;;
           Ok ((k, r1.1) :: r2.1, r2.2)
       end) l stream = unpack_fields l stream.
Proof.
  induction l as [|[k fv] l IH]; intros stream; simpl; [done|].
  destruct (unpack fv stream) as [r1|e]; [|done]. by rewrite IH.
Qed.

Lemma pack_field_eq (field : string) (l : list (string * value)) :
  (fix pack_field (l : list (string * value)) : result (list bool) :=
     match l with
     | [] => Raise KeyError
     | (k, fv) :: l' => if decide (k = field) then pack fv else pack_field l'
     end) l = pack_field field l.
Proof. induction l as [|[k fv] l IH]; simpl; [done|]. by rewrite IH. Qed.

Lemma unpack_field_eq (key : string) (stream : list bool) (l : list (string * value)) :
  (fix unpack_field (l : list (string * value))
     : result (list (string * value) * list bool) :=
     match l with
     | [] => Raise KeyError
     | (k, fv) :: l' =>
         if decide (k = key) then
           r1 <- unpack fv stream ;;
           Ok ((k, r1.1) :: l', r1.2)
         else
           r2 <- unpack_field l' ;;
           Ok ((k, fv) :: r2.1, r2.2)
     end) l = unpack_field key stream l.
Proof. induction l as [|[k fv] l IH]; simpl; [done|]. by rewrite IH. Qed.

Lemma pack_struct (union_field : option string) (fields : list (string * value)) :
  pack (CompoundValue false union_field fields) = pack_fields fields.
Proof. simpl. apply pack_fields_eq. Qed.

Lemma unpack_struct (union_field : option string) (fields : list (string * value)) stream :
  unpack (CompoundValue false union_field fields) stream
  = (r <- unpack_fields fields stream ;; Ok (CompoundValue false union_field r.1, r.2)).
Proof. simpl. by rewrite unpack_fields_eq. Qed.

Lemma pack_union (union_field : option string) (fields : list (string * value)) :
  pack (CompoundValue true union_field fields)
  = (field <- match union_field with
              | Some (String c f) => Ok (String c f)
              | _ => match dict_keys fields with [] => Raise IndexError | k :: _ => Ok k end
              end ;;
     tag <- list_index field (dict_keys fields) ;;
     tag_len <- union_tag_len fields ;;
     packed <- pack_field field fields ;;
     Ok (format_b tag_len (Z.of_nat tag) ++ packed)).
Proof.
  simpl.
  destruct (match union_field with
            | Some (String c f) => Ok (String c f)
            | _ => match dict_keys fields with [] => Raise IndexError | k :: _ => Ok k end
            end) as [field|e]; [|done].
  destruct (list_index field (dict_keys fields)) as [tag|e]; [|done].
  destruct (union_tag_len fields) as [tag_len|e]; [|done].
  by rewrite pack_field_eq.
Qed.

Lemma unpack_union (union_field : option string) (fields : list (string * value)) stream :
  unpack (CompoundValue true union_field fields) stream
  = (tag_len <- union_tag_len fields ;;
     tag <- int2 (slice stream 0 tag_len) ;;
     key <- match dict_keys fields !! Z.to_nat tag with
            | Some k => Ok k
            | None => Raise IndexError
            end ;;
     r <- unpack_field key (drop tag_len stream) fields ;;
     Ok (CompoundValue true (Some key) r.1, r.2)).
Proof.
  simpl.
  destruct (union_tag_len fields) as [tag_len|e]; [|done].
  destruct (int2 (slice stream 0 tag_len)) as [tag|e]; [|done].
  destruct (dict_keys fields !! Z.to_nat tag) as [key|]; [|done].
  by rewrite unpack_field_eq.
Qed.

Lemma log_width_pos (n w : nat) : log_width n = Ok w -> (0 < w)%nat.
Proof.
  unfold log_width. destruct (log2_ceil n) as [w'|]; [|done].
  intros [= <-]. case_decide; lia.
Qed.

Lemma read_number_prefix (w : nat) (n : Z) (rest : list bool) :
  (0 < w)%nat -> 0 <= n < 2 ^ Z.of_nat w ->
  int2 (slice (format_b w n ++ rest) 0 w) = Ok n
  /\ drop w (format_b w n ++ rest) = rest.
Proof.
  intros Hw Hn. pose proof (length_format_b w n Hw Hn) as Hlen.
  split.
  - unfold slice. rewrite drop_0, Nat.sub_0_r, take_app_length' by done.
    unfold int2. destruct (format_b w n) as [|b l] eqn:E; [simpl in Hlen; lia|].
    rewrite <- E. f_equal. apply bits_value_format_b. lia.
  - by rewrite drop_app_length' by done.
Qed.

Lemma pack_primitive (n : nat) (bits : list bool) :
  (0 < n)%nat -> length bits = n ->
  pack (PrimitiveValue n bits) = Ok (concat (chunks_back bits))
  /\ length (concat (chunks_back bits)) = n.
Proof.
  intros Hn Hlen. split; [|by rewrite length_le_chunks].
  simpl. destruct bits as [|b l] eqn:E; [simpl in Hlen; lia|].
  rewrite <- E in *. rewrite le_from_be_bits_eq by lia.
  replace (length bits - n)%nat with 0%nat by lia. done.
Qed.

Lemma unpack_primitive (n : nat) (old bits rest : list bool) :
  (0 < n)%nat -> length bits = n ->
  unpack (PrimitiveValue n old) (concat (chunks_back bits) ++ rest)
  = Ok (PrimitiveValue n bits, rest).
Proof.
  intros Hn Hlen. pose proof (length_le_chunks bits) as Hp.
  simpl. destruct n as [|n']; [lia|].
  rewrite be_from_le_bits_eq by (rewrite length_app; lia).
  rewrite take_app_length' by lia. rewrite drop_app_length' by lia.
  by rewrite chunks_front_concat_back, concat_reverse_chunks_back.
Qed.

Lemma round_trips_off_tail (v0 v : value) (rest : list bool) :
  round_trips false v0 v ->
  exists p, pack v = Ok p /\ unpack v0 (p ++ rest) = Ok (v, rest).
Proof.
  intros Hrt. destruct (Hrt rest ltac:(done)) as (p & rest' & Hp & Hu & Hrest).
  exists p. by rewrite <- (Hrest eq_refl) at 2.
Qed.

Lemma unpack_count_round_trips (new_item : value) (items : list value) :
  Forall (round_trips false new_item) items ->
  forall rest acc,
    exists p,
      pack_items items = Ok p
      /\ unpack_count (Ok new_item) (length items) (p ++ rest) acc = Ok (acc ++ items, rest).
Proof.
  induction 1 as [|i l Hi _ IH]; intros rest acc.
  - exists []. simpl. by rewrite app_nil_r.
  - destruct (IH rest (acc ++ [i])) as (pl & Hpl & Hul).
    destruct (round_trips_off_tail _ _ (pl ++ rest) Hi) as (pi & Hpi & Hui).
    exists (pi ++ pl). cbn [pack_items length unpack_count]. rewrite Hpi, Hpl.
    split; [done|]. unfold unpack_new. rewrite <- app_assoc, Hui. cbn [fst snd].
    rewrite Hul. by rewrite <- app_assoc.
Qed.

Lemma unpack_to_end_round_trips (new_item : value) (items : list value) :
  Forall (fun i => round_trips false new_item i
                   /\ forall p, pack i = Ok p -> (8 <= length p)%nat) items ->
  forall rest acc fuel,
    (length rest < 8)%nat -> (length items <= fuel)%nat ->
    exists p,
      pack_items items = Ok p
      /\ (length items <= length p)%nat
      /\ unpack_to_end (Ok new_item) fuel (p ++ rest) acc = Ok (acc ++ items).
Proof.
  induction 1 as [|i l [Hi Hlong] _ IH]; intros rest acc fuel Hrest Hfuel.
  - exists []. split; [done|]. split; [done|]. rewrite app_nil_r.
    destruct fuel; simpl; by rewrite decide_False by lia.
  - destruct fuel as [|fuel]; [simpl in Hfuel; lia|].
    destruct (IH rest (acc ++ [i]) fuel Hrest ltac:(simpl in Hfuel; lia))
      as (pl & Hpl & Hlen & Hul).
    destruct (round_trips_off_tail _ _ (pl ++ rest) Hi) as (pi & Hpi & Hui).
    pose proof (Hlong pi Hpi) as Hpi8.
    exists (pi ++ pl). cbn [pack_items]. rewrite Hpi, Hpl.
    split; [done|]. split; [rewrite length_app; simpl; lia|].
    cbn [unpack_to_end]. rewrite decide_True by (rewrite !length_app; lia).
    unfold unpack_new. rewrite <- app_assoc, Hui. cbn [fst snd].
    rewrite Hul. by rewrite <- app_assoc.
Qed.

Lemma unpack_static_round_trips (items0 items : list value) :
  Forall2 (round_trips false) items0 items ->
  forall rest,
    exists p,
      pack_items items = Ok p
      /\ unpack_static items0 (length items) (p ++ rest) = Ok (items, rest).
Proof.
  induction 1 as [|i0 i l0 l Hi _ IH]; intros rest.
  - by exists [].
  - destruct (IH rest) as (pl & Hpl & Hul).
    destruct (round_trips_off_tail _ _ (pl ++ rest) Hi) as (pi & Hpi & Hui).
    exists (pi ++ pl). cbn [pack_items length unpack_static]. rewrite Hpi, Hpl.
    split; [done|]. rewrite <- app_assoc, Hui. cbn [fst snd]. by rewrite Hul.
Qed.

Lemma unpack_to_end_short (item_ctor : result value) (fuel : nat) (rest acc : list bool)
    (items : list value) :
  (length rest < 8)%nat -> unpack_to_end item_ctor fuel rest items = Ok items.
Proof. intros Hrest. destruct fuel; simpl; by rewrite decide_False by lia. Qed.

Lemma wire_similar_round_trips (v0 : value) :
  forall tail v, wire_similar tail v0 v -> round_trips tail v0 v.
Proof.
  induction v0 as [n0|n0 bits0|mode0 max0 tao0 ctor0 items0 IHctor IHitems
                  |is_union0 uf0 fields0 IHfields] using value_nested_ind;
    intros tail v Hsim.
  - (* void *)
    destruct v as [n| | |]; try done. simpl in Hsim. subst n0.
    intros rest _. exists (replicate n false), rest. simpl.
    by rewrite drop_app_length' by by rewrite length_replicate.
  - (* primitive *)
    destruct v as [|n bits| |]; try done. destruct Hsim as (-> & Hn & Hlen).
    intros rest _. exists (concat (chunks_back bits)), rest.
    split; [by apply pack_primitive|]. split; [by apply unpack_primitive|done].
  - (* array *)
    destruct v as [| |mode max tao ctor items|]; try done.
    cbn [wire_similar] in Hsim. destruct Hsim as (<- & <- & <- & <- & Hmode).
    destruct mode0.
    + (* static *)
      destruct Hmode as [Hlen Hall].
      assert (Forall2 (round_trips false) items0 items) as HF.
      { clear -IHitems Hall. revert items Hall.
        induction IHitems as [|i0 l0 Hi0 _ IH]; intros [|i l] Hall; try done.
        destruct Hall as [Hi Hl]. constructor; [by apply Hi0|by apply IH]. }
      intros rest _. destruct (unpack_static_round_trips _ _ HF rest) as (p & Hp & Hu).
      exists p, rest. rewrite pack_static, Hp. cbv beta iota.
      rewrite decide_False by lia. split; [done|].
      rewrite unpack_static_array, <- Hlen, Hu. done.
    + (* dynamic *)
      destruct Hmode as [Hctor Htao].
      destruct ctor0 as [new_item|e].
      * destruct Hctor as [Hall Hprim].
        assert (Forall (round_trips false new_item) items) as HF.
        { clear -IHctor Hall. specialize (IHctor new_item eq_refl).
          induction items as [|i l IH]; [constructor|].
          destruct Hall as [Hi Hl]. constructor; [by apply IHctor|by apply IH]. }
        destruct tao0.
        -- (* tail array *)
           subst tail. specialize (Hprim eq_refl).
           destruct new_item as [|n b0| |]; try done.
           assert (Forall (fun i => round_trips false (PrimitiveValue n b0) i
                                    /\ forall p, pack i = Ok p -> (8 <= length p)%nat)
                          items) as HF'.
           { clear -Hall HF Hprim. induction items as [|i l IH]; [constructor|].
             destruct Hall as [Hi Hl]. apply Forall_cons in HF as [HFi HFl].
             constructor; [|by apply IH]. split; [done|].
             destruct i as [|n' bits| |]; try done. destruct Hi as (<- & Hn & Hlen).
             intros p Hp. destruct (pack_primitive n bits Hn Hlen) as [Hp' Hlen'].
             rewrite Hp' in Hp. injection Hp as <-. lia. }
           intros rest Hrest. specialize (Hrest eq_refl).
           destruct (unpack_to_end_round_trips _ _ HF' rest [] (length items) Hrest
                       ltac:(done)) as (p & Hp & Hlen & _).
           destruct (unpack_to_end_round_trips _ _ HF' rest [] (length (p ++ rest)) Hrest
                       ltac:(rewrite length_app; lia)) as (p' & Hp' & _ & Hu).
           rewrite Hp in Hp'. injection Hp' as <-.
           exists p, []. rewrite pack_dynamic. split; [done|]. split; [|done].
           rewrite unpack_dynamic. unfold unpack_tail_array. by rewrite Hu.
        -- (* length prefix *)
           destruct Htao as (cw & Hcw & Hcount). intros rest _.
           destruct (unpack_count_round_trips _ _ HF rest []) as (p & Hp & Hu).
           exists (format_b cw (Z.of_nat (length items)) ++ p), rest.
           rewrite pack_dynamic. unfold pack_length_prefixed. rewrite Hcw, Hp. cbv beta iota.
           split; [done|]. split; [|done].
           rewrite unpack_dynamic. unfold unpack_length_prefixed. rewrite Hcw.
           cbv beta iota. rewrite <- app_assoc.
           destruct (read_number_prefix cw (Z.of_nat (length items)) (p ++ rest))
             as [Hint Hdrop]; [by eapply log_width_pos|lia|].
           rewrite Hint, Hdrop. cbv beta iota. rewrite Nat2Z.id, Hu. done.
      * subst items. destruct tao0.
        -- subst tail. intros rest Hrest. specialize (Hrest eq_refl).
           exists [], []. rewrite pack_dynamic. split; [done|]. split; [|done].
           rewrite unpack_dynamic. unfold unpack_tail_array. simpl.
           by rewrite unpack_to_end_short.
        -- destruct Htao as (cw & Hcw & Hcount). intros rest _.
           exists (format_b cw 0 ++ []), rest.
           rewrite pack_dynamic. unfold pack_length_prefixed. rewrite Hcw. cbn [pack_items length].
           cbv beta iota. split; [done|]. split; [|done].
           rewrite unpack_dynamic. unfold unpack_length_prefixed. rewrite Hcw.
           cbv beta iota. rewrite <- app_assoc.
           destruct (read_number_prefix cw 0 ([] ++ rest))
             as [Hint Hdrop]; [by eapply log_width_pos|simpl in Hcount; lia|].
           rewrite Hint, Hdrop. done.
  - (* compound *)
    destruct is_union0; destruct v as [| | |[] uf fields]; try done.
    + (* union *)
      destruct uf as [[|c key]|]; try done.
      cbn [wire_similar] in Hsim. destruct Hsim as [(tag_len & Htl & Hwide) Hone].
      set (field := String c key) in *.
      assert (length fields = length fields0
              /\ (exists tag, list_index field (dict_keys fields) = Ok tag
                              /\ (tag < length fields0)%nat
                              /\ dict_keys fields0 !! tag = Some field)
              /\ forall rest, (tail = true -> (length rest < 8)%nat) ->
                   exists p rest',
                     pack_field field fields = Ok p
                     /\ unpack_field field (p ++ rest) fields0 = Ok (fields, rest')
                     /\ (tail = false -> rest' = rest)) as (Hlen & (tag & Htag & Hlt & Hkey) & Hrt).
      { clear -IHfields Hone. revert fields Hone.
        induction IHfields as [|[k0 f0] l0 Hf0 _ IH]; intros [|[k f] l] Hone; try done.
        destruct Hone as [<- Hone].
        cbn [length dict_keys fmap list_fmap fst list_index pack_field unpack_field].
        destruct (decide (k0 = field)) as [->|Hne].
        - destruct Hone as [Hsim <-]. split; [done|].
          split; [exists 0%nat; split; [done|]; split; [lia|done]|].
          intros rest Hrest. destruct (Hf0 tail f Hsim rest Hrest) as (p & rest' & Hp & Hu & Hr).
          exists p, rest'. simpl in Hu. by rewrite Hu.
        - destruct Hone as [<- Hone]. destruct (IH l Hone) as (Hlen & (tag & Htag & Hlt & Hkey) & Hrt).
          split; [by rewrite Hlen|].
          split.
          { exists (S tag). unfold dict_keys in Htag. rewrite Htag. split; [done|].
            split; [lia|done]. }
          intros rest Hrest. destruct (Hrt rest Hrest) as (p & rest' & Hp & Hu & Hr).
          exists p, rest'. by rewrite Hu. }
      intros rest Hrest. destruct (Hrt rest Hrest) as (p & rest' & Hp & Hu & Hr).
      exists (format_b tag_len (Z.of_nat tag) ++ p), rest'.
      subst field. rewrite pack_union. cbv beta iota. rewrite Htag. cbv beta iota.
      unfold union_tag_len in *. rewrite Hlen, Htl. cbv beta iota. rewrite Hp.
      split; [done|]. split; [|done].
      rewrite unpack_union. unfold union_tag_len. rewrite Htl. cbv beta iota.
      rewrite <- app_assoc.
      destruct (read_number_prefix tag_len (Z.of_nat tag) (p ++ rest))
        as [Hint Hdrop]; [by eapply log_width_pos|lia|].
      rewrite Hint, Hdrop. cbv beta iota. rewrite Nat2Z.id, Hkey. cbv beta iota.
      by rewrite Hu.
    + (* structure *)
      cbn [wire_similar] in Hsim. destruct Hsim as [<- Hall].
      assert (forall rest, (tail = true -> (length rest < 8)%nat) ->
                exists p rest',
                  pack_fields fields = Ok p
                  /\ unpack_fields fields0 (p ++ rest) = Ok (fields, rest')
                  /\ (tail = false -> rest' = rest)) as Hrt.
      { clear -IHfields Hall. revert fields Hall.
        induction IHfields as [|[k0 f0] l0 Hf0 _ IH]; intros [|[k f] l] Hall; try done.
        - intros rest _. by exists [], rest.
        - destruct Hall as (<- & Hsim & Hall). intros rest Hrest.
          destruct (IH l Hall rest Hrest) as (pl & rest' & Hpl & Hul & Hrl).
          cbn [pack_fields unpack_fields]. rewrite Hpl.
          destruct l0 as [|kv0 l0'].
          + destruct l as [|kv l]; [|done]. simpl in Hpl, Hul.
            injection Hpl as <-. injection Hul as <-.
            destruct (Hf0 tail f Hsim rest Hrest) as (p & rest'' & Hp & Hu & Hr).
            exists (p ++ []), rest''. rewrite Hp. split; [done|].
            simpl in Hu. rewrite app_nil_r, Hu. done.
          + destruct (round_trips_off_tail f0 f (pl ++ rest) (Hf0 false f Hsim))
              as (p & Hp & Hu).
            exists (p ++ pl), rest'. rewrite Hp. split; [done|].
            rewrite <- app_assoc, Hu. cbn [fst snd]. rewrite Hul. done. }
      intros rest Hrest. destruct (Hrt rest Hrest) as (p & rest' & Hp & Hu & Hr).
      exists p, rest'. rewrite pack_struct, unpack_struct, Hp, Hu. done.
Qed.


Lemma bin_digits_pow2 (k : nat) :
  bin_digits (Z.to_N (2 ^ Z.of_nat k)) = true :: replicate k false.
Proof.
  induction k as [|k IH]; [done|].
  rewrite Nat2Z.inj_succ, Z.pow_succ_r by lia.
  pose proof (Z.pow_pos_nonneg 2 (Z.of_nat k) ltac:(lia) ltac:(lia)) as Hpos.
  destruct (2 ^ Z.of_nat k) as [|q|q]; try lia.
  change (2 * Z.pos q) with (Z.pos q~0). cbn [Z.to_N bin_digits pos_digits] in *.
  rewrite IH. by rewrite replicate_S_end.
Qed.

Lemma length_unpack_count (item_ctor : result value) (n : nat) :
  forall stream acc items rest,
    unpack_count item_ctor n stream acc = Ok (items, rest) ->
    length items = (length acc + n)%nat.
Proof.
  induction n as [|n IH]; intros stream acc items rest; simpl.
  - intros [= <- _]. lia.
  - destruct (unpack_new item_ctor stream) as [r|e]; [|done].
    intros H%IH. rewrite length_app in H. simpl in H. lia.
Qed.

(** X6: The length prefix of a dynamic array is [ceil(log2(max_size))] bits
    wide.  For a capacity [2 ^ k] for which this width is computed as [k]
    (the exact value; the floating-point logarithm of the source may give
    [k + 1] for some large [k], which this theorem does not cover), the
    prefix is one bit short for the count of a full array: the count
    [2 ^ k] is written with [k + 1] digits, and unpacking, which reads [k]
    of them, finds [2 ^ (k - 1)] items, half of what was packed. *)
Theorem full_array_of_power_of_two_size_is_halved (k : nat) (item_ctor : result value)
    (items old : list value) (p rest : list bool) (v' : value) (rest' : list bool) :
  (0 < k)%nat ->
  log2_ceil (2 ^ k) = Some k ->
  length items = (2 ^ k)%nat ->
  pack_items items = Ok p ->
  pack (ArrayValue MODE_DYNAMIC (2 ^ k) false item_ctor items)
  = Ok ((true :: replicate k false) ++ p)
  /\ (unpack (ArrayValue MODE_DYNAMIC (2 ^ k) false item_ctor old)
        (((true :: replicate k false) ++ p) ++ rest) = Ok (v', rest') ->
      exists items', v' = ArrayValue MODE_DYNAMIC (2 ^ k) false item_ctor items'
                     /\ length items' = (2 ^ (k - 1))%nat).
Proof.
  intros Hk Hlog Hlen Hp.
  set (max_size := (2 ^ k)%nat) in *.
  set (sent := ArrayValue MODE_DYNAMIC max_size false item_ctor items).
  assert (log_width max_size = Ok k) as Hw.
  { unfold log_width. rewrite Hlog. by rewrite decide_False by lia. }
  assert (format_b k (Z.of_nat (length items)) = true :: replicate k false) as Hfmt.
  { unfold format_b. rewrite Hlen. unfold max_size.
    rewrite Nat2Z.inj_pow. change (Z.of_nat 2) with 2.
    rewrite bin_digits_pow2. simpl. rewrite length_replicate.
    by replace (k - S k)%nat with 0%nat by lia. }
  split.
  - unfold sent. rewrite pack_dynamic. unfold pack_length_prefixed.
    by rewrite Hw, Hp, Hfmt.
  - rewrite unpack_dynamic. unfold unpack_length_prefixed. rewrite Hw. cbv beta iota.
    assert (slice (((true :: replicate k false) ++ p) ++ rest) 0 k
            = true :: replicate (k - 1) false) as Hslice.
    { unfold slice. rewrite drop_0, Nat.sub_0_r.
      destruct k as [|k']; [lia|]. rewrite <- !app_assoc. cbn [app take].
      rewrite Nat.sub_succ, Nat.sub_0_r. f_equal.
      rewrite replicate_S_end, <- !app_assoc.
      by rewrite take_app_length' by by rewrite length_replicate. }
    rewrite Hslice. cbn [int2]. cbv beta iota.
    destruct (unpack_count _ _ _ _) as [[items' rest'']|e] eqn:Hcount; [|done].
    intros [= <- <-]. exists items'. split; [done|].
    apply length_unpack_count in Hcount. rewrite Hcount. simpl.
    rewrite bits_value_cons, bits_value_zeros, length_replicate.
    rewrite Z.mul_1_l, Z.add_0_r. rewrite <- (Nat2Z.id (2 ^ (k - 1))).
    f_equal. rewrite Nat2Z.inj_pow. done.
Qed.

(** ** Unions *)

Lemma list_index_lookup (k : string) (keys : list string) (i : nat) :
  NoDup keys -> keys !! i = Some k -> list_index k keys = Ok i.
Proof.
  revert i. induction keys as [|k' keys IH]; intros i Hnd Hi; [done|].
  apply NoDup_cons in Hnd as [Hnotin Hnd]. simpl.
  destruct i as [|i]; simpl in Hi.
  - injection Hi as ->. by rewrite decide_True.
  - rewrite decide_False.
    + by rewrite (IH i).
    + intros ->. apply Hnotin. by eapply list_elem_of_lookup_2.
Qed.

Lemma pack_field_lookup (k : string) (fv : value) (fields : list (string * value))
    (i : nat) :
  NoDup (dict_keys fields) -> fields !! i = Some (k, fv) -> pack_field k fields = pack fv.
Proof.
  revert i. induction fields as [|[k' fv'] fields IH]; intros i Hnd Hi; [done|].
  apply NoDup_cons in Hnd as [Hnotin Hnd]. simpl.
  destruct i as [|i]; simpl in Hi.
  - injection Hi as -> ->. by rewrite decide_True.
  - rewrite decide_False; [by apply (IH i)|].
    intros ->. apply Hnotin. apply list_elem_of_fmap. exists (k, fv).
    split; [done|]. by eapply list_elem_of_lookup_2.
Qed.

(** X7: The accessors of a union.  On anything but a union,
    [switch_union_field] and [get_active_union_field] raise [ValueError].
    On a union, switching to its [i]-th field (of a non-empty name) changes
    nothing but the active field, which [get_active_union_field] then
    returns, and [_pack] emits the tag [i] followed by that field. *)
Theorem switched_union_packs_field :
  (forall obj new_field,
     is_union obj <> Ok true ->
     switch_union_field obj new_field = Raise ValueError
     /\ get_active_union_field obj = Raise ValueError)
  /\ (forall union_field fields i k fv tag_len p,
        NoDup (dict_keys fields) ->
        fields !! i = Some (k, fv) ->
        k <> EmptyString ->
        union_tag_len fields = Ok tag_len ->
        pack fv = Ok p ->
        exists obj,
          switch_union_field (CompoundValue true union_field fields) (Some k) = Ok obj
          /\ is_union obj = Ok true
          /\ get_active_union_field obj = Ok (Some k)
          /\ get_fields obj = Ok fields
          /\ pack obj = Ok (format_b tag_len (Z.of_nat i) ++ p)).
Proof.
  split.
  - intros obj new_field Hnot. unfold switch_union_field, get_active_union_field.
    destruct obj as [| | |[] uf fs]; try done.
  - intros union_field fields i k fv tag_len p Hnd Hi Hk Htl Hp.
    exists (CompoundValue true (Some k) fields). split_and!; try done.
    rewrite pack_union. destruct k as [|c k]; [done|]. cbv beta iota.
    rewrite (list_index_lookup _ _ i); [|done|].
    + cbv beta iota. rewrite Htl. cbv beta iota.
      rewrite (pack_field_lookup _ fv _ i) by done. by rewrite Hp.
    + unfold dict_keys. by rewrite list_lookup_fmap, Hi.
Qed.

(** ** From a value to frames and back *)

Lemma bits_from_bytes_whole (s : list bool) :
  (length s mod 8 = 0)%nat -> bits_from_bytes (bytes_msb_first s) = s.
Proof.
  rewrite bytes_msb_first_chunks. unfold bits_from_bytes.
  induction s as [|s Hs|c s Hc IH] using chunk_ind.
  - done.
  - intros Hmod. rewrite Nat.mod_small in Hmod by lia. lia.
  - intros Hmod. rewrite chunks_front_app by done. cbn [fmap list_fmap concat].
    rewrite IH.
    + f_equal. rewrite <- Hc. apply format_b_bits_value. by destruct c.
    + rewrite length_app, Hc in Hmod.
      replace (8 + length s)%nat with (length s + 1 * 8)%nat in Hmod by lia.
      by rewrite Nat.Div0.mod_add in Hmod.
Qed.

Lemma length_zero_padded (s : list bool) :
  (length (zero_padded s) mod 8 = 0)%nat
  /\ length (zero_padded s) = (8 * ((length s + 7) / 8))%nat
  /\ ((8 - length s mod 8) mod 8 < 8)%nat.
Proof.
  unfold zero_padded. rewrite length_app, length_replicate.
  pose proof (Nat.div_mod_eq (length s) 8) as Hdm.
  pose proof (Nat.mod_upper_bound (length s) 8 ltac:(lia)) as Hlt.
  pose proof (Nat.mod_upper_bound (8 - length s mod 8) 8 ltac:(lia)) as Hlt'.
  remember (length s mod 8)%nat as m eqn:Hm. remember (length s / 8)%nat as d eqn:Hd.
  remember (length s) as n eqn:Hn. clear Hm Hd Hn s.
  assert (exists k, (n + (8 - m) mod 8 = k * 8 /\ (n + 7) / 8 = k)%nat) as (k & Hk & Hdiv).
  { destruct (decide (m = 0)%nat) as [->|Hnz].
    - exists d. change ((8 - 0) mod 8)%nat with 0%nat. split; [lia|].
      symmetry. apply Nat.div_unique with (r := 7%nat); lia.
    - exists (S d). rewrite (Nat.mod_small (8 - m) 8) by lia. split; [lia|].
      symmetry. apply Nat.div_unique with (r := (m - 1)%nat); lia. }
  rewrite Hk, Hdiv. split; [apply Nat.Div0.mod_mul|]. split; [lia|done].
Qed.

Lemma bits_from_bytes_of_padded (s : list bool) :
  bits_from_bytes (bytes_of_zero_padded s)
  = s ++ replicate ((8 - length s mod 8) mod 8)%nat false
  /\ Forall (fun c => 0 <= c <= 255) (bytes_of_zero_padded s).
Proof.
  unfold bytes_of_zero_padded. split.
  - rewrite bits_from_bytes_whole; [done|]. apply length_zero_padded.
  - rewrite bytes_msb_first_chunks. apply Forall_fmap.
    eapply Forall_impl; [apply chunks_front_range|]. intros c Hc. simpl in *.
    pose proof (bits_value_range c) as Hv.
    assert (2 ^ Z.of_nat (length c) <= 2 ^ 8) as Hp by (apply Z.pow_le_mono_r; lia).
    change (2 ^ 8) with 256 in Hp. lia.
Qed.

Lemma Transfer_new_compound (transfer_id source_node_id : Z) (dest_node_id : option Z)
    (_type : dtype) (is_union : bool) (union_field : option string)
    (fields : list (string * value)) (transfer_priority : option Z)
    (request_not_response service_not_message : bool) (discriminator : option Z)
    (payload_bits : list bool) (dtid seed : Z) :
  pack (CompoundValue is_union union_field fields) = Ok payload_bits ->
  default_dtid _type = Ok dtid ->
  base_crc _type = Ok seed ->
  Transfer_new transfer_id source_node_id dest_node_id
    (Some (_type, CompoundValue is_union union_field fields)) transfer_priority
    request_not_response service_not_message discriminator
  = Ok {| transfer_priority := default DEFAULT_TRANSFER_PRIORITY transfer_priority;
          transfer_id := transfer_id;
          source_node_id := source_node_id;
          dest_node_id := dest_node_id;
          request_not_response := request_not_response;
          service_not_message := service_not_message;
          discriminator := discriminator;
          ts_monotonic := None;
          ts_real := None;
          payload := PayloadBytes (bytes_of_zero_padded payload_bits);
          data_type_id := Some dtid;
          data_type_crc := Some seed |}.
Proof.
  intros Hpack Hdtid Hseed. unfold Transfer_new. cbn [truthy].
  rewrite Hpack. cbv beta iota.
  rewrite pad_payload_bits_zero_padded, bytes_from_bits_total. cbv beta iota.
  cbn [get_uavcan_data_type]. by rewrite Hdtid, Hseed.
Qed.

(** X8: [Transfer(payload=obj, ...)] for a compound object whose primitives
    hold binary digits (no minus sign from the setter) and that packs: the
    payload bytes are the packed bits followed by fewer than 8 zero bits,
    [ceil(len(bits) / 8)] bytes in all; the data-type id and the CRC seed
    are those of the object's type, and the header fields are the arguments
    (priority 31 when none is given). *)
Theorem Transfer_new_serialises (tid src : Z) (dest : option Z) (_type : dtype)
    (is_union : bool) (union_field : option string) (fields : list (string * value))
    (priority : option Z) (rnr snm : bool) (disc : option Z)
    (payload_bits : list bool) (dtid seed : Z) :
  pack (CompoundValue is_union union_field fields) = Ok payload_bits ->
  default_dtid _type = Ok dtid ->
  base_crc _type = Ok seed ->
  exists sent bytes padding,
    Transfer_new tid src dest (Some (_type, CompoundValue is_union union_field fields))
      priority rnr snm disc = Ok sent
    /\ payload sent = PayloadBytes bytes
    /\ bits_from_bytes bytes = payload_bits ++ replicate padding false
    /\ (padding < 8)%nat
    /\ length bytes = ((length payload_bits + 7) / 8)%nat
    /\ Forall (fun c => 0 <= c <= 255) bytes
    /\ data_type_id sent = Some dtid
    /\ data_type_crc sent = Some seed
    /\ transfer_id sent = tid
    /\ source_node_id sent = src
    /\ dest_node_id sent = dest
    /\ transfer_priority sent = default 31 priority
    /\ request_not_response sent = rnr
    /\ service_not_message sent = snm
    /\ discriminator sent = disc.
Proof.
  intros Hpack Hdtid Hseed.
  eexists _, (bytes_of_zero_padded payload_bits), ((8 - length payload_bits mod 8) mod 8)%nat.
  split; [by eapply Transfer_new_compound|].
  destruct (length_zero_padded payload_bits) as (Hmod & Hlen & Hpad).
  destruct (bits_from_bytes_of_padded payload_bits) as (Hbits & Hrange).
  split; [done|]. split; [done|]. split; [done|].
  split; [|by split_and!].
  apply (f_equal length) in Hbits. fold (zero_padded payload_bits) in Hbits.
  rewrite length_bits_from_bytes, Hlen in Hbits by done. lia.
Qed.

Lemma CompoundValue_init_compound (t : dtype) (_mode : option Mode) (_tao : bool)
    (v0 : value) :
  CompoundValue_init t _mode _tao = Ok v0 ->
  exists is_union union_field fields, v0 = CompoundValue is_union union_field fields.
Proof.
  destruct t as [| | |kind dtid crc fields union rq rqu rs rsu]; try done.
  cbn [CompoundValue_init]. destruct kind, _mode as [[]|]; try done;
    (match goal with
     | |- match ?x with _ => _ end = _ -> _ => destruct x as [fs|e]; [|done]
     end); intros [= <-]; by eexists _, _, _.
Qed.

Lemma frames_rebuild_transfer (sent self : Transfer) (p : list Z)
    (dtid seed : Z) (dt : dtype) (v : value) :
  well_formed sent = true ->
  payload sent = PayloadBytes p ->
  data_type_id sent = Some dtid ->
  DATATYPES !! (dtid, kind_of sent) = Some dt ->
  default_dtid dt = Ok dtid ->
  base_crc dt = Ok seed ->
  ((7 < length p)%nat -> data_type_crc sent = Some seed) ->
  decode_payload dt (mode_of sent) p = Ok v ->
  exists mid received,
    message_id sent = Ok mid
    /\ to_frames sent = Ok (frames_of mid (transfer_id sent) (crc_prefixed p seed))
    /\ from_frames self (frames_of mid (transfer_id sent) (crc_prefixed p seed))
       = Ok received
    /\ transfer_id received = transfer_id sent
    /\ transfer_priority received = transfer_priority sent
    /\ source_node_id received = source_node_id sent
    /\ service_not_message received = service_not_message sent
    /\ data_type_id received = data_type_id sent
    /\ payload received = PayloadValue v.
Proof.
  intros Hwf Hp Hdtid Hreg Hdd Hseed Hcrc Hdec.
  destruct (message_id_roundtrip sent Hwf) as (mid & Hmid & Hsame).
  destruct (from_frames_header_frames_of sent self p dtid seed mid dt Hwf Hdtid Hreg Hseed Hsame)
    as (h & Hh & Hid & Hpri & Hsrc & Hsnm & Hsvc).
  assert ((if service_not_message h
           then Some (if request_not_response h then ModeRequest else ModeResponse)
           else None) = mode_of sent) as Hmode.
  { unfold mode_of. rewrite Hsnm. destruct (service_not_message sent); [|done].
    by rewrite (proj2 (Hsvc eq_refl)). }
  exists mid. unfold from_frames. rewrite Hh. cbv beta iota zeta. cbn [fst snd].
  rewrite Hdd, Hseed. cbv beta iota. rewrite Hmode, Hdec. cbv beta iota.
  eexists. split; [done|]. split; [by apply to_frames_eq|].
  split; [reflexivity|]. simpl. by rewrite Hdtid.
Qed.



(** ** Dictionaries with unique keys *)

Section DictLookup.
Context {K V : Type} `{EqDecision K}.

Lemma dict_get_set_eq (k : K) (v : V) (d : list (K * V)) :
  dict_get k (dict_set k v d) = Some v.
Proof.
  induction d as [|[k' v'] d IH]; simpl; [by rewrite decide_True|].
  destruct (decide (k' = k)) as [->|Hne]; simpl.
  - by rewrite decide_True.
  - by rewrite decide_False.
Qed.

Lemma dict_get_set_ne (k k' : K) (v : V) (d : list (K * V)) :
  k' <> k -> dict_get k' (dict_set k v d) = dict_get k' d.
Proof.
  intros Hne. induction d as [|[k'' v''] d IH]; simpl.
  - by rewrite decide_False.
  - destruct (decide (k'' = k)) as [->|Hne']; simpl.
    + by rewrite !decide_False.
    + by rewrite IH.
Qed.

Lemma dict_get_del_ne (k k' : K) (d : list (K * V)) :
  k' <> k -> dict_get k' (dict_del k d) = dict_get k' d.
Proof.
  intros Hne. induction d as [|[k'' v''] d IH]; simpl; [done|].
  destruct (decide (k'' = k)) as [->|Hne']; simpl.
  - by rewrite decide_False.
  - by rewrite IH.
Qed.

Lemma dict_get_None (k : K) (d : list (K * V)) :
  dict_get k d = None <-> k ∉ dict_keys d.
Proof.
  rewrite <- dict_get_is_Some. rewrite <- eq_None_not_Some. done.
Qed.

Lemma dict_get_del_eq (k : K) (d : list (K * V)) :
  NoDup (dict_keys d) -> dict_get k (dict_del k d) = None.
Proof.
  induction d as [|[k' v'] d IH]; simpl; [done|].
  intros [Hnotin Hnd]%NoDup_cons.
  destruct (decide (k' = k)) as [->|Hne]; simpl.
  - by apply dict_get_None.
  - rewrite decide_False by done. by apply IH.
Qed.

Lemma elem_of_keys_set (k k' : K) (ks : list K) :
  k' ∈ keys_set k ks <-> k' = k \/ k' ∈ ks.
Proof.
  induction ks as [|k'' ks IH]; simpl.
  - rewrite list_elem_of_singleton. split; [by left|]. by intros [?|?%elem_of_nil].
  - destruct (decide (k'' = k)) as [->|Hne].
    + rewrite !elem_of_cons. tauto.
    + rewrite !elem_of_cons, IH. tauto.
Qed.

Lemma elem_of_keys_del (k k' : K) (ks : list K) :
  k' ∈ keys_del k ks -> k' ∈ ks.
Proof.
  induction ks as [|k'' ks IH]; simpl; [done|].
  destruct (decide (k'' = k)) as [->|Hne].
  - by right.
  - rewrite !elem_of_cons. intros [?|?]; [by left|right; by apply IH].
Qed.

Lemma NoDup_keys_set (k : K) (ks : list K) : NoDup ks -> NoDup (keys_set k ks).
Proof.
  induction ks as [|k' ks IH]; simpl; [intros _; apply NoDup_singleton|].
  intros [Hnotin Hnd]%NoDup_cons.
  destruct (decide (k' = k)) as [->|Hne]; apply NoDup_cons.
  - done.
  - split; [|by apply IH]. rewrite elem_of_keys_set. intros [?|?]; done.
Qed.

Lemma NoDup_keys_del (k : K) (ks : list K) : NoDup ks -> NoDup (keys_del k ks).
Proof.
  induction ks as [|k' ks IH]; simpl; [done|].
  intros [Hnotin Hnd]%NoDup_cons.
  destruct (decide (k' = k)) as [->|Hne]; [done|].
  apply NoDup_cons. split; [|by apply IH].
  intros Hin%elem_of_keys_del. done.
Qed.

Lemma dict_set_absent (k : K) (v : V) (d : list (K * V)) :
  dict_get k d = None -> dict_set k v d = d ++ [(k, v)].
Proof.
  induction d as [|[k' v'] d IH]; simpl; [done|].
  destruct (decide (k' = k)); [done|]. intros Hnone. by rewrite IH.
Qed.

Lemma dict_get_last (k : K) (v : V) (d : list (K * V)) :
  dict_get k d = None -> dict_get k (d ++ [(k, v)]) = Some v.
Proof.
  induction d as [|[k' v'] d IH]; simpl; [by rewrite decide_True|].
  destruct (decide (k' = k)); [done|]. apply IH.
Qed.

Lemma dict_set_last (k : K) (v v' : V) (d : list (K * V)) :
  dict_get k d = None -> dict_set k v' (d ++ [(k, v)]) = d ++ [(k, v')].
Proof.
  induction d as [|[k' v''] d IH]; simpl; [by rewrite decide_True|].
  destruct (decide (k' = k)); [done|]. intros Hnone. by rewrite IH.
Qed.

Lemma dict_del_last (k : K) (v : V) (d : list (K * V)) :
  dict_get k d = None -> dict_del k (d ++ [(k, v)]) = d.
Proof.
  induction d as [|[k' v'] d IH]; simpl; [by rewrite decide_True|].
  destruct (decide (k' = k)); [done|]. intros Hnone. by rewrite IH.
Qed.

End DictLookup.

(** ** The reassembly table, continued *)

Lemma reachable_unique_keys (self : TransferManager) :
  reachable self ->
  keys_agree self /\ NoDup (dict_keys (active_transfers self)).
Proof.
  induction 1 as [|now frame self _ [Hk Hnd]|live_view t timeout self _ [Hk Hnd]].
  - split; [done|]. apply NoDup_nil_2.
  - split; [by apply receive_frame_keys_agree|].
    unfold receive_frame. destruct (dict_has _ _ || start_of_transfer frame); [|done].
    destruct (end_of_transfer frame); simpl;
      rewrite ?dict_keys_del, !dict_keys_set;
      [apply NoDup_keys_del|]; by apply NoDup_keys_set.
  - split; [by apply sweep_keys_agree|].
    unfold remove_inactive_transfers.
    generalize (dict_keys (active_transfers self)) at 1. intros ks.
    clear Hk. revert self Hnd. induction ks as [|key rest IH]; intros self Hnd; [done|].
    simpl. destruct (dict_get key (active_transfer_timestamps self)); [|done].
    destruct (timeout_exceeded t t0 timeout); [|by apply IH].
    assert (NoDup (dict_keys (dict_del key (active_transfers self)))) as Hnd'
      by (rewrite dict_keys_del; by apply NoDup_keys_del).
    destruct live_view; [done|]. by apply IH.
Qed.

(** X10: What an accepted frame does: with a bucket for its key or with
    start-of-transfer set, the frame is appended to the bucket of its key
    (created empty if missing) and the clock reading stored; if the frame
    ends the transfer, the bucket is returned and both entries are deleted.
    No other key is touched, whether the frame is accepted or not. *)
Theorem receive_frame_effect (now : Time) (frame : Frame) (self : TransferManager) :
  reachable self ->
  (dict_has (transfer_key frame) (active_transfers self) || start_of_transfer frame = true ->
   let bucket :=
     default [] (dict_get (transfer_key frame) (active_transfers self)) ++ [frame] in
   (receive_frame now frame self).1 = (if end_of_transfer frame then Some bucket else None)
   /\ dict_get (transfer_key frame) (active_transfers (receive_frame now frame self).2)
      = (if end_of_transfer frame then None else Some bucket)
   /\ dict_get (transfer_key frame)
        (active_transfer_timestamps (receive_frame now frame self).2)
      = (if end_of_transfer frame then None else Some now))
  /\ (forall other, other <> transfer_key frame ->
        dict_get other (active_transfers (receive_frame now frame self).2)
        = dict_get other (active_transfers self)
        /\ dict_get other (active_transfer_timestamps (receive_frame now frame self).2)
           = dict_get other (active_transfer_timestamps self)).
Proof.
  intros [Hk Hnd]%reachable_unique_keys.
  assert (NoDup (dict_keys (active_transfer_timestamps self))) as Hnd' by by rewrite <- Hk.
  unfold receive_frame. split.
  - intros ->. cbv zeta.
    destruct (end_of_transfer frame); cbn [fst snd active_transfers active_transfer_timestamps].
    + split; [done|]. split; apply dict_get_del_eq; rewrite dict_keys_set;
        by apply NoDup_keys_set.
    + split; [done|]. split; apply dict_get_set_eq.
  - intros other Hne.
    destruct (dict_has _ _ || start_of_transfer frame); [|done].
    destruct (end_of_transfer frame); cbn [fst snd active_transfers active_transfer_timestamps];
      rewrite ?dict_get_del_ne, !dict_get_set_ne by done; done.
Qed.

Lemma receive_frame_existing (k : Z * option Z) (f : Frame) (pre : list Frame)
    (now seen : Time) (A : list ((Z * option Z) * list Frame))
    (B : list ((Z * option Z) * Time)) :
  transfer_key f = k -> dict_get k A = None -> dict_get k B = None ->
  receive_frame now f {| active_transfers := A ++ [(k, pre)];
                         active_transfer_timestamps := B ++ [(k, seen)] |}
  = if end_of_transfer f
    then (Some (pre ++ [f]), {| active_transfers := A; active_transfer_timestamps := B |})
    else (None, {| active_transfers := A ++ [(k, pre ++ [f])];
                   active_transfer_timestamps := B ++ [(k, now)] |}).
Proof.
  intros Hk HA HB. unfold receive_frame. rewrite Hk.
  cbn [active_transfers active_transfer_timestamps].
  unfold dict_has. rewrite dict_get_last by done.
  rewrite bool_decide_eq_true_2 by by eexists. cbn [orb]. cbv zeta.
  rewrite !dict_set_last, !dict_del_last by done. done.
Qed.

Lemma receive_frame_first (k : Z * option Z) (f : Frame) (now : Time)
    (m : TransferManager) :
  transfer_key f = k -> start_of_transfer f = true ->
  dict_get k (active_transfers m) = None ->
  dict_get k (active_transfer_timestamps m) = None ->
  receive_frame now f m
  = if end_of_transfer f
    then (Some [f], m)
    else (None, {| active_transfers := active_transfers m ++ [(k, [f])];
                   active_transfer_timestamps :=
                     active_transfer_timestamps m ++ [(k, now)] |}).
Proof.
  intros Hk Hsot HA HB. unfold receive_frame. rewrite Hk, Hsot, orb_true_r, HA.
  cbv zeta. rewrite !dict_set_absent, !dict_del_last by done.
  destruct m. done.
Qed.

Lemma receive_frames_rest (k : Z * option Z) (fs : list Frame) :
  forall (final : Frame) (pre : list Frame) (nows : list Time) (now0 seen : Time)
         (A : list ((Z * option Z) * list Frame)) (B : list ((Z * option Z) * Time)),
    length nows = length fs ->
    dict_get k A = None -> dict_get k B = None ->
    Forall (fun f => transfer_key f = k /\ end_of_transfer f = false) fs ->
    transfer_key final = k -> end_of_transfer final = true ->
    receive_frames (zip (nows ++ [now0]) (fs ++ [final]))
      {| active_transfers := A ++ [(k, pre)];
         active_transfer_timestamps := B ++ [(k, seen)] |}
    = (replicate (length fs) None ++ [Some (pre ++ fs ++ [final])],
       {| active_transfers := A; active_transfer_timestamps := B |}).
Proof.
  induction fs as [|f fs IH]; intros final pre nows now0 seen A B Hlen HA HB Hfs Hk Heot.
  - destruct nows; [|done]. cbn [zip zip_with app receive_frames].
    rewrite receive_frame_existing by done. rewrite Heot. done.
  - destruct nows as [|now nows]; [done|]. injection Hlen as Hlen.
    apply Forall_cons in Hfs as [[Hkf Hef] Hfs].
    cbn [zip zip_with app receive_frames].
    rewrite receive_frame_existing by done. rewrite Hef. cbn [fst snd].
    change (zip_with pair (nows ++ [now0]) (fs ++ [final]))
      with (zip (nows ++ [now0]) (fs ++ [final])).
    rewrite (IH final (pre ++ [f]) nows now0 now A B) by done.
    cbn [fst snd length replicate app]. by rewrite <- !app_assoc.
Qed.

Lemma receive_frames_transfer (k : Z * option Z) (first : Frame) (fs : list Frame)
    (nows : list Time) (m : TransferManager) :
  length nows = length (first :: fs) ->
  dict_get k (active_transfers m) = None ->
  dict_get k (active_transfer_timestamps m) = None ->
  Forall (fun f => transfer_key f = k) (first :: fs) ->
  start_of_transfer first = true ->
  Forall (fun f => end_of_transfer f = false) (removelast (first :: fs)) ->
  (forall final, last (first :: fs) = Some final -> end_of_transfer final = true) ->
  receive_frames (zip nows (first :: fs)) m
  = (replicate (length fs) None ++ [Some (first :: fs)], m).
Proof.
  intros Hlen HA HB Hkeys Hsot Hnoeot Heot.
  destruct nows as [|now nows]; [done|]. injection Hlen as Hlen.
  apply Forall_cons in Hkeys as [Hk Hkeys].
  cbn [zip zip_with receive_frames]. rewrite (receive_frame_first k) by done.
  destruct fs as [|f fs _] using rev_ind.
  - rewrite (Heot first eq_refl). destruct nows; [|done]. done.
  - assert (end_of_transfer first = false) as Hef.
    { change (first :: fs ++ [f]) with ((first :: fs) ++ [f]) in Hnoeot.
      rewrite removelast_last in Hnoeot. by apply Forall_cons in Hnoeot as [? _]. }
    rewrite Hef. cbn [fst snd].
    assert (exists nows' now', nows = nows' ++ [now'] /\ length nows' = length fs)
      as (nows' & now' & -> & Hlen').
    { destruct nows as [|x nows _] using rev_ind.
      - rewrite length_app in Hlen. simpl in Hlen. lia.
      - exists nows, x. split; [done|]. rewrite !length_app in Hlen. simpl in Hlen. lia. }
    change (zip_with pair (nows' ++ [now']) (fs ++ [f]))
      with (zip (nows' ++ [now']) (fs ++ [f])).
    rewrite (receive_frames_rest k fs f [first] nows' now' now
               (active_transfers m) (active_transfer_timestamps m)); try done.
    + cbn [fst snd]. rewrite length_app. simpl.
      replace (length fs + 1)%nat with (S (length fs)) by lia. cbn [replicate app].
      by destruct m.
    + apply Forall_app in Hkeys as [Hkeys _].
      change (first :: fs ++ [f]) with ((first :: fs) ++ [f]) in Hnoeot.
      rewrite removelast_last in Hnoeot. apply Forall_cons in Hnoeot as [_ Hnoeot].
      apply Forall_forall. intros x Hx. split.
      * by apply (proj1 (Forall_forall _ _) Hkeys).
      * by apply (proj1 (Forall_forall _ _) Hnoeot).
    + apply Forall_app in Hkeys as [_ Hkf]. by apply Forall_cons in Hkf as [? _].
    + apply Heot. change (first :: fs ++ [f]) with ((first :: fs) ++ [f]).
      by rewrite last_snoc.
Qed.

Lemma to_frames_inv (sent : Transfer) (frames : list Frame) :
  to_frames sent = Ok frames ->
  exists mid q,
    message_id sent = Ok mid /\ frames = frames_of mid (transfer_id sent) q.
Proof.
  unfold to_frames. destruct (payload sent) as [|p|]; try done.
  destruct (message_id sent) as [mid|e] eqn:Hmid.
  - case_decide.
    + destruct (data_type_crc sent) as [seed|]; [|done]. cbn [number].
      intros [= <-]. exists mid, (crc_prefixed p seed).
      by rewrite to_frames_loop_frames_of.
    + intros [= <-]. exists mid, p. by rewrite to_frames_loop_frames_of.
  - case_decide; [destruct (data_type_crc sent)|]; done.
Qed.

Lemma frames_of_flags (mid tid : Z) (q : list Z) :
  Forall (fun f => transfer_key f = (mid, Some (Z.land tid 0x1F))) (frames_of mid tid q)
  /\ Forall (fun f => end_of_transfer f = false) (removelast (frames_of mid tid q))
  /\ (forall final, last (frames_of mid tid q) = Some final -> end_of_transfer final = true)
  /\ (forall first, head (frames_of mid tid q) = Some first -> start_of_transfer first = true).
Proof.
  split_and!.
  - apply Forall_forall. intros f [i Hi]%list_elem_of_lookup.
    apply frames_of_lookup in Hi as [_ ->]. apply frame_at_flags.
  - rewrite removelast_firstn_len. apply Forall_forall.
    intros f [i Hi]%list_elem_of_lookup.
    apply lookup_take_Some in Hi as [Hi Hlt].
    apply frames_of_lookup in Hi as [_ ->].
    rewrite length_frames_of in Hlt.
    destruct (frame_at_flags mid tid q i) as (_ & -> & _).
    apply bool_decide_eq_false_2. lia.
  - intros final Hlast. rewrite last_lookup in Hlast.
    apply frames_of_lookup in Hlast as [Hlt ->].
    rewrite length_frames_of in *.
    destruct (frame_at_flags mid tid q (pred (n_frames (length q)))) as (_ & -> & _).
    apply bool_decide_eq_true_2. lia.
  - intros first Hhead. destruct (head_frames_of mid tid q) as [rest Hrest].
    rewrite Hrest in Hhead. injection Hhead as <-.
    destruct (frame_at_flags mid tid q 0) as (-> & _). done.
Qed.

(** X11: The frames of a transfer, as [to_frames] emits them, arriving in order
    at a manager that holds no bucket for their key (whatever else it is
    busy with): every call of [receive_frame] but the last returns nothing,
    the last returns the frames, complete and in order, and the manager is
    left as it was before the first frame. *)
Theorem manager_reassembles_to_frames (sent : Transfer) (frames : list Frame)
    (nows : list Time) (m : TransferManager) :
  to_frames sent = Ok frames ->
  reachable m ->
  length nows = length frames ->
  (forall f, f ∈ frames -> dict_has (transfer_key f) (active_transfers m) = false) ->
  receive_frames (zip nows frames) m
  = (replicate (length frames - 1) None ++ [Some frames], m).
Proof.
  intros (mid & q & _ & ->)%to_frames_inv [Hk _]%reachable_unique_keys Hlen Habsent.
  destruct (frames_of_flags mid (transfer_id sent) q) as (Hkeys & Hnoeot & Heot & Hsot).
  destruct (head_frames_of mid (transfer_id sent) q) as [rest Hrest].
  rewrite Hrest in *.
  assert (dict_get (mid, Some (Z.land (transfer_id sent) 31)) (active_transfers m) = None)
    as HA.
  { specialize (Habsent (frame_at mid (transfer_id sent) q 0) ltac:(left)).
    unfold dict_has in Habsent. apply bool_decide_eq_false in Habsent.
    rewrite <- eq_None_not_Some in Habsent.
    destruct (frame_at_flags mid (transfer_id sent) q 0) as (_ & _ & _ & Hkey0).
    by rewrite Hkey0 in Habsent. }
  assert (dict_get (mid, Some (Z.land (transfer_id sent) 31))
            (active_transfer_timestamps m) = None) as HB.
  { apply dict_get_None. rewrite <- Hk. by apply dict_get_None. }
  rewrite (receive_frames_transfer (mid, Some (Z.land (transfer_id sent) 31))); try done.
  - simpl. by rewrite Nat.sub_0_r.
  - by apply Hsot.
Qed.

Lemma sweep_list_spec (t timeout : Time) (ks : list (Z * option Z)) :
  forall m,
    NoDup ks ->
    NoDup (dict_keys (active_transfers m)) ->
    NoDup (dict_keys (active_transfer_timestamps m)) ->
    (forall k, k ∈ ks -> is_Some (dict_get k (active_transfer_timestamps m))) ->
    exists m',
      sweep false t timeout ks m = (Ok tt, m')
      /\ forall k,
           (k ∈ ks -> timed_out t timeout m k = true ->
            dict_get k (active_transfers m') = None
            /\ dict_get k (active_transfer_timestamps m') = None)
           /\ (~ (k ∈ ks /\ timed_out t timeout m k = true) ->
               dict_get k (active_transfers m') = dict_get k (active_transfers m)
               /\ dict_get k (active_transfer_timestamps m')
                  = dict_get k (active_transfer_timestamps m)).
Proof.
  induction ks as [|key rest IH]; intros m Hnd HndA HndB Hsome.
  - exists m. split; [done|]. intros k. split; [by intros ?%elem_of_nil|done].
  - apply NoDup_cons in Hnd as [Hnotin Hnd].
    destruct (Hsome key ltac:(left)) as [seen Hseen]. cbn [sweep]. rewrite Hseen.
    destruct (timeout_exceeded t seen timeout) eqn:Hexc.
    + set (m1 := {| active_transfers := dict_del key (active_transfers m);
                    active_transfer_timestamps :=
                      dict_del key (active_transfer_timestamps m) |}).
      destruct (IH m1 Hnd) as (m' & Hsweep & Hspec).
      { simpl. rewrite dict_keys_del. by apply NoDup_keys_del. }
      { simpl. rewrite dict_keys_del. by apply NoDup_keys_del. }
      { intros k Hk. simpl. rewrite dict_get_del_ne by (intros ->; done).
        apply Hsome. by right. }
      assert (forall k, k <> key -> timed_out t timeout m1 k = timed_out t timeout m k)
        as Hsame.
      { intros k Hne. unfold timed_out. simpl. by rewrite dict_get_del_ne. }
      exists m'. split; [done|]. intros k. destruct (decide (k = key)) as [->|Hne].
      * destruct (Hspec key) as [_ Hkeep].
        destruct Hkeep as [HA HB]; [by intros [? _]|].
        rewrite HA, HB. simpl. rewrite !dict_get_del_eq by done.
        split; [done|]. intros Hnot. exfalso. apply Hnot. split; [left|].
        unfold timed_out. by rewrite Hseen.
      * destruct (Hspec k) as [Hgone Hkeep]. rewrite (Hsame k Hne) in Hgone, Hkeep.
        simpl in Hkeep. rewrite !dict_get_del_ne in Hkeep by done.
        split.
        -- intros [?|Hin]%elem_of_cons; [done|]. by apply Hgone.
        -- intros Hnot. apply Hkeep. intros [Hin Hto]. apply Hnot. split; [by right|done].
    + destruct (IH m Hnd HndA HndB) as (m' & Hsweep & Hspec).
      { intros k Hk. apply Hsome. by right. }
      exists m'. split; [done|]. intros k. destruct (Hspec k) as [Hgone Hkeep].
      split.
      * intros [->|Hin]%elem_of_cons Hto; [|by apply Hgone].
        unfold timed_out in Hto. rewrite Hseen in Hto. congruence.
      * intros Hnot. apply Hkeep. intros [Hin Hto]. apply Hnot. split; [by right|done].
Qed.

(** X12: [remove_inactive_transfers] under Python 2, where [keys()] is a list:
    the call returns normally, every transfer last seen more than [timeout]
    ago is gone from both maps, and every other entry is as it was. *)
Theorem remove_inactive_transfers_on_key_list (t timeout : Time) (self : TransferManager) :
  reachable self ->
  exists self',
    remove_inactive_transfers false t timeout self = (Ok tt, self')
    /\ forall key,
         if timed_out t timeout self key
         then dict_get key (active_transfers self') = None
              /\ dict_get key (active_transfer_timestamps self') = None
         else dict_get key (active_transfers self') = dict_get key (active_transfers self)
              /\ dict_get key (active_transfer_timestamps self')
                 = dict_get key (active_transfer_timestamps self).
Proof.
  intros [Hk Hnd]%reachable_unique_keys.
  assert (NoDup (dict_keys (active_transfer_timestamps self))) as Hnd' by by rewrite <- Hk.
  destruct (sweep_list_spec t timeout (dict_keys (active_transfers self)) self)
    as (self' & Hsweep & Hspec); try done.
  { intros k Hin. apply dict_get_is_Some. by rewrite <- Hk. }
  exists self'. split; [done|]. intros key.
  destruct (Hspec key) as [Hgone Hkeep].
  destruct (timed_out t timeout self key) eqn:Hto.
  - apply Hgone; [|done]. rewrite Hk. apply dict_get_is_Some.
    unfold timed_out in Hto. by destruct (dict_get key _).
  - apply Hkeep. by intros [_ ?].
Qed.

Lemma sweep_view_spec (t timeout : Time) (ks : list (Z * option Z)) (m : TransferManager) :
  (forall k, k ∈ ks -> is_Some (dict_get k (active_transfer_timestamps m))) ->
  (sweep true t timeout ks m = (Ok tt, m)
   /\ forall k, k ∈ ks -> timed_out t timeout m k = false)
  \/ (exists before key after,
        ks = before ++ key :: after
        /\ (forall k, k ∈ before -> timed_out t timeout m k = false)
        /\ timed_out t timeout m key = true
        /\ sweep true t timeout ks m
           = (Raise RuntimeError,
              {| active_transfers := dict_del key (active_transfers m);
                 active_transfer_timestamps :=
                   dict_del key (active_transfer_timestamps m) |})).
Proof.
  induction ks as [|key rest IH]; intros Hsome.
  - left. split; [done|]. by intros k ?%elem_of_nil.
  - destruct (Hsome key ltac:(left)) as [seen Hseen]. cbn [sweep]. rewrite Hseen.
    destruct (timeout_exceeded t seen timeout) eqn:Hexc.
    + right. exists [], key, rest. split; [done|].
      split; [by intros k ?%elem_of_nil|]. split; [|done].
      unfold timed_out. by rewrite Hseen.
    + destruct IH as [[Hsweep Hnone]|(before & key' & after & -> & Hbefore & Hto & Hsweep)].
      { intros k Hk. apply Hsome. by right. }
      * left. split; [done|]. intros k [->|Hin]%elem_of_cons; [|by apply Hnone].
        unfold timed_out. by rewrite Hseen.
      * right. exists (key :: before), key', after. split; [done|].
        split; [|by split]. intros k [->|Hin]%elem_of_cons; [|by apply Hbefore].
        unfold timed_out. by rewrite Hseen.
Qed.

(** X13: [remove_inactive_transfers] under Python 3, where [keys()] is a view of
    the dictionary that the loop deletes from: if no transfer has timed out
    the call returns normally and changes nothing; otherwise it raises
    [RuntimeError] after deleting one transfer, the first timed-out one in
    the order of the keys, and the other timed-out transfers stay. *)
Theorem remove_inactive_transfers_on_key_view (t timeout : Time) (self : TransferManager) :
  reachable self ->
  (remove_inactive_transfers true t timeout self = (Ok tt, self)
   /\ forall key, timed_out t timeout self key = false)
  \/ (exists before key after,
        dict_keys (active_transfers self) = before ++ key :: after
        /\ (forall k, k ∈ before -> timed_out t timeout self k = false)
        /\ timed_out t timeout self key = true
        /\ remove_inactive_transfers true t timeout self
           = (Raise RuntimeError,
              {| active_transfers := dict_del key (active_transfers self);
                 active_transfer_timestamps :=
                   dict_del key (active_transfer_timestamps self) |})).
Proof.
  intros [Hk Hnd]%reachable_unique_keys.
  destruct (sweep_view_spec t timeout (dict_keys (active_transfers self)) self)
    as [[Hsweep Hnone]|Hraise].
  { intros k Hin. apply dict_get_is_Some. by rewrite <- Hk. }
  - left. split; [done|]. intros key.
    destruct (decide (key ∈ dict_keys (active_transfers self))) as [Hin|Hnotin];
      [by apply Hnone|].
    unfold timed_out. rewrite Hk in Hnotin. apply dict_get_None in Hnotin.
    by rewrite Hnotin.
  - by right.
Qed.

(** ** Identifiers, keys and frame sizes *)

(** X14: Reading back an identifier that was stored through the setter: every
    29-bit identifier comes back unchanged, except that the getter's
    assertions fail for a service identifier whose destination field is 0,
    and for an anonymous message identifier (source 0) stored into a
    transfer that has a destination node. *)
Theorem message_id_of_set_message_id (self : Transfer) (v : Z) :
  0 <= v < 2 ^ 29 ->
  message_id (set_message_id self v)
  = if bool_decide (Z.land v 0x80 <> 0) then
      if decide (Z.land (Z.shiftr v 8) 0x7F = 0) then Raise AssertionError else Ok v
    else if decide (Z.land v 0x7F = 0) then
      match dest_node_id self with
      | None => Ok v
      | Some _ => Raise AssertionError
      end
    else Ok v.
Proof.
  intros Hv. change (2 ^ 29) with 536870912 in Hv.
  pose proof (field_extract v 24 31 5 eq_refl ltac:(lia) ltac:(lia)) as Hpri.
  pose proof (field_extract v 16 255 8 eq_refl ltac:(lia) ltac:(lia)) as Hdt8.
  pose proof (field_extract v 8 127 7 eq_refl ltac:(lia) ltac:(lia)) as Hdest.
  pose proof (field_extract v 8 65535 16 eq_refl ltac:(lia) ltac:(lia)) as Hdt16.
  pose proof (field_extract v 8 3 2 eq_refl ltac:(lia) ltac:(lia)) as Hdt2.
  pose proof (field_extract v 10 16383 14 eq_refl ltac:(lia) ltac:(lia)) as Hdisc.
  pose proof (field_low v 127 7 eq_refl ltac:(lia)) as Hsrc.
  pose proof (land_bit_ne_0 v 128 7 eq_refl ltac:(lia)) as Hbit7.
  pose proof (land_bit_ne_0 v 32768 15 eq_refl ltac:(lia)) as Hbit15.
  revert Hpri Hdt8 Hdest Hdt16 Hdt2 Hdisc Hsrc. norm_pow2.
  intros Hpri Hdt8 Hdest Hdt16 Hdt2 Hdisc Hsrc.
  assert (Z.land (Z.land (Z.shiftr v 24) 31) 31 = Z.land (Z.shiftr v 24) 31) as Hpri2.
  { rewrite Hpri. change 31 with (Z.ones 5). rewrite Z.land_ones by lia.
    change (2 ^ 5) with 32. by rewrite Z.mod_mod by lia. }
  unfold set_message_id. case_bool_decide as Hs.
  - (* service *)
    apply Hbit7 in Hs. unfold message_id.
    cbn [service_not_message data_type_id dest_node_id transfer_priority
         source_node_id request_not_response number].
    rewrite Hpri2. cbv beta iota.
    rewrite bool_decide_eq_true_2 by (rewrite Hdt8; div_lia). cbn [py_assert].
    case_decide as Hd0.
    + rewrite bool_decide_eq_false_2 by lia. done.
    + rewrite bool_decide_eq_true_2 by (rewrite Hdest in *; div_lia). cbn [py_assert].
      cbn [Z.b2z]. f_equal.
      assert (0 <= Z.b2z (bool_decide (Z.land v 32768 <> 0)) <= 1) as Hr
        by (destruct (bool_decide _); simpl; lia).
      pose proof (service_id_sum (Z.land (Z.shiftr v 24) 31) (Z.land v 127)
                    (Z.land (Z.shiftr v 16) 255)
                    (Z.b2z (bool_decide (Z.land v 32768 <> 0)))
                    (Z.land (Z.shiftr v 8) 127)) as Hsum.
      rewrite Hpri2 in Hsum. rewrite Hsum; clear Hsum.
      * assert (Z.b2z (bool_decide (Z.land v 32768 <> 0)) = (v / 32768) `mod` 2) as ->.
        { case_bool_decide as Hb; simpl.
          - apply Hbit15 in Hb. lia.
          - destruct (decide ((v / 32768) `mod` 2 = 1)) as [H1|H1]; [|div_lia].
            apply Hbit15 in H1. done. }
        rewrite Hpri, Hsrc, Hdt8, Hdest. div_lia.
      * rewrite Hpri. div_lia.
      * rewrite Hsrc. div_lia.
      * rewrite Hdt8. div_lia.
      * done.
      * rewrite Hdest in *. div_lia.
  - assert ((v / 128) `mod` 2 = 0) as Hs'.
    { destruct (decide ((v / 128) `mod` 2 = 1)) as [H1|H1]; [|div_lia].
      apply Hbit7 in H1. done. }
    case_decide as Hanon.
    + (* anonymous *)
      unfold message_id.
      cbn [service_not_message data_type_id dest_node_id transfer_priority
           source_node_id request_not_response discriminator number].
      rewrite Hpri2, Hanon. rewrite decide_True by done.
      destruct (dest_node_id self) as [d|]; [done|].
      rewrite !bool_decide_eq_true_2 by done. cbn [py_assert number].
      f_equal.
      assert (Z.land (Z.land (Z.shiftr v 8) 3) 3 = Z.land (Z.shiftr v 8) 3) as ->.
      { rewrite Hdt2. change 3 with (Z.ones 2). rewrite Z.land_ones by lia.
        change (2 ^ 2) with 4. by rewrite Z.mod_mod by lia. }
      pose proof (anonymous_id_sum (Z.land (Z.shiftr v 24) 31)
                    (Z.land (Z.shiftr v 10) 16383) (Z.land (Z.shiftr v 8) 3)) as Hsum.
      assert (Z.land (Z.land (Z.shiftr v 8) 3) 3 = Z.land (Z.shiftr v 8) 3) as Hdt2'.
      { rewrite Hdt2. change 3 with (Z.ones 2). rewrite Z.land_ones by lia.
        change (2 ^ 2) with 4. by rewrite Z.mod_mod by lia. }
      rewrite Hdt2', Hpri2 in Hsum. cbn [Z.b2z]. rewrite Hsum.
      * rewrite Hpri, Hdisc, Hdt2. rewrite Hsrc in Hanon. div_lia.
      * rewrite Hpri. div_lia.
      * rewrite Hdisc. div_lia.
      * rewrite Hdt2. div_lia.
    + unfold message_id.
      cbn [service_not_message data_type_id dest_node_id transfer_priority
           source_node_id request_not_response discriminator number].
      rewrite Hpri2. rewrite decide_False by done.
      rewrite bool_decide_eq_true_2 by (rewrite Hdt16; div_lia). cbn [py_assert].
      f_equal. cbn [Z.b2z].
      pose proof (message_id_sum (Z.land (Z.shiftr v 24) 31) (Z.land v 127)
                    (Z.land (Z.shiftr v 8) 65535)) as Hsum.
      rewrite Hpri2 in Hsum. rewrite Hsum; clear Hsum.
      * rewrite Hpri, Hsrc, Hdt16. div_lia.
      * rewrite Hpri. div_lia.
      * rewrite Hsrc. div_lia.
      * rewrite Hdt16. div_lia.
Qed.

(** X15: The frames that [to_frames] returns: there is at least one; each
    carries the transfer's identifier and between 1 and 8 data bytes (at
    most 7 of payload and the tail byte), as fits a CAN data field; and all
    of them have one and the same [transfer_key], made of the identifier
    and the transfer id modulo 32, which is [Transfer.key] for a transfer
    id below 32. *)
Theorem frames_fit_and_share_key (sent : Transfer) (frames : list Frame) :
  to_frames sent = Ok frames ->
  exists mid,
    key sent = Ok (mid, transfer_id sent)
    /\ frames <> []
    /\ Forall (fun f => f_message_id f = mid
                        /\ transfer_key f = (mid, Some (transfer_id sent `mod` 32))
                        /\ (1 <= length (f_bytes f) <= 8)%nat) frames.
Proof.
  intros (mid & q & Hmid & ->)%to_frames_inv. exists mid.
  split; [unfold key; by rewrite Hmid|].
  split; [by destruct (head_frames_of mid (transfer_id sent) q) as [rest ->]|].
  apply Forall_forall. intros f [i Hi]%list_elem_of_lookup.
  apply frames_of_lookup in Hi as [_ ->].
  split; [done|]. split.
  - destruct (frame_at_flags mid (transfer_id sent) q i) as (_ & _ & _ & ->).
    change 31 with (Z.ones 5). by rewrite Z.land_ones by lia.
  - unfold frame_at, slice. cbn [f_bytes]. rewrite length_app, length_take. simpl. lia.
Qed.

(** X16: A transfer answers another only if that one is a request and this one a
    response, so no transfer answers itself and no two transfers answer
    each other; an answer is a service transfer of the same data type that
    travels the opposite way between the same two nodes. *)
Theorem is_response_to_one_way (self transfer : Transfer) :
  is_response_to self transfer = true ->
  is_response_to transfer self = false
  /\ is_response_to self self = false
  /\ is_response_to transfer transfer = false
  /\ service_not_message self = true /\ service_not_message transfer = true
  /\ request_not_response transfer = true /\ request_not_response self = false
  /\ dest_node_id transfer = Some (source_node_id self)
  /\ dest_node_id self = Some (source_node_id transfer)
  /\ data_type_id self = data_type_id transfer.
Proof.
  unfold is_response_to. rewrite !andb_true_iff, !bool_decide_eq_true, negb_true_iff.
  intros [[[[[[Ht Hs] Hreq] Hresp] Hd] Hsrc] Hdt].
  rewrite Ht, Hs, Hreq, Hresp. simpl. by split_and!.
Qed.

(** ** A frame lost on the way *)

(** X17: When any one frame of a multi-frame transfer is missing, [from_frames]
    raises [TransferError] on the frames that are left: without the first
    frame no start-of-transfer opens the list, without the last one no
    end-of-transfer closes it, and without a middle one the toggle bit
    repeats. *)
Theorem from_frames_detects_lost_frame (self sent : Transfer) (frames : list Frame)
    (i : nat) :
  to_frames sent = Ok frames ->
  (1 < length frames)%nat ->
  (i < length frames)%nat ->
  from_frames self (delete i frames) = Raise TransferError.
Proof.
  intros Hto Hlen Hi.
  destruct (to_frames_inv _ _ Hto) as (mid & q & _ & ->).
  rewrite length_frames_of in *.
  set (tid := transfer_id sent) in *. set (n := n_frames (length q)) in *.
  assert (length (delete i (frames_of mid tid q)) = (n - 1)%nat) as Hdel.
  { rewrite length_delete, length_frames_of; [done|].
    apply lookup_lt_is_Some. by rewrite length_frames_of. }
  assert (forall j, (j < n)%nat -> frames_of mid tid q !! j = Some (frame_at mid tid q j))
    as Hat by (intros j Hj; by apply frames_of_lookup).
  assert (tail_discipline_violated (delete i (frames_of mid tid q))) as Hv.
  { unfold tail_discipline_violated. rewrite Hdel.
    destruct (decide (i = 0%nat)) as [->|Hi0];
      [|destruct (decide (S i = n)) as [Hlast|Hmid]].
    - exists 0%nat, (frame_at mid tid q 1). split.
      + rewrite list_lookup_delete_ge by lia. apply Hat. lia.
      + unfold frame_violates.
        destruct (frame_at_flags mid tid q 1) as (-> & _).
        by destruct (negb (bool_decide (_ = frame0_tid _))).
    - exists (i - 1)%nat, (frame_at mid tid q (i - 1)). split.
      + rewrite list_lookup_delete_lt by lia. apply Hat. lia.
      + unfold frame_violates.
        destruct (frame_at_flags mid tid q (i - 1)) as (_ & -> & _).
        rewrite (bool_decide_eq_false_2 (S (i - 1) = n)) by lia.
        rewrite (bool_decide_eq_true_2 (S (i - 1) = (n - 1)%nat)) by lia.
        simpl. by rewrite !orb_true_r.
    - exists i, (frame_at mid tid q (S i)). split.
      + rewrite list_lookup_delete_ge by lia. apply Hat. lia.
      + unfold frame_violates.
        destruct (frame_at_flags mid tid q (S i)) as (_ & _ & -> & _).
        rewrite (bool_decide_eq_false_2 (Nat.odd (S i) = Nat.odd i)).
        * simpl. by rewrite !orb_true_r.
        * rewrite Nat.odd_succ, <- Nat.negb_odd. by destruct (Nat.odd i). }
  unfold from_frames.
  assert (from_frames_header self (delete i (frames_of mid tid q)) = Raise TransferError)
    as ->; [|done].
  apply from_frames_header_TransferError; [| |by left].
  - intros Hnil. rewrite Hnil in Hdel. simpl in Hdel. lia.
  - apply Forall_delete, Forall_forall. intros f [j Hj]%list_elem_of_lookup.
    apply frames_of_lookup in Hj as [_ ->]. unfold frame_at. simpl.
    by destruct (slice _ _ _).
Qed.

(** ** Half-precision floats *)

(** X18: Converting a half-precision pattern to single precision and back.  The
    single-precision pattern fits 32 bits and always denotes a finite
    number (its exponent field is never 255), also for the half-precision
    infinities and NaNs.  Coming back, a normal number (exponent field 1 to
    30) is unchanged; a zero or subnormal (exponent field 0) comes back as a
    zero of the same sign; an infinity or NaN (exponent field 31) comes back
    as the infinity of the same sign. *)
Theorem f16_from_f32_of_f32_from_f16 (float16 : Z) :
  0 <= float16 < 65536 ->
  0 <= f32_from_f16 float16 < 2 ^ 32
  /\ Z.land (Z.shiftr (f32_from_f16 float16) 23) 0xff <> 255
  /\ f16_from_f32 (f32_from_f16 float16)
     = if decide (Z.land float16 0x7C00 = 0) then Z.land float16 0x8000
       else if decide (Z.land float16 0x7C00 = 0x7C00)
            then Z.lor (Z.land float16 0x8000) 0x7C00
            else float16.
Proof.
  intros Hrange.
  assert (forallb (fun hi => forallb (fun lo =>
            let h := hi * 256 + lo in
            let f32 := f32_from_f16 h in
            (0 <=? f32) && (f32 <? 2 ^ 32)
            && negb (Z.land (Z.shiftr f32 23) 0xff =? 255)
            && (f16_from_f32 f32
                =? (if Z.land h 0x7C00 =? 0 then Z.land h 0x8000
                    else if Z.land h 0x7C00 =? 0x7C00
                         then Z.lor (Z.land h 0x8000) 0x7C00 else h)))
            (seqZ 0 256)) (seqZ 0 256) = true) as Hall
    by (vm_compute; reflexivity).
  rewrite forallb_forall in Hall.
  specialize (Hall (float16 / 256)).
  rewrite forallb_forall in Hall.
  specialize (Hall ltac:(apply list_elem_of_In, elem_of_seqZ;
                         split; [apply Z.div_pos; lia
                                |apply Z.div_lt_upper_bound; lia])
                   (float16 mod 256)
                   ltac:(apply list_elem_of_In, elem_of_seqZ;
                         pose proof (Z.mod_pos_bound float16 256); lia)).
  cbv zeta in Hall.
  replace (float16 / 256 * 256 + float16 mod 256) with float16 in Hall
    by (pose proof (Z.div_mod float16 256); lia).
  rewrite !andb_true_iff, negb_true_iff in Hall.
  destruct Hall as [[[Hlo Hhi] Hfin] Heq].
  split; [lia|]. split; [by apply Z.eqb_neq|].
  apply Z.eqb_eq in Heq. rewrite Heq.
  destruct (decide (Z.land float16 31744 = 0)) as [->|Hne]; [done|].
  rewrite (proj2 (Z.eqb_neq _ _) Hne).
  destruct (decide (Z.land float16 31744 = 31744)) as [->|Hne']; [done|].
  by rewrite (proj2 (Z.eqb_neq _ _) Hne').
Qed.

(** ** The CAN transport: the output registry *)

(** X19: The life of an output session.  [_get_output] is get-or-create: the
    session made for a key is returned again by every later call for that
    key, whose own factory product is discarded, and the registry stays as
    it is.  A loopback frame whose identifier maps to the key is handed to
    that session and to no other.  After the session's finalizer the key is
    gone: a loopback frame for it is dropped without an exception, a second
    call of the finalizer changes nothing, and [_get_output] makes a new
    session. *)
Theorem output_session_lifecycle (data_specifier : DataSpecifier)
    (destination_node_id : option Z) (first second : OutputSession)
    (can_id : CANID) (frame : UAVCANFrame)
    (_output_registry : list ((DataSpecifier * option Z) * OutputSession)) :
  NoDup (dict_keys _output_registry) ->
  to_output_data_specifier can_id = data_specifier ->
  match can_id with
  | ServiceCANID _ _ _ dest _ => Some dest
  | _ => None
  end = destination_node_id ->
  loopback frame = true ->
  let created := _get_output data_specifier destination_node_id first _output_registry in
  let closed := _get_output_finalizer data_specifier destination_node_id created.2 in
  _get_output data_specifier destination_node_id second created.2 = created
  /\ _handle_loopback_frame can_id frame created.2 = Ok [(created.1, frame)]
  /\ _handle_loopback_frame can_id frame closed = Ok []
  /\ _get_output_finalizer data_specifier destination_node_id closed = closed
  /\ (_get_output data_specifier destination_node_id second closed).1 = second
  /\ NoDup (dict_keys closed).
Proof.
  intros Hnd Hds Hdest Hloop created closed.
  assert (dict_get (data_specifier, destination_node_id) created.2 = Some created.1
          /\ NoDup (dict_keys created.2)) as [Hget Hnd'].
  { unfold created, _get_output.
    destruct (dict_get _ _output_registry) as [session|] eqn:E; cbn [fst snd].
    - done.
    - split; [apply dict_get_set_eq|]. rewrite dict_keys_set. by apply NoDup_keys_set. }
  assert (dict_get (data_specifier, destination_node_id) closed = None
          /\ NoDup (dict_keys closed)) as [Hgone Hnd''].
  { unfold closed, _get_output_finalizer. rewrite Hget.
    split; [by apply dict_get_del_eq|]. rewrite dict_keys_del. by apply NoDup_keys_del. }
  split_and!.
  - unfold _get_output at 1. rewrite Hget. by destruct created.
  - unfold _handle_loopback_frame. rewrite Hloop, Hds, Hdest. cbn [py_assert].
    by rewrite Hget.
  - unfold _handle_loopback_frame. rewrite Hloop, Hds, Hdest. cbn [py_assert].
    by rewrite Hgone.
  - unfold _get_output_finalizer at 1. by rewrite Hgone.
  - unfold _get_output. by rewrite Hgone.
  - done.
Qed.

(** ** The CAN transport: the input dispatch table *)

Section Dispatch.
Hypothesis subject_mask_nonneg : 0 <= SUBJECT_ID_MASK.
Hypothesis service_mask_nonneg : 0 <= SERVICE_ID_MASK.
Hypothesis node_mask_nonneg : 0 <= NODE_ID_MASK.

Lemma dim1_range ds :
  legal_data_specifier ds -> 0 <= dim1_of ds < _NUM_SUBJECTS + _NUM_SERVICES * 2.
Proof using subject_mask_nonneg service_mask_nonneg.
  unfold _NUM_SUBJECTS, _NUM_SERVICES.
  destruct ds as [s|s []]; simpl; unfold _NUM_SUBJECTS, _NUM_SERVICES; lia.
Qed.

Lemma dim2_range src :
  legal_source src -> 0 <= dim2_of src < _NUM_NODE_IDS + 1.
Proof using node_mask_nonneg.
  unfold _NUM_NODE_IDS. destruct src; simpl; unfold _NUM_NODE_IDS; lia.
Qed.

Lemma dim1_inj ds ds' :
  legal_data_specifier ds -> legal_data_specifier ds' ->
  dim1_of ds = dim1_of ds' -> ds = ds'.
Proof using subject_mask_nonneg service_mask_nonneg.
  destruct ds as [s|s []], ds' as [s'|s' []]; simpl;
    unfold _NUM_SUBJECTS, _NUM_SERVICES; intros; f_equal; lia.
Qed.

Lemma dim2_inj src src' :
  legal_source src -> legal_source src' -> dim2_of src = dim2_of src' -> src = src'.
Proof.
  destruct src, src'; simpl; intros; f_equal; lia.
Qed.

Lemma index_legal ds src :
  legal_data_specifier ds -> legal_source src ->
  _compute_input_dispatch_table_index ds src
  = Ok (dim1_of ds * (_NUM_NODE_IDS + 1) + dim2_of src)
  /\ 0 <= dim1_of ds * (_NUM_NODE_IDS + 1) + dim2_of src < _INPUT_DISPATCH_TABLE_SIZE.
Proof using subject_mask_nonneg service_mask_nonneg node_mask_nonneg.
  intros Hds Hsrc.
  pose proof (dim1_range ds Hds) as H1. pose proof (dim2_range src Hsrc) as H2.
  assert (0 <= dim1_of ds * (_NUM_NODE_IDS + 1) + dim2_of src
          < _INPUT_DISPATCH_TABLE_SIZE) as Hp.
  { unfold _INPUT_DISPATCH_TABLE_SIZE. nia. }
  split; [|done].
  unfold _compute_input_dispatch_table_index.
  assert (match src with None => true | Some n => bool_decide (n < _NUM_NODE_IDS) end = true)
    as ->.
  { destruct src; [|done]. apply bool_decide_eq_true_2. simpl in Hsrc. lia. }
  simpl. fold (dim1_of ds). fold (dim2_of src).
  by rewrite bool_decide_eq_true_2.
Qed.

Lemma point_inj d1 d2 e1 e2 c :
  0 <= d2 < c -> 0 <= e2 < c -> d1 * c + d2 = e1 * c + e2 -> d1 = e1 /\ d2 = e2.
Proof.
  intros H1 H2 H.
  assert (d1 = e1) as ->.
  { destruct (Z.lt_trichotomy d1 e1) as [Hlt|[Heq|Hgt]]; [|done|].
    - assert ((d1 + 1) * c <= e1 * c) by (apply Z.mul_le_mono_nonneg_r; lia). lia.
    - assert ((e1 + 1) * c <= d1 * c) by (apply Z.mul_le_mono_nonneg_r; lia). lia. }
  split; [done|lia].
Qed.

Lemma index_inj ds src ds' src' p :
  legal_data_specifier ds -> legal_source src ->
  legal_data_specifier ds' -> legal_source src' ->
  _compute_input_dispatch_table_index ds src = Ok p ->
  _compute_input_dispatch_table_index ds' src' = Ok p ->
  ds = ds' /\ src = src'.
Proof using subject_mask_nonneg service_mask_nonneg node_mask_nonneg.
  intros Hds Hsrc Hds' Hsrc' Hp Hp'.
  rewrite (proj1 (index_legal ds src Hds Hsrc)) in Hp.
  rewrite (proj1 (index_legal ds' src' Hds' Hsrc')) in Hp'.
  injection Hp as Hp. injection Hp' as Hp'.
  destruct (point_inj (dim1_of ds) (dim2_of src) (dim1_of ds') (dim2_of src')
              (_NUM_NODE_IDS + 1)) as [E1 E2];
    [by apply dim2_range|by apply dim2_range|congruence|].
  split; [by apply dim1_inj|by apply dim2_inj].
Qed.

Lemma index_surj p :
  0 <= p < _INPUT_DISPATCH_TABLE_SIZE ->
  exists ds src, legal_data_specifier ds /\ legal_source src
    /\ _compute_input_dispatch_table_index ds src = Ok p.
Proof using subject_mask_nonneg service_mask_nonneg node_mask_nonneg.
  intros Hp. unfold _INPUT_DISPATCH_TABLE_SIZE in Hp.
  set (c := _NUM_NODE_IDS + 1) in *.
  assert (0 < c) as Hc by (unfold c, _NUM_NODE_IDS; lia).
  pose proof (Z.div_mod p c ltac:(lia)) as Hdm.
  pose proof (Z.mod_pos_bound p c Hc) as Hm.
  assert (0 <= p / c < _NUM_SUBJECTS + _NUM_SERVICES * 2) as Hd.
  { split; [apply Z.div_pos; lia|apply Z.div_lt_upper_bound; lia]. }
  set (ds :=
         if decide (p / c < _NUM_SUBJECTS) then MessageDataSpecifier (p / c)
         else if decide (p / c < _NUM_SUBJECTS + _NUM_SERVICES)
              then ServiceDataSpecifier (p / c - _NUM_SUBJECTS) CLIENT
              else ServiceDataSpecifier (p / c - _NUM_SUBJECTS - _NUM_SERVICES) SERVER).
  set (src := if decide (p `mod` c = _NUM_NODE_IDS) then None else Some (p `mod` c)).
  assert (legal_data_specifier ds /\ dim1_of ds = p / c) as [Hds E1].
  { unfold ds. repeat case_decide; simpl; unfold _NUM_SUBJECTS, _NUM_SERVICES in *; lia. }
  assert (legal_source src /\ dim2_of src = p `mod` c) as [Hsrc E2].
  { unfold src. case_decide; simpl; unfold c in *; lia. }
  exists ds, src. split_and!; [done..|].
  rewrite (proj1 (index_legal ds src Hds Hsrc)). f_equal.
  rewrite E1, E2. fold c. lia.
Qed.

Lemma all_data_specifiers_spec ds :
  ds ∈ all_data_specifiers <-> legal_data_specifier ds.
Proof.
  unfold all_data_specifiers. rewrite !elem_of_app, !list_elem_of_fmap.
  setoid_rewrite elem_of_seqZ. unfold _NUM_SUBJECTS, _NUM_SERVICES. split.
  - intros [(s & -> & ?)|[(s & -> & ?)|(s & -> & ?)]]; simpl; lia.
  - destruct ds as [s|s []]; simpl; intros ?.
    + left. exists s. split; [done|lia].
    + right. left. exists s. split; [done|lia].
    + right. right. exists s. split; [done|lia].
Qed.

Lemma all_sources_spec src : src ∈ all_sources <-> legal_source src.
Proof.
  unfold all_sources. rewrite elem_of_app, list_elem_of_fmap, list_elem_of_singleton.
  setoid_rewrite elem_of_seqZ. split.
  - intros [(n & -> & ?)| ->]; simpl; [lia|done].
  - destruct src as [n|]; simpl; intros ?; [|by right].
    left. exists n. split; [done|lia].
Qed.

Lemma all_inputs_spec ds src :
  (ds, src) ∈ all_inputs <-> legal_data_specifier ds /\ legal_source src.
Proof.
  unfold all_inputs. rewrite list_elem_of_bind.
  setoid_rewrite list_elem_of_bind. setoid_rewrite list_elem_of_singleton.
  rewrite <- all_data_specifiers_spec, <- all_sources_spec. split.
  - intros (ds' & (src' & [= -> ->] & ?) & ?). done.
  - intros [? ?]. exists ds. split; [|done]. exists src. done.
Qed.

Lemma NoDup_all_data_specifiers : NoDup all_data_specifiers.
Proof.
  unfold all_data_specifiers. rewrite !NoDup_app. split_and!.
  - apply NoDup_fmap_2; [by intros ?? [= ->]|apply NoDup_seqZ].
  - intros ds (s & -> & _)%list_elem_of_fmap
           [(s' & [=] & _)%list_elem_of_fmap|(s' & [=] & _)%list_elem_of_fmap]%elem_of_app.
  - apply NoDup_fmap_2; [by intros ?? [= ->]|apply NoDup_seqZ].
  - intros ds (s & -> & _)%list_elem_of_fmap (s' & [=] & _)%list_elem_of_fmap.
  - apply NoDup_fmap_2; [by intros ?? [= ->]|apply NoDup_seqZ].
Qed.

Lemma NoDup_all_sources : NoDup all_sources.
Proof.
  unfold all_sources. rewrite NoDup_app. split_and!.
  - apply NoDup_fmap_2; [by intros ?? [= ->]|apply NoDup_seqZ].
  - intros src (n & -> & _)%list_elem_of_fmap [=]%list_elem_of_singleton.
  - apply NoDup_singleton.
Qed.

Lemma NoDup_all_inputs : NoDup all_inputs.
Proof.
  unfold all_inputs. apply NoDup_bind; [| |apply NoDup_all_data_specifiers].
  - intros ds ds' x _ _ (src & ->%list_elem_of_singleton & _)%list_elem_of_bind
                        (src' & [= -> _]%list_elem_of_singleton & _)%list_elem_of_bind.
    done.
  - intros ds _. apply NoDup_bind; [| |apply NoDup_all_sources].
    + intros src src' x _ _ ->%list_elem_of_singleton [= ->]%list_elem_of_singleton. done.
    + intros src _. apply NoDup_singleton.
Qed.

(** C3: on the legal inputs (a message specifier with its subject id in
    range, a service specifier with its service id in range in either role,
    and a source node id in [0.._NUM_NODE_IDS-1] or [None]) the index
    function returns an index within [0, _INPUT_DISPATCH_TABLE_SIZE), is
    injective, reaches every index of that range, and the indices of all
    legal inputs, listed as the module's unit test enumerates them, are the
    numbers [0 .. _INPUT_DISPATCH_TABLE_SIZE - 1] in some order: exactly
    [_INPUT_DISPATCH_TABLE_SIZE] distinct values. *)
Theorem dispatch_index_bijection :
  (forall ds src, legal_data_specifier ds -> legal_source src ->
     exists p, _compute_input_dispatch_table_index ds src = Ok p
               /\ 0 <= p < _INPUT_DISPATCH_TABLE_SIZE)
  /\ (forall ds src ds' src' p,
        legal_data_specifier ds -> legal_source src ->
        legal_data_specifier ds' -> legal_source src' ->
        _compute_input_dispatch_table_index ds src = Ok p ->
        _compute_input_dispatch_table_index ds' src' = Ok p ->
        ds = ds' /\ src = src')
  /\ (forall p, 0 <= p < _INPUT_DISPATCH_TABLE_SIZE ->
        exists ds src, legal_data_specifier ds /\ legal_source src
          /\ _compute_input_dispatch_table_index ds src = Ok p)
  /\ (forall x, x ∈ all_inputs <-> legal_data_specifier x.1 /\ legal_source x.2)
  /\ index_or_minus_one <$> all_inputs ≡ₚ seqZ 0 _INPUT_DISPATCH_TABLE_SIZE
  /\ length (index_or_minus_one <$> all_inputs) = Z.to_nat _INPUT_DISPATCH_TABLE_SIZE.
Proof using subject_mask_nonneg service_mask_nonneg node_mask_nonneg.
  assert (index_or_minus_one <$> all_inputs ≡ₚ seqZ 0 _INPUT_DISPATCH_TABLE_SIZE) as Hperm.
  { apply NoDup_Permutation; [|apply NoDup_seqZ|].
    - apply NoDup_fmap_2_strong; [|apply NoDup_all_inputs].
      intros [ds src] [ds' src'] [Hds Hsrc]%all_inputs_spec [Hds' Hsrc']%all_inputs_spec.
      unfold index_or_minus_one. simpl.
      destruct (index_legal ds src Hds Hsrc) as [E _].
      destruct (index_legal ds' src' Hds' Hsrc') as [E' _].
      intros Heq. rewrite E, E' in Heq.
      destruct (index_inj ds src ds' src' _ Hds Hsrc Hds' Hsrc' E) as [-> ->];
        [by rewrite E', Heq|done].
    - intros p. rewrite elem_of_seqZ, list_elem_of_fmap. split.
      + intros ([ds src] & -> & [Hds Hsrc]%all_inputs_spec).
        unfold index_or_minus_one. simpl.
        destruct (index_legal ds src Hds Hsrc) as [-> ?]. lia.
      + intros Hp. destruct (index_surj p ltac:(lia)) as (ds & src & Hds & Hsrc & E).
        exists (ds, src). split; [|by apply all_inputs_spec].
        unfold index_or_minus_one. simpl. by rewrite E. }
  split_and!.
  - intros ds src Hds Hsrc. destruct (index_legal ds src Hds Hsrc) as [E ?]. eauto.
  - apply index_inj.
  - apply index_surj.
  - intros [ds src]. apply all_inputs_spec.
  - exact Hperm.
  - by rewrite Hperm, length_seqZ.
Qed.

Lemma table_get_Ok (table : list (option InputSession)) (index : Z) :
  (Z.to_nat index < length table)%nat ->
  exists slot, table_get table index = Ok slot /\ table !! Z.to_nat index = Some slot.
Proof.
  intros Hlt. unfold table_get.
  destruct (lookup_lt_is_Some_2 table (Z.to_nat index) Hlt) as [slot ->]. eauto.
Qed.

Lemma table_get_insert_eq (table : list (option InputSession)) (index : Z) slot :
  (Z.to_nat index < length table)%nat ->
  table_get (<[Z.to_nat index := slot]> table) index = Ok slot.
Proof.
  intros Hlt. unfold table_get. by rewrite list_lookup_insert_eq.
Qed.

Lemma table_get_insert_ne (table : list (option InputSession)) (i j : Z) slot :
  0 <= i -> 0 <= j -> i <> j ->
  table_get (<[Z.to_nat i := slot]> table) j = table_get table j.
Proof.
  intros Hi Hj Hne. unfold table_get. rewrite list_lookup_insert_ne; [done|lia].
Qed.

Lemma table_get_init media (index : Z) :
  0 <= index < _INPUT_DISPATCH_TABLE_SIZE ->
  table_get (_input_dispatch_table (CANTransport_init media)) index = Ok None.
Proof.
  intros Hi. unfold table_get, CANTransport_init. simpl.
  rewrite lookup_replicate_2; [done|lia].
Qed.

Lemma parsed_legal can_id :
  parsed_message_or_service can_id ->
  legal_data_specifier (to_input_data_specifier can_id)
  /\ exists n, can_id_source can_id = Some n /\ legal_source (Some n).
Proof.
  destruct can_id as [? s n|? ? ?|? s r ? n]; simpl; [|done|];
    intros [? ?]; (split; [done|]); exists n; unfold _NUM_NODE_IDS; split; (done || lia).
Qed.

Lemma handle_received_frame_eq can_id frame self n :
  loopback frame = false ->
  can_id_source can_id = Some n ->
  _handle_received_frame can_id frame self
  = push_loop can_id frame self (to_input_data_specifier can_id) [Some n; None].
Proof.
  unfold _handle_received_frame. intros ->. cbn [negb py_assert].
  destruct can_id; simpl; intros [= ->]; done.
Qed.

(** C6: for a received frame that is not a loopback frame and whose
    identifier parsed as a message or a service, the router looks up two
    slots of the dispatch table, the one of the frame's source node and the
    promiscuous one, which are different slots, and calls [push_frame] on
    exactly the sessions that populate them.  In particular, after a
    selective input for the source of [can_id] and a promiscuous input were
    created for one data specifier on a fresh transport, a frame from that
    source is pushed to both sessions, and a frame of the same data
    specifier from another source to the promiscuous session only.  A
    loopback frame is refused by the assertion and reaches no session. *)
Theorem received_frame_reaches_exact_and_promiscuous
    (media : Media) (selective promiscuous : InputSession)
    (can_id can_id' : CANID) (frame frame' : UAVCANFrame) (self : CANTransport) :
  loopback frame = false ->
  loopback frame' = false ->
  parsed_message_or_service can_id ->
  parsed_message_or_service can_id' ->
  to_input_data_specifier can_id' = to_input_data_specifier can_id ->
  can_id_source can_id' <> can_id_source can_id ->
  length (_input_dispatch_table self) = Z.to_nat (_INPUT_DISPATCH_TABLE_SIZE + 1) ->
  let data_spec := to_input_data_specifier can_id in
  (exists i_exact i_promiscuous slot_exact slot_promiscuous calls,
      _compute_input_dispatch_table_index data_spec (can_id_source can_id) = Ok i_exact
      /\ _compute_input_dispatch_table_index data_spec None = Ok i_promiscuous
      /\ i_exact <> i_promiscuous
      /\ table_get (_input_dispatch_table self) i_exact = Ok slot_exact
      /\ table_get (_input_dispatch_table self) i_promiscuous = Ok slot_promiscuous
      /\ _handle_received_frame can_id frame self = Ok calls
      /\ forall call, call ∈ calls
            <-> exists session, call = (session, can_id, frame)
                  /\ (slot_exact = Some session \/ slot_promiscuous = Some session))
  /\ (exists t1 t2 calls,
        _get_input data_spec (can_id_source can_id) selective (CANTransport_init media)
        = Ok (selective, t1)
        /\ _get_input data_spec None promiscuous t1 = Ok (promiscuous, t2)
        /\ _handle_received_frame can_id frame t2 = Ok calls
        /\ calls ≡ₚ [(selective, can_id, frame); (promiscuous, can_id, frame)]
        /\ _handle_received_frame can_id' frame' t2 = Ok [(promiscuous, can_id', frame')])
  /\ (forall (echo : UAVCANFrame) (any : CANTransport),
        loopback echo = true ->
        _handle_received_frame can_id echo any = Raise AssertionError).
Proof using subject_mask_nonneg service_mask_nonneg node_mask_nonneg.
  intros Hnl Hnl' Hp Hp' Hds Hsrc Hlen data_spec.
  apply and_assoc. split;
    [|intros echo any Hecho; unfold _handle_received_frame; by rewrite Hecho].
  destruct (parsed_legal can_id Hp) as (Hlegal & n & Hn & Hln).
  destruct (parsed_legal can_id' Hp') as (_ & n' & Hn' & Hln').
  fold data_spec in Hlegal.
  destruct (index_legal data_spec (Some n) Hlegal Hln) as [Ee Be].
  destruct (index_legal data_spec None Hlegal I) as [Ep Bp].
  destruct (index_legal data_spec (Some n') Hlegal Hln') as [Ee' Be'].
  set (ie := dim1_of data_spec * (_NUM_NODE_IDS + 1) + dim2_of (Some n)) in *.
  set (ip := dim1_of data_spec * (_NUM_NODE_IDS + 1) + dim2_of None) in *.
  set (ie' := dim1_of data_spec * (_NUM_NODE_IDS + 1) + dim2_of (Some n')) in *.
  assert (ie <> ip) as Hne.
  { intros Heq. destruct (index_inj data_spec (Some n) data_spec None ie) as [_ [=]];
      try done. by rewrite Ep, Heq. }
  assert (ie' <> ip) as Hne'.
  { intros Heq. destruct (index_inj data_spec (Some n') data_spec None ie') as [_ [=]];
      try done. by rewrite Ep, Heq. }
  assert (ie' <> ie) as Hne''.
  { intros Heq. destruct (index_inj data_spec (Some n') data_spec (Some n) ie') as [_ [=]];
      try done; [by rewrite Ee, Heq|]. apply Hsrc. rewrite Hn, Hn'. congruence. }
  split.
  - destruct (table_get_Ok (_input_dispatch_table self) ie ltac:(lia)) as (se & Ge & _).
    destruct (table_get_Ok (_input_dispatch_table self) ip ltac:(lia)) as (sp & Gp & _).
    exists ie, ip, se, sp.
    rewrite (handle_received_frame_eq can_id frame self n Hnl Hn). fold data_spec.
    simpl. rewrite Hn, Ee, Ep, Ge, Gp.
    eexists. split_and!; try done.
    intros call. destruct se as [s1|], sp as [s2|];
      rewrite ?elem_of_cons, ?elem_of_nil; split.
    all: try (intros [->|[->|[]]]; eauto).
    all: try (intros [->|[]]; eauto).
    all: try (intros (s & -> & [[= ->]|[= ->]]); auto).
    all: try (intros (s & -> & [[=]|[= ->]]); auto).
    all: try (intros (s & -> & [[= ->]|[=]]); auto).
    all: try (intros (s & -> & [[=]|[=]]); auto).
    all: try (intros []).
  - set (t0 := CANTransport_init media).
    assert (length (_input_dispatch_table t0) = Z.to_nat (_INPUT_DISPATCH_TABLE_SIZE + 1))
      as Hlen0 by (unfold t0, CANTransport_init; simpl; apply length_replicate).
    set (t1 := {| _media := _media t0; _local_node_id := _local_node_id t0;
                  _input_dispatch_table :=
                    <[Z.to_nat ie := Some selective]> (_input_dispatch_table t0) |}).
    set (t2 := {| _media := _media t1; _local_node_id := _local_node_id t1;
                  _input_dispatch_table :=
                    <[Z.to_nat ip := Some promiscuous]> (_input_dispatch_table t1) |}).
    assert (table_get (_input_dispatch_table t2) ie = Ok (Some selective)) as G2e.
    { unfold t2, t1. cbn [_input_dispatch_table]. rewrite table_get_insert_ne by lia.
      apply table_get_insert_eq. rewrite Hlen0. lia. }
    assert (table_get (_input_dispatch_table t2) ip = Ok (Some promiscuous)) as G2p.
    { unfold t2, t1. cbn [_input_dispatch_table]. apply table_get_insert_eq.
      rewrite length_insert, Hlen0. lia. }
    assert (table_get (_input_dispatch_table t2) ie' = Ok None) as G2e'.
    { unfold t2, t1. cbn [_input_dispatch_table]. rewrite !table_get_insert_ne by lia.
      unfold t0. apply table_get_init. lia. }
    exists t1, t2, [(selective, can_id, frame); (promiscuous, can_id, frame)].
    split_and!.
    + unfold _get_input. rewrite Hn, Ee. fold ie.
      unfold t0 at 1. rewrite table_get_init by lia. done.
    + unfold _get_input. rewrite Ep. fold ip.
      unfold t1 at 1. cbn [_input_dispatch_table]. rewrite table_get_insert_ne by lia.
      unfold t0 at 1. rewrite table_get_init by lia. done.
    + rewrite (handle_received_frame_eq can_id frame t2 n Hnl Hn). fold data_spec.
      cbn [push_loop]. by rewrite Ee, Ep, G2e, G2p.
    + done.
    + rewrite (handle_received_frame_eq can_id' frame' t2 n' Hnl' Hn'). rewrite Hds.
      fold data_spec. cbn [push_loop]. by rewrite Ee', Ep, G2e', G2p.
Qed.

(** *** Sessions in the table *)

Lemma index_in_range ds src p :
  _compute_input_dispatch_table_index ds src = Ok p ->
  0 <= p < _INPUT_DISPATCH_TABLE_SIZE.
Proof.
  unfold _compute_input_dispatch_table_index.
  destruct (py_assert _) as [[]|e]; [|done]. cbv beta iota zeta.
  case_bool_decide as Hp; [|done]. cbn [py_assert]. by intros [= <-].
Qed.

Lemma table_size_pos : 0 < _INPUT_DISPATCH_TABLE_SIZE.
Proof using subject_mask_nonneg service_mask_nonneg node_mask_nonneg.
  unfold _INPUT_DISPATCH_TABLE_SIZE, _NUM_SUBJECTS, _NUM_SERVICES, _NUM_NODE_IDS. nia.
Qed.

Lemma transport_reachable_table (self : CANTransport) :
  transport_reachable self ->
  length (_input_dispatch_table self) = Z.to_nat (_INPUT_DISPATCH_TABLE_SIZE + 1)
  /\ _input_dispatch_table self !! Z.to_nat _INPUT_DISPATCH_TABLE_SIZE = Some None.
Proof using subject_mask_nonneg service_mask_nonneg node_mask_nonneg.
  pose proof table_size_pos as Hpos.
  induction 1 as [media|node_id self _ [Hlen Hlast]
                 |ds src new self session self' _ [Hlen Hlast] Hget
                 |ds src index self self' _ [Hlen Hlast] Hindex Hfin].
  - unfold CANTransport_init. cbn [_input_dispatch_table].
    split; [apply length_replicate|]. apply lookup_replicate_2. lia.
  - unfold set_local_node_id. destruct (_local_node_id self); [done|].
    case_decide; done.
  - unfold _get_input in Hget.
    destruct (_compute_input_dispatch_table_index ds src) as [index|e] eqn:Hindex; [|done].
    apply index_in_range in Hindex. cbv beta iota in Hget.
    destruct (table_get _ index) as [[s|]|e]; try done; injection Hget as <- <-; [done|].
    cbn [_input_dispatch_table]. rewrite length_insert. split; [done|].
    rewrite list_lookup_insert_ne by lia. done.
  - apply index_in_range in Hindex. unfold _get_input_finalizer in Hfin.
    destruct (_ !! Z.to_nat index); [|done]. injection Hfin as <-.
    cbn [_input_dispatch_table]. rewrite length_insert. split; [done|].
    rewrite list_lookup_insert_ne by lia. done.
Qed.

(** X20: The dispatch table is built with one slot more than there are indices.
    Whatever sessions are created and closed, the table keeps that length
    and its last slot stays empty. *)
Theorem dispatch_table_keeps_spare_slot (self : CANTransport) :
  transport_reachable self ->
  Z.of_nat (length (_input_dispatch_table self)) = _INPUT_DISPATCH_TABLE_SIZE + 1
  /\ table_get (_input_dispatch_table self) _INPUT_DISPATCH_TABLE_SIZE = Ok None.
Proof using subject_mask_nonneg service_mask_nonneg node_mask_nonneg.
  intros [Hlen Hlast]%transport_reachable_table. pose proof table_size_pos.
  split; [lia|]. unfold table_get. by rewrite Hlast.
Qed.

(** X21: [_get_input] is get-or-create.  For a legal data specifier and source
    it succeeds on every reachable transport and returns the session of the
    slot, making it from the factory only if the slot is empty; a second
    call with the same arguments returns the same session, discards what its
    factory would build and changes nothing; and the sessions of all other
    legal inputs are as they were. *)
Theorem get_input_get_or_create (data_specifier : DataSpecifier)
    (source_node_id : option Z) (first second : InputSession) (self : CANTransport) :
  transport_reachable self ->
  legal_data_specifier data_specifier ->
  legal_source source_node_id ->
  exists session self',
    _get_input data_specifier source_node_id first self = Ok (session, self')
    /\ _get_input data_specifier source_node_id second self' = Ok (session, self')
    /\ (forall other_specifier other_source other,
          legal_data_specifier other_specifier ->
          legal_source other_source ->
          (other_specifier, other_source) <> (data_specifier, source_node_id) ->
          exists session' self1 self2,
            _get_input other_specifier other_source other self = Ok (session', self1)
            /\ _get_input other_specifier other_source other self' = Ok (session', self2)).
Proof using subject_mask_nonneg service_mask_nonneg node_mask_nonneg.
  intros [Hlen _]%transport_reachable_table Hds Hsrc.
  destruct (index_legal data_specifier source_node_id Hds Hsrc) as [Hindex Hrange].
  set (index := dim1_of data_specifier * (_NUM_NODE_IDS + 1) + dim2_of source_node_id) in *.
  assert (Z.to_nat index < length (_input_dispatch_table self))%nat as Hlt by lia.
  destruct (table_get_Ok _ index Hlt) as (slot & Hslot & _).
  assert (exists session self',
            _get_input data_specifier source_node_id first self = Ok (session, self')
            /\ table_get (_input_dispatch_table self') index = Ok (Some session)
            /\ length (_input_dispatch_table self') = length (_input_dispatch_table self)
            /\ forall j, 0 <= j -> j <> index ->
                 table_get (_input_dispatch_table self') j
                 = table_get (_input_dispatch_table self) j)
    as (session & self' & Hget & Hslot' & Hlen' & Hother).
  { unfold _get_input. rewrite Hindex. cbv beta iota. rewrite Hslot.
    destruct slot as [session|].
    - by exists session, self.
    - eexists first, _. split; [done|]. cbn [_input_dispatch_table].
      split; [by apply table_get_insert_eq|]. split; [by rewrite length_insert|].
      intros j Hj Hne. apply table_get_insert_ne; lia. }
  exists session, self'. split; [done|]. split.
  - unfold _get_input. rewrite Hindex. cbv beta iota. by rewrite Hslot'.
  - intros ds' src' other Hds' Hsrc' Hne.
    destruct (index_legal ds' src' Hds' Hsrc') as [Hindex' Hrange'].
    set (index' := dim1_of ds' * (_NUM_NODE_IDS + 1) + dim2_of src') in *.
    assert (index' <> index) as Hne'.
    { intros Heq. apply Hne.
      destruct (index_inj ds' src' data_specifier source_node_id index') as [-> ->];
        try done. by rewrite Hindex, Heq. }
    assert (Z.to_nat index' < length (_input_dispatch_table self))%nat as Hlt' by lia.
    destruct (table_get_Ok _ index' Hlt') as (slot' & Hslot1 & _).
    unfold _get_input. rewrite Hindex'. cbv beta iota.
    rewrite (Hother index' ltac:(lia) Hne'), Hslot1.
    destruct slot' as [session'|]; by eexists _, _, _.
Qed.

(** X22: Closing an input session: the finalizer of the session made by
    [_get_input] empties its slot and no other; calling it again changes
    nothing; and the next [_get_input] for the same input makes a new
    session. *)
Theorem input_finalizer_frees_slot (data_specifier : DataSpecifier)
    (source_node_id : option Z) (first second : InputSession) (self : CANTransport) :
  transport_reachable self ->
  legal_data_specifier data_specifier ->
  legal_source source_node_id ->
  exists index session self' closed reopened,
    _compute_input_dispatch_table_index data_specifier source_node_id = Ok index
    /\ _get_input data_specifier source_node_id first self = Ok (session, self')
    /\ _get_input_finalizer index self' = Ok closed
    /\ table_get (_input_dispatch_table closed) index = Ok None
    /\ (forall j, 0 <= j -> j <> index ->
          table_get (_input_dispatch_table closed) j
          = table_get (_input_dispatch_table self') j)
    /\ _get_input_finalizer index closed = Ok closed
    /\ _get_input data_specifier source_node_id second closed = Ok (second, reopened).
Proof using subject_mask_nonneg service_mask_nonneg node_mask_nonneg.
  intros Hreach Hds Hsrc.
  destruct (index_legal data_specifier source_node_id Hds Hsrc) as [Hindex Hrange].
  set (index := dim1_of data_specifier * (_NUM_NODE_IDS + 1) + dim2_of source_node_id) in *.
  assert (exists session self',
            _get_input data_specifier source_node_id first self = Ok (session, self'))
    as (session & self' & Hget).
  { apply transport_reachable_table in Hreach as [Hlen _].
    assert (Z.to_nat index < length (_input_dispatch_table self))%nat as Hlt by lia.
    destruct (table_get_Ok _ index Hlt) as (slot & Hslot & _).
    unfold _get_input. rewrite Hindex. cbv beta iota. rewrite Hslot.
    destruct slot; by eexists _, _. }
  assert (transport_reachable self') as Hreach'
    by (eapply transport_reachable_get_input; done).
  apply transport_reachable_table in Hreach' as [Hlen' _].
  assert (Z.to_nat index < length (_input_dispatch_table self'))%nat as Hlt' by lia.
  destruct (lookup_lt_is_Some_2 _ _ Hlt') as [slot Hslot].
  set (closed := {| _media := _media self';
                    _local_node_id := _local_node_id self';
                    _input_dispatch_table :=
                      <[Z.to_nat index := None]> (_input_dispatch_table self') |}).
  exists index, session, self', closed. eexists.
  split; [done|]. split; [done|].
  split; [unfold _get_input_finalizer; by rewrite Hslot|].
  split; [by apply table_get_insert_eq|].
  split; [intros j Hj Hne; apply table_get_insert_ne; lia|].
  split.
  - unfold _get_input_finalizer, closed. cbn [_input_dispatch_table _media _local_node_id].
    rewrite list_lookup_insert_eq by done. by rewrite list_insert_insert_eq.
  - unfold _get_input. rewrite Hindex. cbv beta iota. unfold closed at 1.
    cbn [_input_dispatch_table]. rewrite table_get_insert_eq by done. done.
Qed.

End Dispatch.

End Core.

(** C5 as stated fails: the one-bit string "1" converts to the byte 1, while
    its zero-padded form "10000000" is the byte 128. *)
Lemma bytes_from_bits_pads_not :
  ~ (forall s : list bool, bytes_from_bits s = Ok (bytes_of_zero_padded s)).
Proof.
  intros H. specialize (H [true]). vm_compute in H. discriminate H.
Qed.

(** A frame with toggle set and neither start nor end of transfer arrives at
    a manager that holds a bucket of another transfer. *)
Lemma receive_frame_drops_orphan_witness :
  receive_frame Z 10 (mkFrame Z 5 [1; 2; 0x21] None None)
    (mkTransferManager Z [((7, Some 3), [mkFrame Z 7 [0x83] None None])] [((7, Some 3), 4)])
  = (None,
     mkTransferManager Z [((7, Some 3), [mkFrame Z 7 [0x83] None None])] [((7, Some 3), 4)]).
Proof.
  apply (receive_frame_drops_orphan Z); reflexivity.
Defined.

(** The manager after a first frame of a transfer and a sweep. *)
Lemma manager_maps_share_keys_witness :
  let self :=
    (remove_inactive_transfers Z (fun t seen timeout => bool_decide (t - seen > timeout))
       true 20 5
       (receive_frame Z 10 (mkFrame Z 7 [1; 0x83] None None) (TransferManager_init Z)).2).2 in
  dict_keys (active_transfers Z self) = dict_keys (active_transfer_timestamps Z self)
  /\ (forall key, is_Some (dict_get key (active_transfers Z self))
                  <-> is_Some (dict_get key (active_transfer_timestamps Z self))).
Proof.
  apply (manager_maps_share_keys Z (fun t seen timeout => bool_decide (t - seen > timeout))).
  apply reachable_sweep, reachable_receive, reachable_init.
Defined.

(** A transport on a media whose operations succeed, for node ids 0..127
    (the spec's node-id mask 0x7F): 200 is refused with [ValueError], 42 is
    stored, and 7 is refused afterwards. *)
Lemma set_local_node_id_once_witness :
  let enable := fun m : unit => (Ok tt, m) in
  let fresh := mkCANTransport unit unit tt None [] in
  let assigned := (set_local_node_id 127 unit enable unit 42 fresh).2 in
  set_local_node_id 127 unit enable unit 200 fresh = (Raise ValueError, fresh)
  /\ (set_local_node_id 127 unit enable unit 42 fresh).1 = Ok tt
  /\ local_node_id unit unit assigned = Some 42
  /\ set_local_node_id 127 unit enable unit 7 assigned
     = (Raise InvalidTransportConfigurationError, assigned).
Proof.
  intros enable fresh assigned.
  destruct (set_local_node_id_once 127 unit enable unit 200 fresh) as (_ & Hout & _).
  destruct (set_local_node_id_once 127 unit enable unit 42 fresh) as (_ & _ & Hin).
  destruct (Hin eq_refl ltac:(lia)) as (Hres & Hget & Hagain).
  split; [apply Hout; [reflexivity|lia]|].
  split; [exact Hres|].
  split; [exact Hget|].
  apply Hagain.
Defined.

(** C9 as stated fails: with no node id set, the out-of-range argument 128
    is refused with [ValueError], not with
    [InvalidTransportConfigurationError]. *)
Lemma set_local_node_id_range_error_is_ValueError :
  (set_local_node_id 127 unit (fun m => (Ok tt, m)) unit 128
     (mkCANTransport unit unit tt None [])).1 = Raise ValueError
  /\ (set_local_node_id 127 unit (fun m => (Ok tt, m)) unit 128
        (mkCANTransport unit unit tt None [])).1
     <> Raise InvalidTransportConfigurationError.
Proof. split; [reflexivity|discriminate]. Qed.

(** The masks of the spec's data model: subjects 0..8191, services 0..255,
    nodes 0..127; subject 100 heard from node 7 sits in slot 12907. *)
Lemma dispatch_index_bijection_witness :
  index_or_minus_one 8191 255 127 <$> all_inputs 8191 255 127
    ≡ₚ seqZ 0 (_INPUT_DISPATCH_TABLE_SIZE 8191 255 127)
  /\ _INPUT_DISPATCH_TABLE_SIZE 8191 255 127 = 1122816
  /\ exists p, _compute_input_dispatch_table_index 8191 255 127
                 (MessageDataSpecifier 100) (Some 7) = Ok p
               /\ 0 <= p < _INPUT_DISPATCH_TABLE_SIZE 8191 255 127.
Proof.
  destruct (dispatch_index_bijection 8191 255 127) as (Hrange & _ & _ & _ & Hperm & _);
    [lia..|].
  split; [exact Hperm|].
  split; [reflexivity|].
  apply Hrange; simpl; unfold _NUM_NODE_IDS; lia.
Defined.

(** Scenario S3 on a small table (subjects 0..127, services 0..3, nodes
    0..15): inputs for subject 100, one selective for node 7 and one
    promiscuous; a frame from node 7 and a frame from node 9, neither of
    them a loopback frame (a frame is a pair of the loopback flag and its
    data here). *)
Lemma received_frame_reaches_exact_and_promiscuous_witness :
  let can_id := MessageCANID 0 100 7 in
  let can_id' := MessageCANID 0 100 9 in
  let data_spec := MessageDataSpecifier 100 in
  let handle := _handle_received_frame 127 3 15 unit string (bool * list Z) fst in
  exists t1 t2 calls,
    _get_input 127 3 15 unit string data_spec (Some 7) "selective"
      (CANTransport_init 127 3 15 unit string tt) = Ok ("selective", t1)
    /\ _get_input 127 3 15 unit string data_spec None "promiscuous" t1
       = Ok ("promiscuous", t2)
    /\ handle can_id (false, [1; 0xC0]) t2 = Ok calls
    /\ calls ≡ₚ [("selective", can_id, (false, [1; 0xC0]));
                 ("promiscuous", can_id, (false, [1; 0xC0]))]
    /\ handle can_id' (false, [2; 0xC1]) t2
       = Ok [("promiscuous", can_id', (false, [2; 0xC1]))]
    /\ handle can_id (true, [1; 0xC0]) t2 = Raise AssertionError.
Proof.
  intros can_id can_id' data_spec handle.
  destruct (received_frame_reaches_exact_and_promiscuous 127 3 15 unit string
              (bool * list Z) fst ltac:(lia) ltac:(lia) ltac:(lia)
              tt "selective" "promiscuous" can_id can_id'
              (false, [1; 0xC0]) (false, [2; 0xC1])
              (CANTransport_init 127 3 15 unit string tt))
    as (_ & (t1 & t2 & calls & H1 & H2 & H3 & H4 & H5) & Hecho).
  - reflexivity.
  - reflexivity.
  - simpl. lia.
  - simpl. lia.
  - reflexivity.
  - discriminate.
  - apply length_replicate.
  - exists t1, t2, calls.
    split; [exact H1|]. split; [exact H2|]. split; [exact H3|]. split; [exact H4|].
    split; [exact H5|]. apply Hecho. reflexivity.
Defined.

(** A dynamic array of at most 5 one-bit elements, built with the TAO flag
    on: holding [1, 0] it packs as the 3-bit count 010 and the two bits; a
    stream 011 1 0 1 1111 unpacks to three elements and leaves 1111. *)
Lemma small_elements_disable_tao_witness :
  let bit := PrimitiveType KIND_UNSIGNED_INT 1 in
  let items := [PrimitiveValue 1 [true]; PrimitiveValue 1 [false]] in
  let stream := [false; true; true; true; false; true; true; true; true; true] in
  exists item_ctor,
    ArrayValue_init (ArrayType bit MODE_DYNAMIC 5) true
    = Ok (ArrayValue MODE_DYNAMIC 5 false item_ctor [])
    /\ pack exact_log2_ceil (ArrayValue MODE_DYNAMIC 5 false item_ctor items)
       = Ok [false; true; false; true; false]
    /\ unpack exact_log2_ceil (ArrayValue MODE_DYNAMIC 5 false item_ctor items) stream
       = Ok (ArrayValue MODE_DYNAMIC 5 false item_ctor
               [PrimitiveValue 1 [true]; PrimitiveValue 1 [false]; PrimitiveValue 1 [true]],
             [true; true; true; true]).
Proof.
  intros bit items stream.
  destruct (small_elements_disable_tao exact_log2_ceil bit 5 true items stream)
    as (_ & item_ctor & Hinit & Hpack & Hunpack); [simpl; lia|].
  exists item_ctor. split; [exact Hinit|].
  injection Hinit as <-.
  split; [rewrite Hpack|rewrite Hunpack]; reflexivity.
Defined.

(** Three lists under the identifier of a message of type 341 from node 1,
    with nothing registered.  A first frame 0x05 lacks start-of-transfer, so
    [TransferError] is raised before the frame without data behind it is
    looked at; behind a first frame 0x85, which passes the checks, the
    frame without data raises [IndexError]; a well-formed single frame is
    rejected with [TransferError] because its data type is unknown. *)
Lemma from_frames_TransferError_iff_witness :
  let frame := fun data : list Z => mkFrame Z 0x1F015501 data None None in
  let run := from_frames exact_log2_ceil Z ∅ (Transfer_init Z) in
  run [frame [0x05]; frame []] = Raise TransferError
  /\ run [frame [0x85]; frame []] = Raise IndexError
  /\ run [frame [1; 2; 0xC3]] = Raise TransferError.
Proof.
  intros frame run. split; [|split].
  - destruct (from_frames_TransferError_iff exact_log2_ceil Z ∅ (Transfer_init Z)
                [frame [0x05]; frame []]) as (Hiff & _).
    apply Hiff. left. exists 0%nat, (frame [0x05]). split; [reflexivity|].
    split; [|reflexivity]. repeat constructor. discriminate.
  - destruct (from_frames_TransferError_iff exact_log2_ceil Z ∅ (Transfer_init Z)
                [frame [0x85]; frame []]) as (_ & _ & Hindex & _).
    apply (Hindex 1%nat (frame [])); [reflexivity|reflexivity|].
    intros j g Hj Hg. destruct j as [|j]; [|lia].
    injection Hg as <-. split; [discriminate|reflexivity].
  - destruct (from_frames_TransferError_iff exact_log2_ceil Z ∅ (Transfer_init Z)
                [frame [1; 2; 0xC3]]) as (Hiff & _).
    apply Hiff. right. split; [discriminate|]. split; [repeat constructor; discriminate|].
    left. eexists. split; [vm_compute; reflexivity|]. apply lookup_empty.
Defined.

(** C2 as stated fails: a frame without data has no start-of-transfer flag,
    so a list made of it breaks the tail-byte discipline, yet [from_frames]
    raises [IndexError] on reading its tail byte, not [TransferError]. *)
Lemma from_frames_empty_frame_is_IndexError :
  [mkFrame Z 0 [] None None] <> []
  /\ tail_discipline_violated Z [mkFrame Z 0 [] None None]
  /\ from_frames exact_log2_ceil Z ∅ (Transfer_init Z) [mkFrame Z 0 [] None None]
     = Raise IndexError
  /\ from_frames exact_log2_ceil Z ∅ (Transfer_init Z) [mkFrame Z 0 [] None None]
     <> Raise TransferError.
Proof.
  split; [discriminate|]. split; [|split; [reflexivity|discriminate]].
  exists 0%nat, (mkFrame Z 0 [] None None). split; reflexivity.
Qed.

(** A 10-byte payload of transfer 5 from node 42 (priority 16, data type
    341, CRC seed 0xBEEF): twelve bytes with the CRC in front, two frames. *)
Lemma to_frames_chunks_and_tail_bytes_witness :
  let sent := mkTransfer Z 16 5 42 None false false None None None
                (PayloadBytes [7; 1; 2; 3; 4; 5; 6; 7; 8; 9]) (Some 341) (Some 0xBEEF) in
  exists frames,
    to_frames Z sent = Ok frames
    /\ length frames = 2%nat
    /\ forall i, (i < 2)%nat ->
         exists f tail,
           frames !! i = Some f
           /\ f_message_id Z f = 268522794
           /\ f_bytes Z f
              = slice [26; 144; 7; 1; 2; 3; 4; 5; 6; 7; 8; 9] (7 * i) (7 * i + 7) ++ [tail]
           /\ Z.land tail 0x1F = 5
           /\ start_of_transfer Z f = bool_decide (i = 0%nat)
           /\ end_of_transfer Z f = bool_decide (S i = 2%nat)
           /\ toggle Z f = Nat.odd i.
Proof.
  intros sent.
  exact (to_frames_chunks_and_tail_bytes Z sent [7; 1; 2; 3; 4; 5; 6; 7; 8; 9] 0xBEEF 268522794
           eq_refl (fun _ => eq_refl) eq_refl).
Defined.



(** ** Instances of the further properties *)

(** Three bytes, among them the smallest and the largest. *)
Lemma bytes_from_bits_of_bits_from_bytes_witness :
  length (bits_from_bytes [0; 7; 255]) = 24%nat
  /\ bytes_from_bits (bits_from_bytes [0; 7; 255]) = Ok [0; 7; 255].
Proof.
  apply (bytes_from_bits_of_bits_from_bytes [0; 7; 255]).
  repeat (constructor; [lia|]). constructor.
Defined.

(** Twelve bits: one whole byte and a chunk of four. *)
Lemma byte_order_conversions_inverse_witness :
  let s := [true; true; false; false; false; false; false; false;
            true; false; true; false] in
  (exists be, be_from_le_bits s 12 = Ok be /\ le_from_be_bits be 12 = Ok s)
  /\ (exists le, le_from_be_bits s 12 = Ok le /\ be_from_le_bits le 12 = Ok s).
Proof.
  intros s. apply (byte_order_conversions_inverse s 12). reflexivity.
Defined.

(** Two bits cannot fill a 3-bit field; of twelve bits the conversions
    use the first three, respectively the last three. *)
Lemma byte_order_conversions_length_witness :
  (be_from_le_bits [true; false] 3 = Raise ValueError
   /\ le_from_be_bits [true; false] 3 = Raise ValueError)
  /\ exists be le,
       be_from_le_bits (replicate 9 false ++ [true; false; true]) 3 = Ok be
       /\ le_from_be_bits (replicate 9 false ++ [true; false; true]) 3 = Ok le
       /\ length be = 3%nat /\ length le = 3%nat.
Proof.
  split.
  - apply (byte_order_conversions_length [true; false] 3). simpl. lia.
  - destruct (proj2 (byte_order_conversions_length
                       (replicate 9 false ++ [true; false; true]) 3))
      as (be & le & Hbe & Hle & Hlbe & Hlle & _); [simpl; lia|].
    by exists be, le.
Defined.


(** A dynamic array of at most 4 one-bit elements, holding 4: the count is
    written as 100 where 2 bits are read, so 2 elements come back. *)
Lemma full_array_of_power_of_two_size_is_halved_witness :
  let bit := fun b : bool => PrimitiveValue 1 [b] in
  let full := ArrayValue MODE_DYNAMIC 4 false (Ok (bit false))
                [bit true; bit false; bit true; bit true] in
  pack exact_log2_ceil full = Ok [true; false; false; true; false; true; true]
  /\ exists items',
       unpack exact_log2_ceil full [true; false; false; true; false; true; true]
       = Ok (ArrayValue MODE_DYNAMIC 4 false (Ok (bit false)) items', [false; true; true])
       /\ length items' = 2%nat.
Proof.
  intros bit full.
  destruct (full_array_of_power_of_two_size_is_halved exact_log2_ceil 2 (Ok (bit false))
              [bit true; bit false; bit true; bit true]
              [bit true; bit false; bit true; bit true]
              [true; false; true; true] []
              (ArrayValue MODE_DYNAMIC 4 false (Ok (bit false)) [bit false; bit true])
              [false; true; true])
    as (Hpack & Hunpack); [lia|reflexivity|reflexivity|reflexivity|].
  split; [exact Hpack|].
  destruct (Hunpack eq_refl) as (items' & Hv & Hlen).
  exists items'. split; [|exact Hlen].
  injection Hv as <-. reflexivity.
Defined.

(** The message with id 7 and data [1, 2], of type 341 with CRC seed
    0xBEEF, as transfer 5 from node 42: 24 payload bits make 3 bytes. *)
Lemma Transfer_new_serialises_witness :
  let KeyValue :=
    CompoundType KIND_MESSAGE 341 0xBEEF
      [("id", PrimitiveType KIND_UNSIGNED_INT 8);
       ("data", ArrayType (PrimitiveType KIND_UNSIGNED_INT 8) MODE_DYNAMIC 16)]
      false [] false [] false in
  let zero := PrimitiveValue 8 (replicate 8 false) in
  let v :=
    CompoundValue false None
      [("id", PrimitiveValue 8 [false; false; false; false; false; true; true; true]);
       ("data", ArrayValue MODE_DYNAMIC 16 true (Ok zero)
                  [PrimitiveValue 8 [false; false; false; false; false; false; false; true];
                   PrimitiveValue 8 [false; false; false; false; false; false; true; false]])] in
  exists sent bytes,
    Transfer_new exact_log2_ceil Z 5 42 None (Some (KeyValue, v)) (Some 16) false false None
    = Ok sent
    /\ payload Z sent = PayloadBytes bytes
    /\ length bytes = 3%nat
    /\ data_type_id Z sent = Some 341
    /\ data_type_crc Z sent = Some 0xBEEF
    /\ transfer_priority Z sent = 16.
Proof.
  intros KeyValue zero v.
  destruct (Transfer_new_serialises exact_log2_ceil Z 5 42 None KeyValue false None
              [("id", PrimitiveValue 8 [false; false; false; false; false; true; true; true]);
               ("data", ArrayValue MODE_DYNAMIC 16 true (Ok zero)
                  [PrimitiveValue 8 [false; false; false; false; false; false; false; true];
                   PrimitiveValue 8 [false; false; false; false; false; false; true; false]])]
              (Some 16) false false None
              [false; false; false; false; false; true; true; true;
               false; false; false; false; false; false; false; true;
               false; false; false; false; false; false; true; false] 341 0xBEEF)
    as (sent & bytes & padding & Hnew & Hpay & _ & _ & Hlen & _ & Hid & Hcrc & _ & _ & _ & Hpri & _);
    [reflexivity|reflexivity|reflexivity|].
  exists sent, bytes.
  split; [exact Hnew|]. split; [exact Hpay|]. split; [exact Hlen|].
  split; [exact Hid|]. split; [exact Hcrc|exact Hpri].
Defined.


(** The first frame of transfer 3 under identifier 7 arrives at an empty
    manager at time 10: it opens a bucket and nothing is returned. *)
Lemma receive_frame_effect_witness :
  let frame := mkFrame Z 7 [1; 0x83] None None in
  let after := receive_frame Z 10 frame (TransferManager_init Z) in
  after.1 = None
  /\ dict_get (7, Some 3) (active_transfers Z after.2) = Some [frame]
  /\ dict_get (7, Some 3) (active_transfer_timestamps Z after.2) = Some 10
  /\ dict_get (7, Some 4) (active_transfers Z after.2) = None.
Proof.
  intros frame after.
  destruct (receive_frame_effect Z (fun t seen timeout => bool_decide (t - seen > timeout))
              10 frame (TransferManager_init Z) (reachable_init _ _))
    as [Hkey Hother].
  destruct (Hkey eq_refl) as (Hres & Hbucket & Hstamp).
  split; [exact Hres|]. split; [exact Hbucket|]. split; [exact Hstamp|].
  destruct (Hother (7, Some 4)) as [Ho _]; [discriminate|exact Ho].
Defined.

(** The two frames of a 10-byte transfer arrive at an empty manager at
    times 10 and 11. *)
Lemma manager_reassembles_to_frames_witness :
  let sent := mkTransfer Z 16 5 42 None false false None None None
                (PayloadBytes [7; 1; 2; 3; 4; 5; 6; 7; 8; 9]) (Some 341) (Some 0xBEEF) in
  let frames := [mkFrame Z 268522794 [26; 144; 7; 1; 2; 3; 4; 133] None None;
                 mkFrame Z 268522794 [5; 6; 7; 8; 9; 101] None None] in
  to_frames Z sent = Ok frames
  /\ receive_frames Z (zip [10; 11] frames) (TransferManager_init Z)
     = ([None; Some frames], TransferManager_init Z).
Proof.
  intros sent frames. split; [reflexivity|].
  apply (manager_reassembles_to_frames Z (fun t seen timeout => bool_decide (t - seen > timeout))
           sent frames [10; 11] (TransferManager_init Z)).
  - reflexivity.
  - apply reachable_init.
  - reflexivity.
  - intros f _. reflexivity.
Defined.

(** A manager holding one started transfer, last fed at time 10, swept at
    time 20 with a timeout of 5. *)
Lemma remove_inactive_transfers_on_key_list_witness :
  let expired := fun t seen timeout : Z => bool_decide (t - seen > timeout) in
  let self := (receive_frame Z 10 (mkFrame Z 7 [1; 0x83] None None)
                 (TransferManager_init Z)).2 in
  exists self',
    remove_inactive_transfers Z expired false 20 5 self = (Ok tt, self')
    /\ dict_get (7, Some 3) (active_transfers Z self') = None
    /\ dict_get (7, Some 3) (active_transfer_timestamps Z self') = None.
Proof.
  intros expired self.
  destruct (remove_inactive_transfers_on_key_list Z expired 20 5 self)
    as (self' & Hrun & Hkeys).
  - apply reachable_receive, reachable_init.
  - exists self'. split; [exact Hrun|]. exact (Hkeys (7, Some 3)).
Defined.

(** The same manager swept while iterating over the live key view. *)
Lemma remove_inactive_transfers_on_key_view_witness :
  let expired := fun t seen timeout : Z => bool_decide (t - seen > timeout) in
  let self := (receive_frame Z 10 (mkFrame Z 7 [1; 0x83] None None)
                 (TransferManager_init Z)).2 in
  remove_inactive_transfers Z expired true 20 5 self
  = (Raise RuntimeError, TransferManager_init Z).
Proof.
  intros expired self.
  destruct (remove_inactive_transfers_on_key_view Z expired 20 5 self)
    as [[_ Hnone]|(before & key & after & Hkeys & _ & _ & Hrun)].
  - apply reachable_receive, reachable_init.
  - specialize (Hnone (7, Some 3)). discriminate Hnone.
  - destruct before as [|k [|k' before]]; [|discriminate Hkeys..].
    injection Hkeys as <- <-. exact Hrun.
Defined.

(** The identifier of a message of subject 341 from node 42 at priority 16. *)
Lemma message_id_of_set_message_id_witness :
  message_id Z (set_message_id Z (Transfer_init Z) 268522794) = Ok 268522794.
Proof.
  apply (message_id_of_set_message_id Z (Transfer_init Z) 268522794). lia.
Defined.

(** The two frames of the 10-byte transfer. *)
Lemma frames_fit_and_share_key_witness :
  let sent := mkTransfer Z 16 5 42 None false false None None None
                (PayloadBytes [7; 1; 2; 3; 4; 5; 6; 7; 8; 9]) (Some 341) (Some 0xBEEF) in
  let frames := [mkFrame Z 268522794 [26; 144; 7; 1; 2; 3; 4; 133] None None;
                 mkFrame Z 268522794 [5; 6; 7; 8; 9; 101] None None] in
  exists mid,
    key Z sent = Ok (mid, 5)
    /\ frames <> []
    /\ Forall (fun f => f_message_id Z f = mid
                        /\ transfer_key Z f = (mid, Some 5)
                        /\ (1 <= length (f_bytes Z f) <= 8)%nat) frames.
Proof.
  intros sent frames.
  exact (frames_fit_and_share_key Z sent frames eq_refl).
Defined.

(** Node 9 answers request 5 of service 1 that node 42 sent to it. *)
Lemma is_response_to_one_way_witness :
  let request := mkTransfer Z 16 5 42 (Some 9) true true None None None
                   (PayloadBytes []) (Some 1) (Some 0) in
  let response := mkTransfer Z 16 5 9 (Some 42) false true None None None
                    (PayloadBytes []) (Some 1) (Some 0) in
  is_response_to Z response request = true
  /\ is_response_to Z request response = false
  /\ is_response_to Z response response = false.
Proof.
  intros request response.
  destruct (is_response_to_one_way Z response request eq_refl) as (H1 & H2 & _).
  split; [reflexivity|]. split; [exact H1|exact H2].
Defined.

(** The 10-byte transfer without its second frame, and without its first. *)
Lemma from_frames_detects_lost_frame_witness :
  let sent := mkTransfer Z 16 5 42 None false false None None None
                (PayloadBytes [7; 1; 2; 3; 4; 5; 6; 7; 8; 9]) (Some 341) (Some 0xBEEF) in
  let first := mkFrame Z 268522794 [26; 144; 7; 1; 2; 3; 4; 133] None None in
  let second := mkFrame Z 268522794 [5; 6; 7; 8; 9; 101] None None in
  to_frames Z sent = Ok [first; second]
  /\ from_frames exact_log2_ceil Z ∅ (Transfer_init Z) [first] = Raise TransferError
  /\ from_frames exact_log2_ceil Z ∅ (Transfer_init Z) [second] = Raise TransferError.
Proof.
  intros sent first second. split; [reflexivity|]. split.
  - apply (from_frames_detects_lost_frame exact_log2_ceil Z ∅ (Transfer_init Z) sent
             [first; second] 1); [reflexivity|simpl; lia|simpl; lia].
  - apply (from_frames_detects_lost_frame exact_log2_ceil Z ∅ (Transfer_init Z) sent
             [first; second] 0); [reflexivity|simpl; lia|simpl; lia].
Defined.

(** The half-precision pattern of 1.0 becomes the single-precision
    pattern of 1.0 and comes back. *)
Lemma f16_from_f32_of_f32_from_f16_witness :
  f32_from_f16 0x3C00 = 0x3F800000
  /\ f16_from_f32 (f32_from_f16 0x3C00) = 0x3C00.
Proof.
  split; [reflexivity|].
  apply (f16_from_f32_of_f32_from_f16 0x3C00). lia.
Defined.

(** A union of an 8-bit and a 4-bit field switched to the second one: the
    tag 1 in one bit, then the four bits of the field. *)
Lemma switched_union_packs_field_witness :
  let fields := [("a", PrimitiveValue 8 (replicate 8 false));
                 ("b", PrimitiveValue 4 [true; false; true; true])] in
  switch_union_field (PrimitiveValue 4 [true; false; true; true]) (Some "b")
  = Raise ValueError
  /\ exists obj,
       switch_union_field (CompoundValue true None fields) (Some "b") = Ok obj
       /\ get_active_union_field obj = Ok (Some "b")
       /\ pack exact_log2_ceil obj = Ok [true; true; false; true; true].
Proof.
  intros fields.
  destruct (switched_union_packs_field exact_log2_ceil) as [Herr Hpack].
  split; [apply Herr; discriminate|].
  destruct (Hpack None fields 1%nat "b" (PrimitiveValue 4 [true; false; true; true])
              1%nat [true; false; true; true])
    as (obj & Hswitch & _ & Hactive & _ & Hp).
  - apply NoDup_cons. split; [rewrite list_elem_of_singleton; discriminate|apply NoDup_singleton].
  - reflexivity.
  - discriminate.
  - reflexivity.
  - reflexivity.
  - exists obj. split; [exact Hswitch|]. split; [exact Hactive|exact Hp].
Defined.

(** An output session for subject 100, opened, asked for again, fed a
    loopback frame, closed and opened anew. *)
Lemma output_session_lifecycle_witness :
  let loopback := fun frame : list Z => true in
  let data_spec := MessageDataSpecifier 100 in
  let can_id := MessageCANID 0 100 7 in
  let created := _get_output string data_spec None "first" [] in
  let closed := _get_output_finalizer string data_spec None created.2 in
  _get_output string data_spec None "second" created.2 = created
  /\ _handle_loopback_frame (list Z) loopback string can_id [1; 0xC0] created.2
     = Ok [("first", [1; 0xC0])]
  /\ _handle_loopback_frame (list Z) loopback string can_id [1; 0xC0] closed = Ok []
  /\ _get_output_finalizer string data_spec None closed = closed
  /\ (_get_output string data_spec None "second" closed).1 = "second"
  /\ NoDup (dict_keys closed).
Proof.
  intros loopback data_spec can_id.
  apply (output_session_lifecycle (list Z) loopback string data_spec None
           "first" "second" can_id [1; 0xC0] []).
  - constructor.
  - reflexivity.
  - reflexivity.
  - reflexivity.
Defined.

(** A small table (subjects 0..127, services 0..3, nodes 0..15) after one
    input session was opened. *)
Lemma dispatch_table_keeps_spare_slot_witness :
  let enable := fun m : unit => (Ok tt, m) in
  exists session self,
    _get_input 127 3 15 unit string (MessageDataSpecifier 100) (Some 7) "selective"
      (CANTransport_init 127 3 15 unit string tt) = Ok (session, self)
    /\ Z.of_nat (length (_input_dispatch_table unit string self))
       = _INPUT_DISPATCH_TABLE_SIZE 127 3 15 + 1
    /\ table_get string (_input_dispatch_table unit string self)
         (_INPUT_DISPATCH_TABLE_SIZE 127 3 15) = Ok None.
Proof.
  intros enable.
  destruct (_get_input 127 3 15 unit string (MessageDataSpecifier 100) (Some 7) "selective"
              (CANTransport_init 127 3 15 unit string tt)) as [[session self]|e] eqn:Hget;
    [|vm_compute in Hget; discriminate Hget].
  exists session, self. split; [reflexivity|].
  apply (dispatch_table_keeps_spare_slot 127 3 15 unit enable string
           ltac:(lia) ltac:(lia) ltac:(lia) self).
  eapply transport_reachable_get_input; [apply transport_reachable_init|exact Hget].
Defined.

(** On the small table: the input for subject 100 from node 7 is created
    once, and the promiscuous input for the same subject is another slot. *)
Lemma get_input_get_or_create_witness :
  let fresh := CANTransport_init 127 3 15 unit string tt in
  exists self',
    _get_input 127 3 15 unit string (MessageDataSpecifier 100) (Some 7) "first" fresh
    = Ok ("first", self')
    /\ _get_input 127 3 15 unit string (MessageDataSpecifier 100) (Some 7) "second" self'
       = Ok ("first", self')
    /\ exists session' self1 self2,
         _get_input 127 3 15 unit string (MessageDataSpecifier 100) None "other" fresh
         = Ok (session', self1)
         /\ _get_input 127 3 15 unit string (MessageDataSpecifier 100) None "other" self'
            = Ok (session', self2).
Proof.
  intros fresh.
  destruct (get_input_get_or_create 127 3 15 unit (fun m : unit => (Ok tt, m)) string
              ltac:(lia) ltac:(lia) ltac:(lia)
              (MessageDataSpecifier 100) (Some 7) "first" "second" fresh)
    as (session & self' & Hfirst & Hsecond & Hother).
  - apply transport_reachable_init.
  - simpl. lia.
  - simpl. unfold _NUM_NODE_IDS. lia.
  - assert (session = "first") as ->.
    { pose proof Hfirst as Hrun. vm_compute in Hrun. by injection Hrun. }
    exists self'. split; [exact Hfirst|]. split; [exact Hsecond|].
    apply (Hother (MessageDataSpecifier 100) None "other").
    + simpl. lia.
    + exact I.
    + discriminate.
Defined.

(** On the small table: closing the input for subject 100 from node 7
    empties slot 1707, and the next request creates a session again. *)
Lemma input_finalizer_frees_slot_witness :
  let fresh := CANTransport_init 127 3 15 unit string tt in
  exists session self' closed reopened,
    _compute_input_dispatch_table_index 127 3 15 (MessageDataSpecifier 100) (Some 7)
    = Ok 1707
    /\ _get_input 127 3 15 unit string (MessageDataSpecifier 100) (Some 7) "first" fresh
       = Ok (session, self')
    /\ _get_input_finalizer unit string 1707 self' = Ok closed
    /\ table_get string (_input_dispatch_table unit string closed) 1707 = Ok None
    /\ _get_input 127 3 15 unit string (MessageDataSpecifier 100) (Some 7) "second" closed
       = Ok ("second", reopened).
Proof.
  intros fresh.
  destruct (input_finalizer_frees_slot 127 3 15 unit (fun m : unit => (Ok tt, m)) string
              ltac:(lia) ltac:(lia) ltac:(lia)
              (MessageDataSpecifier 100) (Some 7) "first" "second" fresh)
    as (index & session & self' & closed & reopened
        & Hindex & Hfirst & Hclose & Hslot & _ & _ & Hagain).
  - apply transport_reachable_init.
  - simpl. lia.
  - simpl. unfold _NUM_NODE_IDS. lia.
  - assert (index = 1707) as -> by (vm_compute in Hindex; by injection Hindex).
    exists session, self', closed, reopened.
    split; [reflexivity|]. split; [exact Hfirst|]. split; [exact Hclose|].
    split; [exact Hslot|exact Hagain].
Defined.
